(** * Spain Wildfires: cleaning, province resolution, aggregation, enrichment

    A shallow embedding of the data pipeline of the [wildfires] package
    ([cleaning.py], [geo.py], [aggregates.py]) and of the dashboard filter
    ([app/spain_wildfires_dashboard.py]).

    The Python code works on pandas DataFrames and on a GeoJSON dictionary.
    Both are mutable objects passed by reference, so they live in a store
    ([world]) and the functions are written in a state-and-exception monad.
    DataFrame cells are dynamically typed values ([cell]); the values held in
    a GeoJSON property bag are plain Python values ([json]).

    Floating-point numbers are idealised as exact rationals plus the two
    infinities; rounding and 64-bit overflow are outside the model.  The
    theorems that state the value of a sum are therefore stated for integer
    values whose absolute values add up to at most 2^53 ([exact_sums]),
    where the 64-bit integer and double arithmetic of pandas is exact.  The
    text parsers of pandas ([pd.to_numeric]) and of Python ([int]), and the
    call [fillna(None)], are parameters of the development. *)

From Stdlib Require Import ZArith QArith Ascii String List Bool Lia Permutation Sorted.
From Stdlib Require Import DecimalString.
Import ListNotations.
Local Open Scope string_scope.
Local Open Scope list_scope.
Local Open Scope Z_scope.

Set Implicit Arguments.

(** ** Values *)

(** A number as numpy or Python holds it. *)
Inductive num : Type :=
| Int (z : Z)
| Flt (q : Q)
| Inf (negative : bool).

(** A DataFrame cell.  [CNaN] is the float NaN, [CNone] the Python [None]
    of an object column; pandas treats both as missing. *)
Inductive cell : Type :=
| CNum (n : num)
| CNaN
| CNone
| CStr (s : string)
| CBool (b : bool).

(** A value of a GeoJSON property bag after [json.load], when it is a
    scalar or null.  Arrays and objects as property values are outside the
    model. *)
Inductive json : Type :=
| JNull
| JNum (n : num)
| JStr (s : string)
| JBool (b : bool).

Inductive exn : Type :=
| KeyError (msg : string) (names : list string)
| TypeError (msg : string)
| ValueError (msg : string)
| OverflowError (msg : string)
| AttributeError (msg : string)
| SystemError.

Definition result (A : Type) : Type := (exn + A)%type.

Definition isna (c : cell) : bool :=
  match c with
  | CNaN | CNone => true
  | _ => false
  end.

Definition b2z (b : bool) : Z := if b then 1 else 0.

(** The rational a finite number denotes; [None] for an infinity. *)
Definition num_Q (n : num) : option Q :=
  match n with
  | Int z => Some (inject_Z z)
  | Flt q => Some q
  | Inf _ => None
  end.

(** [x <= y] on numbers, infinities included. *)
Definition num_leb (x y : num) : bool :=
  match x, y with
  | Inf true, _ => true
  | _, Inf false => true
  | Inf false, _ => false
  | _, Inf true => false
  | Int a, Int b => a <=? b
  | Int a, Flt q => Qle_bool (inject_Z a) q
  | Flt q, Int b => Qle_bool q (inject_Z b)
  | Flt p, Flt q => Qle_bool p q
  end.

Definition num_eqb (x y : num) : bool :=
  match x, y with
  | Inf a, Inf b => Bool.eqb a b
  | Inf _, _ | _, Inf _ => false
  | Int a, Int b => a =? b
  | Int a, Flt q => Qeq_bool (inject_Z a) q
  | Flt q, Int b => Qeq_bool q (inject_Z b)
  | Flt p, Flt q => Qeq_bool p q
  end.

(** Truncation toward zero, as [int(x)] and [astype(int)] do on a float. *)
Definition Qtrunc (q : Q) : Z := Z.quot (Qnum q) (Zpos (Qden q)).

Definition Q_is_integer (q : Q) : bool := Z.rem (Qnum q) (Zpos (Qden q)) =? 0.

(** Addition of two numbers: integers stay integers, anything else is a
    float.  [inf + (-inf)] is NaN. *)
Definition num_add (x y : num) : option num :=
  match x, y with
  | Int a, Int b => Some (Int (a + b))
  | Int a, Flt q => Some (Flt (Qred (inject_Z a + q)))
  | Flt q, Int b => Some (Flt (Qred (q + inject_Z b)))
  | Flt p, Flt q => Some (Flt (Qred (p + q)))
  | Inf a, Inf b => if Bool.eqb a b then Some (Inf a) else None
  | Inf a, _ => Some (Inf a)
  | _, Inf b => Some (Inf b)
  end.

(** ** Association lists with Python's dictionary discipline

    A key that is already present keeps its position and takes the new
    value; a new key is appended.  This is the behaviour of a Python [dict]
    and of the column index of a DataFrame under [obj[key] = value]. *)
Section Assoc.
Variables (K V : Type) (keqb : K -> K -> bool).

Fixpoint assoc_get (k : K) (l : list (K * V)) : option V :=
  match l with
  | [] => None
  | (k', v) :: l' => if keqb k k' then Some v else assoc_get k l'
  end.

Fixpoint assoc_set (k : K) (v : V) (l : list (K * V)) : list (K * V) :=
  match l with
  | [] => [(k, v)]
  | (k', v') :: l' =>
      if keqb k k' then (k', v) :: l' else (k', v') :: assoc_set k v l'
  end.

Definition assoc_mem (k : K) (l : list (K * V)) : bool :=
  match assoc_get k l with Some _ => true | None => false end.

Definition assoc_keys (l : list (K * V)) : list K := map fst l.
End Assoc.

Definition str_mem (s : string) (l : list string) : bool :=
  existsb (String.eqb s) l.

(** ** DataFrames *)

Definition Series : Type := list cell.

(** A DataFrame with the default positional index: the number of rows and
    the columns in their order. *)
Record DataFrame : Type := mkDF {
  nrows : nat;
  cols : list (string * Series)
}.

Definition df_columns (d : DataFrame) : list string := assoc_keys (cols d).

Definition df_has (d : DataFrame) (c : string) : bool :=
  assoc_mem String.eqb c (cols d).

Definition df_col (d : DataFrame) (c : string) : option Series :=
  assoc_get String.eqb c (cols d).

Definition df_with (d : DataFrame) (c : string) (s : Series) : DataFrame :=
  mkDF (nrows d) (assoc_set String.eqb c s (cols d)).

(** Every column has one cell per row. *)
Definition df_wf (d : DataFrame) : Prop :=
  Forall (fun p => length (snd p) = nrows d) (cols d).

(** ** GeoJSON *)

Definition props : Type := list (string * json).

(** The "properties" member of a feature: missing, [null] (which GeoJSON
    allows), or an object. *)
Inductive bag : Type :=
| NoBag
| NullBag
| Bag (p : props).

Record Feature : Type := mkFeature {
  properties : bag;
  geometry : string            (* opaque to the pipeline *)
}.

Record GeoJSON : Type := mkGeo {
  features : option (list Feature)   (* [None]: no "features" key *)
}.

(** ** The store and the monad *)

Definition loc : Type := nat.

Record world : Type := mkWorld {
  frames : list DataFrame;
  geos : list GeoJSON
}.

Definition M (A : Type) : Type := world -> result A * world.

Definition ret {A} (a : A) : M A := fun w => (inr a, w).

Definition raise {A} (e : exn) : M A := fun w => (inl e, w).

Definition bind {A B} (m : M A) (f : A -> M B) : M B :=
  fun w =>
    match m w with
    | (inl e, w') => (inl e, w')
    | (inr a, w') => f a w'
    end.

Declare Scope py_scope.
Delimit Scope py_scope with py.
Notation "x <- m ;; k" := (bind m (fun x => k))
  (at level 61, m at next level, right associativity) : py_scope.
Notation "m ;;; k" := (bind m (fun _ => k))
  (at level 61, right associativity) : py_scope.
Local Open Scope py_scope.

Definition lift {A} (r : result A) : M A :=
  match r with
  | inl e => raise e
  | inr a => ret a
  end.

(** Reading the DataFrame an object reference points to. *)
Definition read_df (l : loc) : M DataFrame :=
  fun w =>
    match nth_error (frames w) l with
    | Some d => (inr d, w)
    | None => (inl SystemError, w)
    end.

Fixpoint list_set {A} (l : list A) (i : nat) (a : A) : list A :=
  match l, i with
  | [], _ => []
  | _ :: t, O => a :: t
  | h :: t, S j => h :: list_set t j a
  end.

Definition write_df (l : loc) (d : DataFrame) : M unit :=
  fun w => (inr tt, mkWorld (list_set (frames w) l d) (geos w)).

Definition alloc_df (d : DataFrame) : M loc :=
  fun w => (inr (length (frames w)), mkWorld (frames w ++ [d]) (geos w)).

Definition read_geo (l : loc) : M GeoJSON :=
  fun w =>
    match nth_error (geos w) l with
    | Some g => (inr g, w)
    | None => (inl SystemError, w)
    end.

Definition write_geo (l : loc) (g : GeoJSON) : M unit :=
  fun w => (inr tt, mkWorld (frames w) (list_set (geos w) l g)).

Definition alloc_geo (g : GeoJSON) : M loc :=
  fun w => (inr (length (geos w)), mkWorld (frames w) (geos w ++ [g])).

(** [df.copy()] *)
Definition copy (df : loc) : M loc :=
  d <- read_df df ;; alloc_df d.

(** [c in df.columns] *)
Definition has_column (df : loc) (c : string) : M bool :=
  d <- read_df df ;; ret (df_has d c).

(** [df.columns] *)
Definition columns (df : loc) : M (list string) :=
  d <- read_df df ;; ret (df_columns d).

(** [df[c]]: a missing column is a [KeyError] naming it. *)
Definition getitem (df : loc) (c : string) : M Series :=
  d <- read_df df ;;
  match df_col d c with
  | Some s => ret s
  | None => raise (KeyError c [c])
  end.

(** [df.get(c)]: [None] for a missing column. *)
Definition get (df : loc) (c : string) : M (option Series) :=
  d <- read_df df ;; ret (df_col d c).

(** [df[c] = series], in place. *)
Definition setitem (df : loc) (c : string) (s : Series) : M unit :=
  d <- read_df df ;;
  if Nat.eqb (length s) (nrows d)
  then write_df df (df_with d c s)
  else raise (ValueError "Length of values does not match length of index").

(** [df[c] = scalar], in place: the scalar is broadcast to every row. *)
Definition setitem_scalar (df : loc) (c : string) (v : cell) : M unit :=
  d <- read_df df ;;
  write_df df (df_with d c (repeat v (nrows d))).

(** [mapM] over a list in the exception monad of cell-wise operations. *)
Fixpoint traverse {A B} (f : A -> result B) (l : list A) : result (list B) :=
  match l with
  | [] => inr []
  | a :: t =>
      match f a with
      | inl e => inl e
      | inr b =>
          match traverse f t with
          | inl e => inl e
          | inr bs => inr (b :: bs)
          end
      end
  end.

(** ** Decimal literals

    A parser for signed decimal integer literals, the common part of what
    [pd.to_numeric] and Python's [int] accept; it instantiates the two
    parsers the development is parameterised by. *)

Definition digit_of (a : Ascii.ascii) : option Z :=
  let n := Z.of_nat (Ascii.nat_of_ascii a) in
  if (48 <=? n) && (n <=? 57) then Some (n - 48) else None.

Fixpoint digits (s : string) (acc : Z) : option Z :=
  match s with
  | EmptyString => Some acc
  | String a rest =>
      match digit_of a with
      | Some k => digits rest (10 * acc + k)
      | None => None
      end
  end.

Definition decimal_literal (s : string) : option Z :=
  match s with
  | EmptyString => None
  | String a rest =>
      if Ascii.eqb a "-"%char
      then match rest with
           | EmptyString => None
           | _ => option_map Z.opp (digits rest 0)
           end
      else digits s 0
  end.

Definition parse_decimal (s : string) : option num :=
  option_map Int (decimal_literal s).

(** [series.fillna(None)] under pandas 1.x and 2.x. *)
Definition fillna_none_raises (s : Series) : result Series :=
  inl (ValueError "Must specify a fill 'value' or 'method'.").

(** ** pandas primitives on Series *)

Section Pipeline.

(** The text parser of [pd.to_numeric]: [None] when the text is not a
    number (the value is then coerced to NaN). *)
Variable parse_number : string -> option num.

(** Python's [int(s)] on a string: [None] when it raises [ValueError]. *)
Variable int_of_string : string -> option Z.

(** [series.fillna(None)]: the call [map_province_names] makes when the
    table has no [name_col].  What it does is up to the pandas installed
    (the repository pins no version); 1.x and 2.x raise [ValueError]. *)
Variable fillna_none : Series -> result Series.

(** [pd.to_numeric(s, errors="coerce")] on one value; [None] is NaN. *)
Definition to_numeric1 (c : cell) : option num :=
  match c with
  | CNum n => Some n
  | CNaN | CNone => None
  | CStr s => parse_number s
  | CBool b => Some (Int (b2z b))
  end.

Definition to_numeric (s : Series) : list (option num) := map to_numeric1 s.

(** [.fillna(v)] on a numeric array *)
Definition fillna_num (v : num) (x : option num) : num :=
  match x with Some n => n | None => v end.

(** [.fillna(v)] on the cells of a column *)
Definition fillna (v : cell) (c : cell) : cell := if isna c then v else c.

(** [.astype(int)] on one number of a float or integer array *)
Definition astype_int (n : num) : result Z :=
  match n with
  | Int z => inr z
  | Flt q => inr (Qtrunc q)
  | Inf _ => inl (ValueError "Cannot convert non-finite values (NA or inf) to integer")
  end.

(** [.astype("Int64")] on one value of a numeric array: the nullable
    integer type accepts only integer-valued numbers; NaN becomes [<NA>]. *)
Definition astype_Int64 (x : option num) : result (option Z) :=
  match x with
  | None => inr None
  | Some (Int z) => inr (Some z)
  | Some (Flt q) =>
      if Q_is_integer q then inr (Some (Qtrunc q))
      else inl (TypeError "cannot safely cast non-equivalent float64 to int64")
  | Some (Inf _) => inl (TypeError "cannot safely cast non-equivalent float64 to int64")
  end.

Definition of_num (x : option num) : cell :=
  match x with Some n => CNum n | None => CNaN end.

(** [series >= bound] and [series <= bound] on one cell, with an integer
    bound.  A missing value compares false; text against a number is a
    [TypeError]. *)
Definition cell_ge (bound : Z) (c : cell) : result bool :=
  match c with
  | CNum n => inr (num_leb (Int bound) n)
  | CNaN | CNone => inr false
  | CBool b => inr (bound <=? b2z b)
  | CStr _ => inl (TypeError "'>=' not supported between instances of 'str' and 'int'")
  end.

Definition cell_le (bound : Z) (c : cell) : result bool :=
  match c with
  | CNum n => inr (num_leb n (Int bound))
  | CNaN | CNone => inr false
  | CBool b => inr (b2z b <=? bound)
  | CStr _ => inl (TypeError "'<=' not supported between instances of 'str' and 'int'")
  end.

(** [mask1 & mask2] on boolean arrays of one length *)
Fixpoint mask_and (a b : list bool) : list bool :=
  match a, b with
  | x :: a', y :: b' => (x && y) :: mask_and a' b'
  | _, _ => []
  end.

(** [series.between(lower, upper, inclusive="both")], which pandas
    computes as [(series >= lower) & (series <= upper)]. *)
Definition between (s : Series) (lower upper : Z) : result (list bool) :=
  match traverse (cell_ge lower) s with
  | inl e => inl e
  | inr lmask =>
      match traverse (cell_le upper) s with
      | inl e => inl e
      | inr rmask => inr (mask_and lmask rmask)
      end
  end.

(** ** cleaning.py *)

Definition DEFAULT_COLUMNS : list string :=
  [ "anio"; "idpeligro"; "idprovincia"; "provincia";
    "numeromediospersonal"; "numeromediospesados"; "numeromediosaereos";
    "perdidassuperficiales"; "idcausa" ].

(** [df[present]]: a new frame holding the listed columns, in the order
    of the list. *)
Definition df_take (d : DataFrame) (present : list string) : DataFrame :=
  mkDF (nrows d)
       (flat_map (fun c => match df_col d c with
                           | Some s => [(c, s)]
                           | None => []
                           end) present).

Definition select_columns (df : loc) (columns : option (list string)) : M loc :=
  let cols := match columns with Some l => l | None => DEFAULT_COLUMNS end in
  d <- read_df df ;;
  let present := filter (df_has d) cols in
  sel <- alloc_df (df_take d present) ;;
  copy sel.

Definition flag_intentional (df : loc) (causa_col out_col : string)
    (lower upper : Z) : M loc :=
  out <- copy df ;;
  has <- has_column out causa_col ;;
  (if has
   then
     s <- getitem out causa_col ;;
     mask <- lift (between s lower upper) ;;
     setitem out out_col (map CBool mask)
   else
     setitem_scalar out out_col (CBool false)) ;;;
  ret out.

(** [pd.to_numeric(s, errors="coerce").fillna(-1).astype(int)] *)
Definition coerce_id (s : Series) : result Series :=
  traverse (fun c =>
              match astype_int (fillna_num (Int (-1)) (to_numeric1 c)) with
              | inl e => inl e
              | inr z => inr (CNum (Int z))
              end) s.

(** [pd.to_numeric(s, errors="coerce").fillna(0)] *)
Definition coerce_resource (s : Series) : Series :=
  map (fun c => CNum (fillna_num (Int 0) (to_numeric1 c))) s.

(** The body of the [for col in (...)] loop of [coerce_types]. *)
Fixpoint coerce_resources (out : loc) (names : list string) : M unit :=
  match names with
  | [] => ret tt
  | col :: rest =>
      has <- has_column out col ;;
      (if has
       then s <- getitem out col ;; setitem out col (coerce_resource s)
       else ret tt) ;;;
      coerce_resources out rest
  end.

Definition coerce_types (df : loc) : M loc :=
  out <- copy df ;;
  has1 <- has_column out "idpeligro" ;;
  (if has1
   then
     s <- getitem out "idpeligro" ;;
     s' <- lift (coerce_id s) ;;
     setitem out "idpeligro" s'
   else ret tt) ;;;
  has2 <- has_column out "idprovincia" ;;
  (if has2
   then
     s <- getitem out "idprovincia" ;;
     s' <- lift (coerce_id s) ;;
     setitem out "idprovincia" s'
   else ret tt) ;;;
  has3 <- has_column out "perdidassuperficiales" ;;
  (if has3
   then
     s <- getitem out "perdidassuperficiales" ;;
     setitem out "perdidassuperficiales" (map of_num (to_numeric s))
   else ret tt) ;;;
  coerce_resources out
    ["numeromediospersonal"; "numeromediospesados"; "numeromediosaereos"] ;;;
  ret out.

Definition add_hectareas_alias (df : loc) (source target : string) : M loc :=
  out <- copy df ;;
  has <- has_column out source ;;
  (if has
   then
     s <- getitem out source ;;
     setitem out target (map (fillna (CNum (Int 0))) s)
   else
     setitem_scalar out target (CNum (Int 0))) ;;;
  ret out.

Definition prepare_wildfires (df_raw : loc) (columns : option (list string)) : M loc :=
  df <- select_columns df_raw columns ;;
  df <- flag_intentional df "idcausa" "intencionado" 400 499 ;;
  df <- coerce_types df ;;
  df <- add_hectareas_alias df "perdidassuperficiales" "hectareas_quemadas" ;;
  ret df.


(** ** geo.py *)

(** A plain value stored into a DataFrame cell. *)
Definition cell_of_json (j : json) : cell :=
  match j with
  | JNull => CNone
  | JNum n => CNum n
  | JStr s => CStr s
  | JBool b => CBool b
  end.

(** A value read out of a DataFrame row: a scalar, or a Series or
    DataFrame when the labels that select it are not unique. *)
Inductive picked : Type :=
| Scalar (c : cell)
| NonScalar.

Definition _to_jsonable (value : picked) : result json :=
  match value with
  | NonScalar =>
      (* [if pd.isna(value)] on a Series *)
      inl (ValueError "The truth value of a Series is ambiguous")
  | Scalar c =>
      if isna c then inr JNull
      else match c with
           | CNum n => inr (JNum n)
           | CStr s => inr (JStr s)
           | CBool b => inr (JBool b)
           | CNaN | CNone => inr JNull
           end
  end.

(** Python's [int(x)] on a plain value. *)
Definition py_int (j : json) : result Z :=
  match j with
  | JNum (Int z) => inr z
  | JNum (Flt q) => inr (Qtrunc q)
  | JNum (Inf _) => inl (OverflowError "cannot convert float infinity to integer")
  | JBool b => inr (b2z b)
  | JStr s =>
      match int_of_string s with
      | Some z => inr z
      | None => inl (ValueError "invalid literal for int() with base 10")
      end
  | JNull => inl (TypeError "int() argument must be a string, a bytes-like object or a real number, not 'NoneType'")
  end.

Definition provinces_map : Type := list (Z * json).

(** The entries of the property bag of a feature; none when the bag is
    missing or null. *)
Definition feat_props (f : Feature) : props :=
  match properties f with Bag p => p | NoBag | NullBag => [] end.

(** [feat.get("properties", {})] is [None]: the member is there and null. *)
Definition null_bag (f : Feature) : bool :=
  match properties f with NullBag => true | _ => false end.

(** [key in None] *)
Definition none_not_iterable : exn :=
  TypeError "argument of type 'NoneType' is not iterable".

(** [None.get(key)] *)
Definition none_has_no_get : exn :=
  AttributeError "'NoneType' object has no attribute 'get'".

(** The dictionary comprehension of [build_provinces_map], feature by
    feature, on the dictionary built so far. *)
Fixpoint build_from (feats : list Feature) (code_key name_key : string)
    (acc : provinces_map) : result provinces_map :=
  match feats with
  | [] => inr acc
  | feat :: rest =>
      if null_bag feat then inl none_not_iterable
      else if assoc_mem String.eqb code_key (feat_props feat)
              && assoc_mem String.eqb name_key (feat_props feat)
      then
        match assoc_get String.eqb code_key (feat_props feat),
              assoc_get String.eqb name_key (feat_props feat) with
        | Some c, Some n =>
            match py_int c with
            | inl e => inl e
            | inr k => build_from rest code_key name_key (assoc_set Z.eqb k n acc)
            end
        | _, _ => inl SystemError
        end
      else build_from rest code_key name_key acc
  end.

Definition geo_features (g : GeoJSON) : list Feature :=
  match features g with Some l => l | None => [] end.

Definition build_provinces_map (geojson : loc) (code_key name_key : string)
    : M provinces_map :=
  g <- read_geo geojson ;;
  lift (build_from (geo_features g) code_key name_key []).

(** [pd.to_numeric(s, errors="coerce").astype("Int64").fillna(-1).astype(int)] *)
Definition coerce_code (c : cell) : result Z :=
  match astype_Int64 (to_numeric1 c) with
  | inl e => inl e
  | inr (Some z) => inr z
  | inr None => inr (-1)
  end.

(** [series.map(provinces_map)] on one cell of an integer column: a key
    that the dictionary lacks gives NaN. *)
Definition map_dict (pm : provinces_map) (c : cell) : cell :=
  match c with
  | CNum (Int z) =>
      match assoc_get Z.eqb z pm with
      | Some j => cell_of_json j
      | None => CNaN
      end
  | _ => CNaN
  end.

(** [series.fillna(other)] with a Series argument on the same index. *)
Fixpoint fillna_from (s other : Series) : Series :=
  match s, other with
  | c :: s', o :: other' => (if isna c then o else c) :: fillna_from s' other'
  | _, _ => s
  end.

(** [series.fillna(value)] where [value] is what [df.get] returned. *)
Definition fillna_get (s : Series) (value : option Series) : result Series :=
  match value with
  | Some other => inr (fillna_from s other)
  | None => fillna_none s
  end.

Definition map_province_names (df : loc) (pm : provinces_map)
    (id_col name_col : string) : M loc :=
  out <- copy df ;;
  has <- has_column out id_col ;;
  (if has
   then
     s <- getitem out id_col ;;
     ids <- lift (traverse coerce_code s) ;;
     setitem out id_col (map (fun z => CNum (Int z)) ids) ;;;
     idc <- getitem out id_col ;;
     prev <- get out name_col ;;
     names <- lift (fillna_get (map (map_dict pm) idc) prev) ;;
     setitem out name_col names
   else ret tt) ;;;
  ret out.

(** Equality of a property value with a label of the index, as
    [key in lookup.index] and [lookup.loc[key]] decide it. *)
Definition json_cell_eqb (key : json) (c : cell) : bool :=
  match key, c with
  | JStr a, CStr b => String.eqb a b
  | JNum n, CNum m => num_eqb n m
  | JBool a, CBool b => Bool.eqb a b
  | JNull, CNone => true
  | _, _ => false
  end.

(** The positions of the index whose label equals [key], from position [i]. *)
Fixpoint matching_rows (key : json) (index : Series) (i : nat) : list nat :=
  match index with
  | [] => []
  | c :: rest =>
      if json_cell_eqb key c
      then i :: matching_rows key rest (S i)
      else matching_rows key rest (S i)
  end.

(** [df.set_index(df_key)], possibly followed by [[cols_to_copy]]. *)
Record Lookup : Type := mkLookup {
  lk_index : Series;
  lk_cols : list (string * Series)
}.

Definition set_index (d : DataFrame) (df_key : string) : result Lookup :=
  match df_col d df_key with
  | Some idx =>
      inr (mkLookup idx
             (filter (fun p => negb (String.eqb (fst p) df_key)) (cols d)))
  | None => inl (KeyError "None of the keys are in the columns" [df_key])
  end.

(** [lookup[names]]: for each requested label, every column that carries
    it. *)
Definition lookup_take (lk : Lookup) (names : list string) : Lookup :=
  mkLookup (lk_index lk)
    (flat_map (fun c => filter (fun p => String.eqb (fst p) c) (lk_cols lk))
              names).

(** [lookup.loc[key][col]]: a scalar when one row and one column carry
    the labels, a Series or DataFrame otherwise. *)
Definition pick (lk : Lookup) (rows : list nat) (col : string) : picked :=
  match rows, filter (fun p => String.eqb (fst p) col) (lk_cols lk) with
  | [i], [(_, s)] =>
      match nth_error s i with
      | Some c => Scalar c
      | None => Scalar CNaN
      end
  | _, _ => NonScalar
  end.

(** [for col in cols_to_copy: props[col] = _to_jsonable(row[col])], on the
    property bag [p]; the bag keeps what was written before an exception. *)
Fixpoint copy_cols (lk : Lookup) (rows : list nat) (cols_to_copy : list string)
    (p : props) : option exn * props :=
  match cols_to_copy with
  | [] => (None, p)
  | col :: rest =>
      match _to_jsonable (pick lk rows col) with
      | inl e => (Some e, p)
      | inr v => copy_cols lk rows rest (assoc_set String.eqb col v p)
      end
  end.

(** [for col in cols_to_copy: props[col] = None] *)
Fixpoint null_cols (cols_to_copy : list string) (p : props) : props :=
  match cols_to_copy with
  | [] => p
  | col :: rest => null_cols rest (assoc_set String.eqb col JNull p)
  end.

(** One iteration of the loop over the features. *)
Definition enrich_feature (lk : Lookup) (cols_to_copy : list string)
    (geo_name_field : string) (feature : Feature) : option exn * Feature :=
  if null_bag feature
  then (* [setdefault] returns the null that is there; [props.get] raises *)
    (Some none_has_no_get, feature)
  else
    let p := feat_props feature in      (* feature.setdefault("properties", {}) *)
    let key := match assoc_get String.eqb geo_name_field p with
               | Some v => v
               | None => JNull
               end in
    match matching_rows key (lk_index lk) 0 with
    | [] => (None, mkFeature (Bag (null_cols cols_to_copy p)) (geometry feature))
    | rows =>
        let (e, p') := copy_cols lk rows cols_to_copy p in
        (e, mkFeature (Bag p') (geometry feature))
    end.

Fixpoint enrich_features (lk : Lookup) (cols_to_copy : list string)
    (geo_name_field : string) (fs : list Feature) : option exn * list Feature :=
  match fs with
  | [] => (None, [])
  | f :: rest =>
      match enrich_feature lk cols_to_copy geo_name_field f with
      | (Some e, f') => (Some e, f' :: rest)
      | (None, f') =>
          let (e, rest') := enrich_features lk cols_to_copy geo_name_field rest in
          (e, f' :: rest')
      end
  end.

Definition enrich_geojson_with_dataframe (df geojson : loc)
    (geo_name_field df_key : string) (columns : option (list string))
    (deepcopy_geo : bool) : M loc :=
  gj <- (if deepcopy_geo
         then g <- read_geo geojson ;; alloc_geo g
         else ret geojson) ;;
  d <- read_df df ;;
  let cols_to_copy :=
    match columns with
    | None => filter (fun c => negb (String.eqb c df_key)) (df_columns d)
    | Some cs =>
        filter (fun c => df_has d c && negb (String.eqb c df_key)) cs
    end in
  lk <- lift (set_index d df_key) ;;
  let lookup := match cols_to_copy with
                | [] => lk
                | _ => lookup_take lk cols_to_copy
                end in
  g <- read_geo gj ;;
  match features g with
  | None => ret gj
  | Some fs =>
      let (e, fs') := enrich_features lookup cols_to_copy geo_name_field fs in
      write_geo gj (mkGeo (Some fs')) ;;;
      match e with
      | Some err => raise err
      | None => ret gj
      end
  end.

(** ** Row selection, grouping and sorting *)

(** The rows at the given positions, in that order: [df.iloc[idx]]. *)
Definition take_rows (s : Series) (idx : list nat) : Series :=
  map (fun i => nth i s CNaN) idx.

Definition df_rows (d : DataFrame) (idx : list nat) : DataFrame :=
  mkDF (length idx) (map (fun p => (fst p, take_rows (snd p) idx)) (cols d)).

(** The positions at which a boolean mask is true, from position [i]. *)
Fixpoint mask_rows (mask : list bool) (i : nat) : list nat :=
  match mask with
  | [] => []
  | b :: rest => if b then i :: mask_rows rest (S i) else mask_rows rest (S i)
  end.

(** Group labels: booleans, then numbers, then text, as pandas orders a
    mixed object column; missing labels never form a group. *)
Definition cell_rank (c : cell) : Z :=
  match c with
  | CBool _ => 0
  | CNum _ => 1
  | CStr _ => 2
  | CNaN | CNone => 3
  end.

Definition cell_leb (a b : cell) : bool :=
  match a, b with
  | CBool x, CBool y => implb x y
  | CNum x, CNum y => num_leb x y
  | CStr x, CStr y => String.leb x y
  | _, _ => cell_rank a <=? cell_rank b
  end.

Definition cell_eqb (a b : cell) : bool :=
  match a, b with
  | CBool x, CBool y => Bool.eqb x y
  | CNum x, CNum y => num_eqb x y
  | CStr x, CStr y => String.eqb x y
  | _, _ => false
  end.

Section Sorting.
Variables (A : Type) (leb : A -> A -> bool).

(** A stable insertion sort.  pandas sorts with an unstable algorithm,
    so the order of equal elements is not part of the model's claims. *)
Fixpoint insert_sorted (x : A) (l : list A) : list A :=
  match l with
  | [] => [x]
  | y :: t => if leb x y then x :: y :: t else y :: insert_sorted x t
  end.

Fixpoint isort (l : list A) : list A :=
  match l with
  | [] => []
  | x :: t => insert_sorted x (isort t)
  end.
End Sorting.

(** The distinct non-missing labels of a column, in order of appearance. *)
Fixpoint distinct (s : Series) (seen : list cell) : list cell :=
  match s with
  | [] => []
  | c :: rest =>
      if isna c || existsb (cell_eqb c) seen
      then distinct rest seen
      else c :: distinct rest (c :: seen)
  end.

Definition group_keys (s : Series) : list cell := isort cell_leb (distinct s []).

(** The positions of the rows carrying label [k], from position [i]. *)
Fixpoint group_rows (k : cell) (s : Series) (i : nat) : list nat :=
  match s with
  | [] => []
  | c :: rest =>
      if cell_eqb c k then i :: group_rows k rest (S i)
      else group_rows k rest (S i)
  end.

(** Adding one cell to a running sum ([skipna]: missing cells are
    skipped).  Text in a summed column is rejected by the model: pandas
    concatenates an all-text column and raises on a mix. *)
Definition sum_step (acc : option num) (c : cell) : result (option num) :=
  match c with
  | CNaN | CNone => inr acc
  | CStr _ => inl (TypeError "unsupported operand type(s) for +")
  | CBool b =>
      match acc with
      | None => inr None
      | Some a => inr (num_add a (Int (b2z b)))
      end
  | CNum n =>
      match acc with
      | None => inr None
      | Some a => inr (num_add a n)
      end
  end.

Fixpoint sum_from (acc : option num) (s : Series) : result (option num) :=
  match s with
  | [] => inr acc
  | c :: rest =>
      match sum_step acc c with
      | inl e => inl e
      | inr acc' => sum_from acc' rest
      end
  end.

(** [series.sum()] of one group; the empty sum is 0. *)
Definition sum_cells (s : Series) : result cell :=
  match sum_from (Some (Int 0)) s with
  | inl e => inl e
  | inr x => inr (of_num x)
  end.

(** One summed output column: the sum of [s] over each group. *)
Definition sum_groups (keycol : Series) (keys : list cell) (s : Series)
    : result Series :=
  traverse (fun k => sum_cells (take_rows s (group_rows k keycol 0))) keys.

(** The output columns [(output name, input column)] of a grouped sum. *)
Fixpoint sum_columns (d : DataFrame) (keycol : Series) (keys : list cell)
    (specs : list (string * string)) : result (list (string * Series)) :=
  match specs with
  | [] => inr []
  | (out_name, in_name) :: rest =>
      match df_col d in_name with
      | None => inl (KeyError in_name [in_name])
      | Some s =>
          match sum_groups keycol keys s with
          | inl e => inl e
          | inr col =>
              match sum_columns d keycol keys rest with
              | inl e => inl e
              | inr cs => inr ((out_name, col) :: cs)
              end
          end
      end
  end.

(** [df.groupby(key)[...].sum().reset_index()] and the named-aggregation
    form [df.groupby(key).agg(out=(in, "sum"), ...).reset_index()]: one row
    per distinct label of [key], labels sorted. *)
Definition groupby_sum (d : DataFrame) (key : string)
    (specs : list (string * string)) : result DataFrame :=
  match df_col d key with
  | None => inl (KeyError key [key])
  | Some keycol =>
      let keys := group_keys keycol in
      match sum_columns d keycol keys specs with
      | inl e => inl e
      | inr cs =>
          if str_mem key (map fst specs)
          then inl (ValueError "cannot insert column, already exists")
          else inr (mkDF (length keys) ((key, keys) :: cs))
      end
  end.

(** [a + b] on two cells of numeric columns; a missing operand gives a
    missing result. *)
Definition cell_add (a b : cell) : result cell :=
  match a, b with
  | CStr x, CStr y => inr (CStr (x ++ y)%string)
  | CStr _, _ | _, CStr _ => inl (TypeError "unsupported operand type(s) for +")
  | (CNaN | CNone), _ | _, (CNaN | CNone) => inr CNaN
  | CNum x, CNum y => inr (of_num (num_add x y))
  | CNum x, CBool y => inr (of_num (num_add x (Int (b2z y))))
  | CBool x, CNum y => inr (of_num (num_add (Int (b2z x)) y))
  | CBool x, CBool y => inr (CNum (Int (b2z x + b2z y)))
  end.

Fixpoint series_add (a b : Series) : result Series :=
  match a, b with
  | x :: a', y :: b' =>
      match cell_add x y with
      | inl e => inl e
      | inr c =>
          match series_add a' b' with
          | inl e => inl e
          | inr cs => inr (c :: cs)
          end
      end
  | _, _ => inr []
  end.

(** [df.rename(columns={old: new})] *)
Definition df_rename (d : DataFrame) (old new : string) : DataFrame :=
  mkDF (nrows d)
       (map (fun p => (if String.eqb (fst p) old then new else fst p, snd p))
            (cols d)).

(** The order [sort_values] puts the rows in: rows with a value first,
    sorted, then the rows whose value is missing. *)
Definition argsort (s : Series) (ascending : bool) : list nat :=
  let indexed := combine s (seq 0 (length s)) in
  let present := filter (fun p => negb (isna (fst p))) indexed in
  let missing := filter (fun p => isna (fst p)) indexed in
  let leb := fun p q : cell * nat =>
               if ascending then cell_leb (fst p) (fst q)
               else cell_leb (fst q) (fst p) in
  map snd (isort leb present ++ missing).

Definition sort_values (d : DataFrame) (by_col : string) (ascending : bool)
    : result DataFrame :=
  match df_col d by_col with
  | None => inl (KeyError by_col [by_col])
  | Some s => inr (df_rows d (argsort s ascending))
  end.

(** [df.head(n)]: the first [n] rows; all but the last [-n] for a
    negative [n]. *)
Definition head (d : DataFrame) (n : Z) : DataFrame :=
  let k := if 0 <=? n then Z.to_nat n else (nrows d - Z.to_nat (- n))%nat in
  df_rows d (seq 0 (Nat.min k (nrows d))).

(** ** aggregates.py *)

Definition RESOURCE_COLUMNS : list string :=
  [ "numeromediospersonal"; "numeromediospesados"; "numeromediosaereos" ].

(** [[c for c in names if c not in df.columns]] *)
Definition missing_columns (d : DataFrame) (names : list string) : list string :=
  filter (fun c => negb (str_mem c (df_columns d))) names.

Definition is_empty {A} (l : list A) : bool :=
  match l with [] => true | _ => false end.

Definition add_total_resources (df : loc) : M loc :=
  out <- copy df ;;
  d <- read_df out ;;
  let missing := missing_columns d RESOURCE_COLUMNS in
  if negb (is_empty missing)
  then raise (KeyError "Faltan columnas de recursos: " missing)
  else
    a <- getitem out "numeromediospersonal" ;;
    b <- getitem out "numeromediospesados" ;;
    ab <- lift (series_add a b) ;;
    c <- getitem out "numeromediosaereos" ;;
    abc <- lift (series_add ab c) ;;
    setitem out "total_medios" abc ;;;
    ret out.

Definition group_by_province_for_map (df : loc) (province_col : string) : M loc :=
  out <- copy df ;;
  has <- has_column out "total_medios" ;;
  out <- (if negb has then add_total_resources out else ret out) ;;
  d <- read_df out ;;
  let missing := missing_columns d RESOURCE_COLUMNS in
  if negb (is_empty missing)
  then raise (KeyError "Faltan columnas de recursos para agregar por provincia: " missing)
  else
    agg <- lift (groupby_sum d province_col
                   [ ("total_medios", "total_medios");
                     ("numeromediospersonal", "numeromediospersonal");
                     ("numeromediospesados", "numeromediospesados");
                     ("numeromediosaereos", "numeromediosaereos") ]) ;;
    alloc_df agg.

Definition aggregate_burned_area_by_year (df : loc)
    (year_col area_col fallback_area_col : string) : M loc :=
  out <- copy df ;;
  d <- read_df out ;;
  let col := if df_has d area_col then area_col else fallback_area_col in
  if negb (df_has d col)
  then raise (KeyError "No se encontró columna de área quemada: "
                       [area_col; fallback_area_col])
  else
    serie <- lift (groupby_sum d year_col [(col, col)]) ;;
    alloc_df (df_rename serie col "hectareas_quemadas").

Definition aggregate_resources_by_year (df : loc) (year_col : string)
    (resource_cols : list string) : M loc :=
  out <- copy df ;;
  d <- read_df out ;;
  let missing := missing_columns d resource_cols in
  if negb (is_empty missing)
  then raise (KeyError "Faltan columnas de recursos para agregar por año: " missing)
  else
    grp <- lift (groupby_sum d year_col (map (fun c => (c, c)) resource_cols)) ;;
    alloc_df grp.

Definition top_provinces_by_burned_area (df : loc) (n : Z)
    (province_col area_col fallback_area_col : string) (ascending : bool) : M loc :=
  out <- copy df ;;
  d <- read_df out ;;
  let col := if df_has d area_col then area_col else fallback_area_col in
  if negb (df_has d col)
  then raise (KeyError "No se encontró columna de área quemada: "
                       [area_col; fallback_area_col])
  else
    agg <- lift (groupby_sum d province_col [(col, col)]) ;;
    let agg := df_rename agg col "hectareas_quemadas" in
    sorted <- lift (sort_values agg "hectareas_quemadas" ascending) ;;
    alloc_df (head sorted n).

(** ** app/spain_wildfires_dashboard.py *)

(** [series == flag] on one cell, with a boolean [flag]. *)
Definition cell_eq_bool (flag : bool) (c : cell) : bool :=
  match c with
  | CBool b => Bool.eqb b flag
  | CNum n => num_eqb n (Int (b2z flag))
  | _ => false
  end.

(** [(df["anio"] >= y0) & (df["anio"] <= y1)] *)
Definition year_mask (df : loc) (y0 y1 : Z) : M (list bool) :=
  a <- getitem df "anio" ;;
  ge <- lift (traverse (cell_ge y0) a) ;;
  a' <- getitem df "anio" ;;
  le <- lift (traverse (cell_le y1) a') ;;
  ret (mask_and ge le).

(** [df[mask]]: a new frame with the rows where the mask is true. *)
Definition select_mask (df : loc) (mask : list bool) : M loc :=
  d <- read_df df ;;
  alloc_df (df_rows d (mask_rows mask 0)).

Definition filter_by_year_and_intent (df : loc) (year_range : Z * Z)
    (show_intentional show_non_intentional : bool) : M loc :=
  let (y0, y1) := year_range in
  mask_year <- year_mask df y0 y1 ;;
  if show_intentional && show_non_intentional
  then select_mask df mask_year
  else if show_intentional
  then
    i <- getitem df "intencionado" ;;
    select_mask df (mask_and mask_year (map (cell_eq_bool true) i))
  else
    i <- getitem df "intencionado" ;;
    select_mask df (mask_and mask_year (map (cell_eq_bool false) i)).

Definition filter_by_year_and_intent_cached (df : loc) (year_range : Z * Z)
    (show_intentional show_non_intentional : bool) : M loc :=
  let (y0, y1) := year_range in
  mask_year <- year_mask df y0 y1 ;;
  if show_intentional && show_non_intentional
  then select_mask df mask_year
  else if show_intentional
  then
    i <- getitem df "intencionado" ;;
    select_mask df (mask_and mask_year (map (cell_eq_bool true) i))
  else
    i <- getitem df "intencionado" ;;
    select_mask df (mask_and mask_year (map (cell_eq_bool false) i)).

(** ** Reference readings used in the statements *)

(** The cause code is present and lies in [[lower, upper]]. *)
Definition code_in_range (lower upper : Z) (c : cell) : Prop :=
  exists n, c = CNum n /\ num_leb (Int lower) n = true /\ num_leb n (Int upper) = true.

Definition is_text (c : cell) : bool :=
  match c with CStr _ => true | _ => false end.

(** The frame after [if c in out.columns: out[c] = f(out[c])]. *)
Definition upd (d : DataFrame) (c : string) (f : Series -> Series) : DataFrame :=
  match df_col d c with
  | Some s => df_with d c (f s)
  | None => d
  end.

(** The integer an identifier cell is coerced to: -1 when the value is
    missing or is not a number, the truncated value otherwise. *)
Definition id_value (c : cell) : Z :=
  match to_numeric1 c with
  | None => -1
  | Some (Int z) => z
  | Some (Flt q) => Qtrunc q
  | Some (Inf _) => 0
  end.

Definition is_infinite (c : cell) : bool :=
  match to_numeric1 c with
  | Some (Inf _) => true
  | _ => false
  end.

(** No value of column [c] is an infinity. *)
Definition finite_column (d : DataFrame) (c : string) : Prop :=
  forall s, df_col d c = Some s -> forallb (fun x => negb (is_infinite x)) s = true.

Definition coerce_id_values (s : Series) : Series :=
  map (fun c => CNum (Int (id_value c))) s.

(** The frame [coerce_types] builds on a copy of [d] when no identifier
    is infinite. *)
Definition coerce_types_frame (d : DataFrame) : DataFrame :=
  fold_left (fun x c => upd x c coerce_resource)
    ["numeromediospersonal"; "numeromediospesados"; "numeromediosaereos"]
    (upd (upd (upd d "idpeligro" coerce_id_values)
              "idprovincia" coerce_id_values)
         "perdidassuperficiales" (fun s => map of_num (to_numeric s))).

(** A cell a burned-area sum accepts: a finite number, a boolean or a
    missing value. *)
Definition area_ok (c : cell) : bool :=
  match c with
  | CNum (Int _) | CNum (Flt _) | CNaN | CNone | CBool _ => true
  | _ => false
  end.

(** The sum of column [s] over the rows whose label in [keycol] is [k]. *)
Definition group_total (keycol s : Series) (k : cell) : cell :=
  match sum_cells (take_rows s (group_rows k keycol 0)) with
  | inr c => c
  | inl _ => CNaN
  end.

(** One row [(label, sum)] per distinct label of [keycol]. *)
Definition group_sum_rows (keycol s : Series) : list (cell * cell) :=
  map (fun k => (k, group_total keycol s k)) (group_keys keycol).

(** [b] comes no later than [a] in descending order of the sums. *)
Definition sum_geb (a b : cell * cell) : Prop := cell_leb (snd b) (snd a) = true.

(** The burned-area column an aggregation sums: the alias
    [hectareas_quemadas] when the table has it, [perdidassuperficiales]
    otherwise. *)
Definition area_column (d : DataFrame) : option Series :=
  match df_col d "hectareas_quemadas" with
  | Some s => Some s
  | None => df_col d "perdidassuperficiales"
  end.

(** The two-column frame holding the rows [(province, burned area)]. *)
Definition top_frame (rows : list (cell * cell)) : DataFrame :=
  mkDF (length rows)
       [ ("provincia", map fst rows); ("hectareas_quemadas", map snd rows) ].

(** A table whose provinces A, B, C and D have burned 100, 50, 75 and 10
    hectares in all. *)
Definition fires_ABCD : DataFrame :=
  mkDF 5
    [ ("provincia", [CStr "A"; CStr "B"; CStr "C"; CStr "A"; CStr "D"]);
      ("hectareas_quemadas",
       [CNum (Int 60); CNum (Int 50); CNum (Int 75); CNum (Int 40); CNum (Int 10)]) ].

(** The frame a call returned, or the exception it raised. *)
Definition result_frame (r : result loc * world) : result DataFrame :=
  match r with
  | (inr l, w') =>
      match nth_error (frames w') l with
      | Some d => inr d
      | None => inl SystemError
      end
  | (inl e, _) => inl e
  end.

(** The year filter alone: [df[(df["anio"] >= y0) & (df["anio"] <= y1)]]. *)
Definition filter_year (df : loc) (y0 y1 : Z) : M loc :=
  mask_year <- year_mask df y0 y1 ;;
  select_mask df mask_year.

(** The intent filter alone: no filter when both switches are on,
    [df[df["intencionado"] == True]] when only the first is,
    [df[df["intencionado"] == False]] otherwise. *)
Definition filter_intent (df : loc) (show_intentional show_non_intentional : bool)
    : M loc :=
  if show_intentional && show_non_intentional
  then ret df
  else
    i <- getitem df "intencionado" ;;
    select_mask df (map (cell_eq_bool show_intentional) i).

(** The two predicates on one row, and their conjunction. *)
Definition in_year (y0 y1 : Z) (year : cell) : bool :=
  match cell_ge y0 year, cell_le y1 year with
  | inr a, inr b => a && b
  | _, _ => false
  end.

Definition intent_shown (show_intentional show_non_intentional : bool)
    (flag : cell) : bool :=
  if show_intentional && show_non_intentional then true
  else cell_eq_bool show_intentional flag.

Definition column_or_empty (d : DataFrame) (c : string) : Series :=
  match df_col d c with Some s => s | None => [] end.

(** The positions of the rows of [d] that satisfy the conjunction. *)
Definition kept_rows (d : DataFrame) (y0 y1 : Z)
    (show_intentional show_non_intentional : bool) : list nat :=
  filter (fun i =>
            in_year y0 y1 (nth i (column_or_empty d "anio") CNaN)
            && intent_shown show_intentional show_non_intentional
                 (nth i (column_or_empty d "intencionado") CNaN))
         (seq 0 (nrows d)).

(** The value of [(df["anio"] >= y0) & (df["anio"] <= y1)] on frame [d]. *)
Definition year_mask_value (d : DataFrame) (y0 y1 : Z) : result (list bool) :=
  match df_col d "anio" with
  | None => inl (KeyError "anio" ["anio"])
  | Some a =>
      match traverse (cell_ge y0) a with
      | inl e => inl e
      | inr ge =>
          match traverse (cell_le y1) a with
          | inl e => inl e
          | inr le => inr (mask_and ge le)
          end
      end
  end.

(** ** Frame conditions *)

(** The postcondition [Q] holds of the outcome of [m] run from [w]. *)
Definition wp {A} (m : M A) (Q : result A -> world -> Prop) (w : world) : Prop :=
  Q (fst (m w)) (snd (m w)).

(** [w'] has every object of [w] unchanged, and possibly more frames. *)
Definition frames_grow (w w' : world) : Prop :=
  (exists ext, frames w' = frames w ++ ext) /\ geos w' = geos w.

(** [w'] has every object of [w] unchanged, and possibly more GeoJSON
    objects. *)
Definition geos_grow (w w' : world) : Prop :=
  frames w' = frames w /\ exists ext, geos w' = geos w ++ ext.

(** A reference to an object allocated after [w]. *)
Definition fresh_df (w : world) (l : loc) : Prop := (length (frames w) <= l)%nat.

Definition fresh_geo (w : world) (l : loc) : Prop := (length (geos w) <= l)%nat.

(** The outcome of a function that only allocates frames: the old
    objects are intact and a returned reference is fresh. *)
Definition returns_fresh (w0 : world) (r : result loc) (w' : world) : Prop :=
  frames_grow w0 w' /\ forall l, r = inr l -> fresh_df w0 l.

(** Every object of [w] is found unchanged in [w']. *)
Definition unchanged (w w' : world) : Prop :=
  (forall l d, nth_error (frames w) l = Some d -> nth_error (frames w') l = Some d)
  /\ (forall l g, nth_error (geos w) l = Some g -> nth_error (geos w') l = Some g).

(** ** Reference readings for the province lookup *)

(** The province code of a cell: -1 for a value that is missing or not a
    number. *)
Definition code_of (c : cell) : Z :=
  match coerce_code c with
  | inr z => z
  | inl _ => -1
  end.

(** The cell is missing, not a number, or an integer-valued number: the
    values the nullable integer type accepts. *)
Definition integral (c : cell) : bool :=
  match coerce_code c with
  | inr _ => true
  | inl _ => false
  end.

(** The name of feature [f] when it has both keys and its code is [z]. *)
Definition carries (f : Feature) (code_key name_key : string) (z : Z) : option json :=
  match assoc_get String.eqb code_key (feat_props f),
        assoc_get String.eqb name_key (feat_props f) with
  | Some c, Some n =>
      match py_int c with
      | inr k => if Z.eqb z k then Some n else None
      | inl _ => None
      end
  | _, _ => None
  end.

(** The name of the last feature of the collection that carries code [z]. *)
Fixpoint last_name (feats : list Feature) (code_key name_key : string) (z : Z)
    : option json :=
  match feats with
  | [] => None
  | f :: rest =>
      match last_name rest code_key name_key z with
      | Some n => Some n
      | None => carries f code_key name_key z
      end
  end.

(** No feature has a null property bag, and every feature that has both
    keys has a code [int()] accepts. *)
Definition codes_convert (feats : list Feature) (code_key name_key : string) : bool :=
  forallb (fun f =>
             negb (null_bag f)
             && match assoc_get String.eqb code_key (feat_props f),
                      assoc_get String.eqb name_key (feat_props f) with
                | Some c, Some _ =>
                    match py_int c with inr _ => true | inl _ => false end
                | _, _ => true
                end) feats.

(** No feature of the list has a null property bag. *)
Definition no_null_bag (fs : list Feature) : bool :=
  forallb (fun f => negb (null_bag f)) fs.

(** ** Reference readings for the enrichment *)

(** The columns [enrich_geojson_with_dataframe] copies. *)
Definition selected_columns (d : DataFrame) (df_key : string)
    (columns : option (list string)) : list string :=
  match columns with
  | None => filter (fun c => negb (String.eqb c df_key)) (df_columns d)
  | Some cs => filter (fun c => df_has d c && negb (String.eqb c df_key)) cs
  end.

(** [props.get(geo_name_field)] on the property bag of a feature. *)
Definition feature_key (f : Feature) (geo_name_field : string) : json :=
  match assoc_get String.eqb geo_name_field (feat_props f) with
  | Some v => v
  | None => JNull
  end.

(** The plain value a scalar cell is converted to. *)
Definition json_of_cell (c : cell) : json :=
  match c with
  | CNum n => JNum n
  | CStr s => JStr s
  | CBool b => JBool b
  | CNaN | CNone => JNull
  end.

(** The value [props[col]] takes for the rows [rows] of the lookup. *)
Definition copied_value (lk : Lookup) (rows : list nat) (col : string) : json :=
  match _to_jsonable (pick lk rows col) with
  | inr v => v
  | inl _ => JNull
  end.

(** The labels of the table are distinct, and no column is selected
    twice. *)
Definition distinct_columns (d : DataFrame) (df_key : string)
    (columns : option (list string)) : Prop :=
  NoDup (df_columns d) /\ NoDup (selected_columns d df_key columns).

(** The lookup frame the loop over the features reads. *)
Definition lookup_of (keys : Series) (d : DataFrame) (df_key : string)
    (cols_to_copy : list string) : Lookup :=
  let lk := mkLookup keys
              (filter (fun p => negb (String.eqb (fst p) df_key)) (cols d)) in
  match cols_to_copy with
  | [] => lk
  | _ => lookup_take lk cols_to_copy
  end.

(** No feature name matches more than one row of the key column. *)
Definition unique_matches (fs : list Feature) (geo_name_field : string)
    (keys : Series) : Prop :=
  forall f, In f fs ->
    (length (matching_rows (feature_key f geo_name_field) keys 0) <= 1)%nat.

Definition ambiguous : exn := ValueError "The truth value of a Series is ambiguous".

(** A table with two rows for province A, and a collection with one
    feature named A. *)
Definition world_dup : world :=
  mkWorld
    [ mkDF 2 [ ("provincia", [CStr "A"; CStr "A"]);
               ("total_medios", [CNum (Int 1); CNum (Int 2)]) ] ]
    [ mkGeo (Some [ mkFeature (Bag [("name", JStr "A")]) "polygon" ]) ].

(** The same table with the key column only. *)
Definition world_dup_keys_only : world :=
  mkWorld
    [ mkDF 2 [ ("provincia", [CStr "A"; CStr "A"]) ] ]
    [ mkGeo (Some [ mkFeature (Bag [("name", JStr "A")]) "polygon" ]) ].

(** ** Sample stores *)

Definition frame_causes : DataFrame :=
  mkDF 3 [ ("idcausa", [CNum (Int 450); CNum (Int 500); CNaN]) ].

Definition frame_text_cause : DataFrame :=
  mkDF 1 [ ("idcausa", [CStr "abc"]) ].

Definition frame_raw : DataFrame :=
  mkDF 2 [ ("idpeligro", [CStr "abc"; CStr "7"]);
           ("idprovincia", [CNum (Int 28); CNaN]);
           ("numeromediospersonal", [CStr "x"; CNum (Int 3)]);
           ("perdidassuperficiales", [CNaN; CNum (Int 5)]) ].

Definition frame_no_aereos : DataFrame :=
  mkDF 1 [ ("anio", [CNum (Int 2020)]);
           ("provincia", [CStr "A"]);
           ("numeromediospersonal", [CNum (Int 2)]);
           ("numeromediospesados", [CNum (Int 1)]) ].

Definition frame_provinces : DataFrame :=
  mkDF 2 [ ("idprovincia", [CNum (Int 1); CNum (Int 9)]);
           ("provincia", [CStr "x"; CStr "y"]) ].

Definition geo_madrid : GeoJSON :=
  mkGeo (Some [ mkFeature (Bag [("cod_prov", JStr "1"); ("name", JStr "Madrid")])
                          "polygon" ]).

(** Two features carry code 1. *)
Definition geo_two_names : GeoJSON :=
  mkGeo (Some [ mkFeature (Bag [("cod_prov", JNum (Int 1)); ("name", JStr "A")])
                          "polygon";
                mkFeature (Bag [("cod_prov", JNum (Int 1)); ("name", JStr "B")])
                          "polygon" ]).

Definition frame_half_code : DataFrame :=
  mkDF 1 [ ("idprovincia", [CNum (Flt (15 # 2))]); ("provincia", [CStr "x"]) ].

Definition frame_totals : DataFrame :=
  mkDF 2 [ ("provincia", [CStr "A"; CStr "C"]);
           ("total_medios", [CNum (Int 5); CNaN]) ].

Definition geo_AB : GeoJSON :=
  mkGeo (Some [ mkFeature (Bag [("name", JStr "A")]) "polygon";
                mkFeature (Bag [("name", JStr "B")]) "polygon" ]).

Definition frame_years : DataFrame :=
  mkDF 3 [ ("anio", [CNum (Int 2019); CNum (Int 2020); CNum (Int 2021)]);
           ("intencionado", [CBool true; CBool true; CBool false]) ].

Definition frame_one_code : DataFrame :=
  mkDF 1 [ ("idprovincia", [CNum (Int 1)]); ("provincia", [CStr "x"]) ].

(** A number that is not an infinity, and the rational it denotes. *)
Definition finite (n : num) : Prop :=
  match n with Inf _ => False | _ => True end.

Definition to_Q (n : num) : Q :=
  match num_Q n with Some q => q | None => 0%Q end.

Definition finite_cell (c : cell) : Prop :=
  match c with CNum n => finite n | _ => False end.

(** ** The rest of the dashboard and the facade *)

(** [df[cols]] with a list of labels: every label must be a column; the
    missing ones are reported in a [KeyError]. *)
Definition getitems (df : loc) (names : list string) : M loc :=
  d <- read_df df ;;
  let missing := missing_columns d names in
  if negb (is_empty missing)
  then raise (KeyError "not in index" missing)
  else alloc_df (df_take d names).

(** [map_aggregation_cached] of the dashboard, and [Incendios.for_map]:
    [group_by_province_for_map(add_total_resources(df))]. *)
Definition map_aggregation_cached (df_filt : loc) : M loc :=
  with_total <- add_total_resources df_filt ;;
  group_by_province_for_map with_total "provincia".

Definition MAP_COLUMNS : list string :=
  [ "provincia"; "total_medios"; "numeromediospersonal";
    "numeromediospesados"; "numeromediosaereos" ].

Definition enrich_geojson_cached (grouped_map_df base_geojson : loc) : M loc :=
  sel <- getitems grouped_map_df MAP_COLUMNS ;;
  enrich_geojson_with_dataframe sel base_geojson "name" "provincia"
    (Some MAP_COLUMNS) true.

Definition yearly_series_cached (df_filt : loc) : M (loc * loc) :=
  area <- aggregate_burned_area_by_year df_filt "anio" "hectareas_quemadas"
            "perdidassuperficiales" ;;
  res <- aggregate_resources_by_year df_filt "anio" RESOURCE_COLUMNS ;;
  ret (area, res).

(** [series.astype(int)] on one cell of a column without missing values:
    text goes through Python's [int]. *)
Definition astype_int_cell (c : cell) : result Z :=
  match c with
  | CNum n => astype_int n
  | CBool b => inr (b2z b)
  | CStr s =>
      match int_of_string s with
      | Some z => inr z
      | None => inl (ValueError "invalid literal for int() with base 10")
      end
  | CNaN | CNone => inl (ValueError "cannot convert float NaN to integer")
  end.

(** [series.unique()]: the values in order of first appearance. *)
Fixpoint unique_Z (l : list Z) (seen : list Z) : list Z :=
  match l with
  | [] => []
  | z :: rest =>
      if existsb (Z.eqb z) seen then unique_Z rest seen
      else z :: unique_Z rest (z :: seen)
  end.

(** [sorted(df["anio"].dropna().astype(int).unique().tolist())] *)
Definition years_of (anio : Series) : result (list Z) :=
  match traverse astype_int_cell (filter (fun c => negb (isna c)) anio) with
  | inl e => inl e
  | inr zs => inr (isort Z.leb (unique_Z zs []))
  end.

(** [df.empty]: no rows or no columns. *)
Definition df_empty (d : DataFrame) : bool :=
  Nat.eqb (nrows d) 0 || is_empty (cols d).

(** The attributes of an [Incendios] object. *)
Record Incendios : Type := mkIncendios {
  inc_df_raw : loc;
  inc_geojson : loc;
  inc_provinces_map : provinces_map;
  inc_df : loc;
  inc_years : list Z;
  inc_min_year : option Z;
  inc_max_year : option Z
}.

(** [Incendios.__init__] from step 2 on: [df_raw] and [geojson] are the
    objects the two readers of [io.py] returned. *)
Definition Incendios_init (df_raw geojson : loc) : M Incendios :=
  df_prepared <- prepare_wildfires df_raw None ;;
  pm <- build_provinces_map geojson "cod_prov" "name" ;;
  df <- map_province_names df_prepared pm "idprovincia" "provincia" ;;
  d <- read_df df ;;
  if df_has d "anio" && negb (df_empty d)
  then
    anio <- getitem df "anio" ;;
    years <- lift (years_of anio) ;;
    ret (mkIncendios df_raw geojson pm df years
           (hd_error years) (hd_error (rev years)))
  else
    ret (mkIncendios df_raw geojson pm df [] None None).

(** [Incendios.for_map], [burned_area_by_year], [resources_by_year] and
    [top_provinces] *)
Definition for_map (self : Incendios) : M loc :=
  with_total <- add_total_resources (inc_df self) ;;
  group_by_province_for_map with_total "provincia".

Definition burned_area_by_year (self : Incendios) : M loc :=
  aggregate_burned_area_by_year (inc_df self) "anio" "hectareas_quemadas"
    "perdidassuperficiales".

Definition resources_by_year (self : Incendios) : M loc :=
  aggregate_resources_by_year (inc_df self) "anio" RESOURCE_COLUMNS.

Definition top_provinces (self : Incendios) (n : Z) : M loc :=
  top_provinces_by_burned_area (inc_df self) n "provincia" "hectareas_quemadas"
    "perdidassuperficiales" false.

(** The year slider of the dashboard: [(min_value, max_value, value)], or
    [None] where the dashboard stops for lack of valid years. *)
Definition year_slider (ds : Incendios) : option (Z * Z * (Z * Z)) :=
  match inc_min_year ds, inc_max_year ds with
  | Some lo, Some hi =>
      let default_end := Z.min (lo + 10) hi in
      Some (lo, hi, (lo, default_end))
  | _, _ => None
  end.

(** ** plots.py *)

Inductive trace_kind : Type := Scatter | Bar.

(** A Plotly trace: the arguments the code passes to [go.Scatter] or
    [go.Bar]. *)
Record Trace : Type := mkTrace {
  tr_kind : trace_kind;
  tr_x : Series;
  tr_y : Series;
  tr_name : string;
  tr_mode : option string;
  tr_orientation : option string;
  tr_hovertemplate : string
}.

(** A Plotly figure: its traces and the layout the code sets. *)
Record Figure : Type := mkFigure {
  fig_data : list Trace;
  fig_title : string;
  fig_barmode : option string;
  fig_xaxis_title : string;
  fig_yaxis_title : string;
  fig_margin : Z * Z * Z * Z;          (* t, l, r, b *)
  fig_tickformat : string * string     (* axis, format *)
}.

(** [title or default]: [None] and the empty string give the default. *)
Definition title_or (title : option string) (default : string) : string :=
  match title with
  | Some (String a rest) => String a rest
  | _ => default
  end.

(** [str(n)] on an integer *)
Definition str_of_int (n : Z) : string :=
  DecimalString.NilZero.string_of_int (Z.to_int n).

Definition line_hectares_by_year (df : loc)
    (year_col area_col fallback_area_col : string) (title : option string)
    : M Figure :=
  d <- read_df df ;;
  let col := if df_has d area_col then area_col else fallback_area_col in
  if negb (df_has d col)
  then raise (KeyError "No se encontró columna de área quemada: "
                       [area_col; fallback_area_col])
  else
    serie <- lift (groupby_sum d year_col [(col, col)]) ;;
    x <- lift (match df_col serie year_col with
               | Some s => inr s
               | None => inl (KeyError year_col [year_col])
               end) ;;
    y <- lift (match df_col serie col with
               | Some s => inr s
               | None => inl (KeyError col [col])
               end) ;;
    ret (mkFigure
           [ mkTrace Scatter x y "Hectáreas quemadas" (Some "lines+markers") None
               "%{y:,.0f} ha<extra></extra>" ]
           (title_or title "Hectáreas quemadas por año (España)")
           None "Año" "Hectáreas" (60, 10, 10, 10) ("y", ",.0f")).

(** The loop [for col in resource_cols: fig.add_trace(go.Bar(...))]. *)
Fixpoint resource_traces (grp : DataFrame) (year_col : string)
    (resource_cols : list string) (rename_map : option (list (string * string)))
    : result (list Trace) :=
  match resource_cols with
  | [] => inr []
  | col :: rest =>
      let name := match rename_map with
                  | Some (_ :: _ as m) =>
                      match assoc_get String.eqb col m with
                      | Some v => v
                      | None => col
                      end
                  | _ => col
                  end in
      match df_col grp year_col with
      | None => inl (KeyError year_col [year_col])
      | Some x =>
          match df_col grp col with
          | None => inl (KeyError col [col])
          | Some y =>
              match resource_traces grp year_col rest rename_map with
              | inl e => inl e
              | inr ts =>
                  inr (mkTrace Bar x y name None None "%{y:,.0f}<extra></extra>" :: ts)
              end
          end
      end
  end.

Definition stacked_resources_by_year (df : loc) (year_col : string)
    (resource_cols : list string) (rename_map : option (list (string * string)))
    (title : option string) : M Figure :=
  d <- read_df df ;;
  let missing := missing_columns d resource_cols in
  if negb (is_empty missing)
  then raise (KeyError "Faltan columnas de recursos: " missing)
  else
    grp <- lift (groupby_sum d year_col (map (fun c => (c, c)) resource_cols)) ;;
    traces <- lift (resource_traces grp year_col resource_cols rename_map) ;;
    ret (mkFigure traces (title_or title "Recursos utilizados por año")
           (Some "stack") "Año" "Cantidad de recursos" (60, 10, 10, 10)
           ("y", ",.0f")).

Definition horizontal_top_provinces (df : loc) (n : Z)
    (province_col area_col fallback_area_col : string) (title : option string)
    : M Figure :=
  d <- read_df df ;;
  let col := if df_has d area_col then area_col else fallback_area_col in
  if negb (df_has d col)
  then raise (KeyError "No se encontró columna de área quemada: "
                       [area_col; fallback_area_col])
  else
    agg <- lift (groupby_sum d province_col [("hectareas_quemadas", col)]) ;;
    sorted <- lift (sort_values agg "hectareas_quemadas" false) ;;
    let top := head sorted n in
    top <- lift (sort_values top "hectareas_quemadas" true) ;;
    x <- lift (match df_col top "hectareas_quemadas" with
               | Some s => inr s
               | None => inl (KeyError "hectareas_quemadas" ["hectareas_quemadas"])
               end) ;;
    y <- lift (match df_col top province_col with
               | Some s => inr s
               | None => inl (KeyError province_col [province_col])
               end) ;;
    ret (mkFigure
           [ mkTrace Bar x y "Hectáreas" None (Some "h")
               "%{x:,.0f} ha<extra></extra>" ]
           (title_or title
              ("Top " ++ str_of_int n ++ " provincias por hectáreas quemadas")%string)
           None "Hectáreas" "Provincia" (60, 10, 10, 10) ("x", ",.0f")).

(** ** Reference readings for the further properties *)

Definition is_int_cell (c : cell) : bool :=
  match c with CNum (Int _) => true | _ => false end.

Definition is_num_cell (c : cell) : bool :=
  match c with CNum _ => true | _ => false end.

(** Column [c] of [d], when present, holds no infinite value. *)
Definition column_finite (d : DataFrame) (c : string) : bool :=
  match df_col d c with
  | Some s => forallb (fun x => negb (is_infinite x)) s
  | None => true
  end.

Definition non_finite : exn :=
  ValueError "Cannot convert non-finite values (NA or inf) to integer".

Definition text_vs_int : exn :=
  TypeError "'>=' not supported between instances of 'str' and 'int'".

(** The table [prepare_wildfires] builds from [d] with the default columns,
    stage by stage. *)
Definition selected (d : DataFrame) : DataFrame :=
  df_take d (filter (df_has d) DEFAULT_COLUMNS).

Definition flagged (d : DataFrame) : DataFrame :=
  df_with (selected d) "intencionado"
    match df_col (selected d) "idcausa" with
    | Some s => map (fun c => CBool (in_year 400 499 c)) s
    | None => repeat (CBool false) (nrows (selected d))
    end.

Definition prepared (d : DataFrame) : DataFrame :=
  let c := coerce_types_frame (flagged d) in
  df_with c "hectareas_quemadas"
    match df_col c "perdidassuperficiales" with
    | Some s => map (fillna (CNum (Int 0))) s
    | None => repeat (CNum (Int 0)) (nrows c)
    end.

(** The value of [out["numeromediospersonal"] + out["numeromediospesados"]
    + out["numeromediosaereos"]] on frame [d], or the exception
    [add_total_resources] raises. *)
Definition total_medios_of (d : DataFrame) : result Series :=
  match df_col d "numeromediospersonal", df_col d "numeromediospesados",
        df_col d "numeromediosaereos" with
  | Some a, Some b, Some c =>
      match series_add a b with
      | inl e => inl e
      | inr ab => series_add ab c
      end
  | _, _, _ =>
      inl (KeyError "Faltan columnas de recursos: "
                    (missing_columns d RESOURCE_COLUMNS))
  end.

(** The frame [group_by_province_for_map] returns on a frame that has
    [total_medios], or the exception it raises. *)
Definition province_aggregate (d : DataFrame) (province_col : string)
    : result DataFrame :=
  if negb (is_empty (missing_columns d RESOURCE_COLUMNS))
  then inl (KeyError "Faltan columnas de recursos para agregar por provincia: "
                     (missing_columns d RESOURCE_COLUMNS))
  else groupby_sum d province_col
         [ ("total_medios", "total_medios");
           ("numeromediospersonal", "numeromediospersonal");
           ("numeromediospesados", "numeromediospesados");
           ("numeromediosaereos", "numeromediosaereos") ].

(** A column of integers. *)
Definition ints (l : list Z) : Series := map (fun z => CNum (Int z)) l.

(** The sum of the integers [l] over the rows whose label is [k]. *)
Definition gsum (keycol : Series) (l : list Z) (k : cell) : Z :=
  fold_right Z.add 0 (map (fun i => nth i l 0) (group_rows k keycol 0)).

(** [l1 + l2], row by row. *)
Fixpoint zip_add (l1 l2 : list Z) : list Z :=
  match l1, l2 with
  | x :: r1, y :: r2 => (x + y) :: zip_add r1 r2
  | _, _ => []
  end.

(** A label that is a finite number or is missing. *)
Definition year_ok (c : cell) : Prop := finite_cell c \/ isna c = true.

(** Strictly before, in the order of the group labels. *)
Definition cell_lt (a b : cell) : Prop :=
  cell_leb a b = true /\ cell_eqb a b = false.

Definition unsafe_cast : exn :=
  TypeError "cannot safely cast non-equivalent float64 to int64".

(** ** Reading of the enrichment loop *)

(** What one pass of the loop may change in a feature. *)
Definition same_but (cols_to_copy : list string) (f f' : Feature) : Prop :=
  geometry f' = geometry f
  /\ forall k, str_mem k cols_to_copy = false ->
       assoc_get String.eqb k (feat_props f') = assoc_get String.eqb k (feat_props f).

(** ** Sample stores for the further properties *)

(** Three fires in two provinces and two years, with their resources. *)
Definition frame_resources : DataFrame :=
  mkDF 3 [ ("anio", [CNum (Int 2020); CNum (Int 2019); CNum (Int 2020)]);
           ("provincia", [CStr "A"; CStr "B"; CStr "A"]);
           ("numeromediospersonal", [CNum (Int 1); CNum (Int 2); CNum (Int 3)]);
           ("numeromediospesados", [CNum (Int 0); CNum (Int 1); CNum (Int 1)]);
           ("numeromediosaereos", [CNum (Int 2); CNum (Int 0); CNum (Int 1)]);
           ("perdidassuperficiales", [CNum (Int 10); CNum (Int 20); CNum (Int 5)]) ].

(** ** Sample stores on which a claim fails as stated *)

(** Province 1 is Madrid; another feature has a code that is no number. *)
Definition geo_bad_code : GeoJSON :=
  mkGeo (Some [ mkFeature (Bag [("cod_prov", JNum (Int 1)); ("name", JStr "Madrid")])
                          "polygon";
                mkFeature (Bag [("cod_prov", JStr "x1"); ("name", JStr "X")])
                          "polygon" ]).

(** Province 1 is Madrid; another feature has a null property bag. *)
Definition geo_null_bag : GeoJSON :=
  mkGeo (Some [ mkFeature (Bag [("cod_prov", JNum (Int 1)); ("name", JStr "Madrid")])
                          "polygon";
                mkFeature NullBag "polygon" ]).

(** The feature of province 1 has a null name. *)
Definition geo_null_name : GeoJSON :=
  mkGeo (Some [ mkFeature (Bag [("cod_prov", JNum (Int 1)); ("name", JNull)])
                          "polygon" ]).

(** The only feature has the code 7.5. *)
Definition geo_half_code : GeoJSON :=
  mkGeo (Some [ mkFeature (Bag [("cod_prov", JNum (Flt (15 # 2)));
                                ("name", JStr "Burgos")]) "polygon" ]).


(** A danger identifier that is no number, and an infinite one. *)
Definition frame_infinite_id : DataFrame :=
  mkDF 2 [ ("idpeligro", [CStr "abc"; CNum (Inf false)]) ].

(** The second row has a year that is text, and is not intentional. *)
Definition frame_text_year : DataFrame :=
  mkDF 2 [ ("anio", [CNum (Int 2020); CStr "x"]);
           ("intencionado", [CBool true; CBool false]) ].

(** ** Grouped sums read off plain data

    The labels of a grouped column, read as optional values ([None] for a
    missing label), and the sum of an integer column over the rows that
    carry one label.  Nothing here goes through the grouping of the
    model: these are the sums and labels the theorems on aggregates
    compare it with. *)

(** The column holding the labels [ks]. *)
Definition olift {K : Type} (inj : K -> cell) (o : option K) : cell :=
  match o with
  | Some a => inj a
  | None => CNaN
  end.

(** A text cell, or a missing one. *)
Definition olabel : option string -> cell := olift CStr.

(** An integer cell, or a missing one. *)
Definition oint : option Z -> cell := olift (fun z => CNum (Int z)).


(** The sum of [vals] over the rows whose label is [k]. *)
Definition sum_where {K : Type} (eqb : K -> K -> bool)
    (keys : list (option K)) (vals : list Z) (k : K) : Z :=
  fold_right Z.add 0
    (map (fun p : option K * Z =>
            match fst p with
            | Some k' => if eqb k' k then snd p else 0
            | None => 0
            end)
         (combine keys vals)).

(** pandas adds 64-bit integers or doubles where the model adds
    integers exactly.  The three agree on every sum of a part of [l] when
    the absolute values of [l] add up to at most 2^53. *)
Definition exact_sums (l : list Z) : Prop :=
  fold_right Z.add 0 (map Z.abs l) <= 2 ^ 53.

(** Strictly before, in the order of Python strings. *)
Definition string_lt (a b : string) : Prop := String.compare a b = Lt.

(** No cell of the column is text. *)
Definition no_text (s : Series) : bool :=
  forallb (fun c => match c with CStr _ => false | _ => true end) s.

(** A table without the year column, and one without the intent flag. *)
Definition frame_no_year : DataFrame :=
  mkDF 1 [ ("intencionado", [CBool true]) ].

Definition frame_no_flag : DataFrame :=
  mkDF 1 [ ("anio", [CNum (Int 2020)]) ].


(** * Properties *)

(** ** The store *)

Lemma nth_error_app_last {A} (l : list A) (a : A) :
  nth_error (l ++ [a]) (length l) = Some a.
Proof. induction l; simpl; auto. Qed.

Lemma nth_error_app_old {A} (l : list A) (a : A) (i : nat) (x : A) :
  nth_error l i = Some x -> nth_error (l ++ [a]) i = Some x.
Proof.
  revert i; induction l; intros [|i]; simpl; intros H; try discriminate; auto.
Qed.

Lemma list_set_app_last {A} (l : list A) (a b : A) :
  list_set (l ++ [a]) (length l) b = l ++ [b].
Proof. induction l; simpl; congruence. Qed.

Lemma assoc_get_set_same {V} (k : string) (v : V) (l : list (string * V)) :
  assoc_get String.eqb k (assoc_set String.eqb k v l) = Some v.
Proof.
  induction l as [|[k' v'] l IH]; simpl.
  - now rewrite String.eqb_refl.
  - destruct (String.eqb k k') eqn:E; simpl; rewrite E; auto.
Qed.

Lemma assoc_get_set_other {V} (k k' : string) (v : V) (l : list (string * V)) :
  k' <> k ->
  assoc_get String.eqb k' (assoc_set String.eqb k v l) = assoc_get String.eqb k' l.
Proof.
  intros N. induction l as [|[k0 v0] l IH]; simpl.
  - destruct (String.eqb_spec k' k); congruence.
  - destruct (String.eqb_spec k k0); simpl.
    + subst. destruct (String.eqb_spec k' k0); congruence.
    + destruct (String.eqb k' k0); auto.
Qed.

Lemma df_col_with_same (d : DataFrame) (c : string) (s : Series) :
  df_col (df_with d c s) c = Some s.
Proof. apply assoc_get_set_same. Qed.

Lemma df_col_with_other (d : DataFrame) (c c' : string) (s : Series) :
  c' <> c -> df_col (df_with d c s) c' = df_col d c'.
Proof. apply assoc_get_set_other. Qed.

Lemma df_has_col (d : DataFrame) (c : string) :
  df_has d c = match df_col d c with Some _ => true | None => false end.
Proof. reflexivity. Qed.

Lemma df_wf_col (d : DataFrame) (c : string) (s : Series) :
  df_wf d -> df_col d c = Some s -> length s = nrows d.
Proof.
  unfold df_wf, df_col. induction (cols d) as [|[k v] l IH]; simpl; intros W H.
  - discriminate.
  - inversion W; subst. destruct (String.eqb c k).
    + now inversion H; subst.
    + auto.
Qed.

Lemma df_wf_with (d : DataFrame) (c : string) (s : Series) :
  df_wf d -> length s = nrows d -> df_wf (df_with d c s).
Proof.
  unfold df_wf, df_with; simpl. intros W L.
  induction (cols d) as [|[k v] l IH]; simpl.
  - constructor; auto.
  - inversion W; subst. destruct (String.eqb c k); constructor; auto.
Qed.

(** ** Running the monad *)

Lemma bind_ok {A B} (m : M A) (f : A -> M B) (w w' : world) (a : A) :
  m w = (inr a, w') -> bind m f w = f a w'.
Proof. unfold bind; intros ->; reflexivity. Qed.

Lemma bind_err {A B} (m : M A) (f : A -> M B) (w w' : world) (e : exn) :
  m w = (inl e, w') -> bind m f w = (inl e, w').
Proof. unfold bind; intros ->; reflexivity. Qed.

Lemma read_df_run (w : world) (l : loc) (d : DataFrame) :
  nth_error (frames w) l = Some d -> read_df l w = (inr d, w).
Proof. unfold read_df; intros ->; reflexivity. Qed.

Lemma copy_run (w : world) (l : loc) (d : DataFrame) :
  nth_error (frames w) l = Some d ->
  copy l w = (inr (length (frames w)), mkWorld (frames w ++ [d]) (geos w)).
Proof.
  intros H. unfold copy. erewrite bind_ok by (apply read_df_run; eauto).
  reflexivity.
Qed.

(** The object a function works on after [out = df.copy()] is the last
    one allocated. *)
Section LastFrame.
Variables (fs : list DataFrame) (g : list GeoJSON) (d : DataFrame).

Let w := mkWorld (fs ++ [d]) g.
Let out := length fs.

Lemma read_df_last : read_df out w = (inr d, w).
Proof. apply read_df_run. apply nth_error_app_last. Qed.

Lemma has_column_last (c : string) :
  has_column out c w = (inr (df_has d c), w).
Proof. unfold has_column. now erewrite bind_ok by apply read_df_last. Qed.

Lemma getitem_last (c : string) (s : Series) :
  df_col d c = Some s -> getitem out c w = (inr s, w).
Proof.
  intros H. unfold getitem. erewrite bind_ok by apply read_df_last. now rewrite H.
Qed.

Lemma getitem_last_missing (c : string) :
  df_col d c = None -> getitem out c w = (inl (KeyError c [c]), w).
Proof.
  intros H. unfold getitem. erewrite bind_ok by apply read_df_last. now rewrite H.
Qed.

Lemma get_last (c : string) : get out c w = (inr (df_col d c), w).
Proof. unfold get. now erewrite bind_ok by apply read_df_last. Qed.

Lemma setitem_last (c : string) (s : Series) :
  length s = nrows d ->
  setitem out c s w = (inr tt, mkWorld (fs ++ [df_with d c s]) g).
Proof.
  intros H. unfold setitem. erewrite bind_ok by apply read_df_last.
  rewrite H, Nat.eqb_refl. unfold write_df, w, out; simpl.
  now rewrite list_set_app_last.
Qed.

Lemma setitem_scalar_last (c : string) (v : cell) :
  setitem_scalar out c v w
  = (inr tt, mkWorld (fs ++ [df_with d c (repeat v (nrows d))]) g).
Proof.
  unfold setitem_scalar. erewrite bind_ok by apply read_df_last.
  unfold write_df, w, out; simpl. now rewrite list_set_app_last.
Qed.
End LastFrame.

Lemma traverse_length {A B} (f : A -> result B) (l : list A) (r : list B) :
  traverse f l = inr r -> length r = length l.
Proof.
  revert r; induction l as [|a l IH]; simpl; intros r H.
  - now inversion H.
  - destruct (f a); try discriminate. destruct (traverse f l); try discriminate.
    inversion H; subst; simpl. f_equal; auto.
Qed.

Lemma traverse_nth {A B} (f : A -> result B) (l : list A) (r : list B) :
  traverse f l = inr r ->
  forall i a, nth_error l i = Some a ->
  exists b, f a = inr b /\ nth_error r i = Some b.
Proof.
  revert r; induction l as [|x l IH]; simpl; intros r H i a Hi.
  - destruct i; discriminate.
  - destruct (f x) eqn:Fx; try discriminate.
    destruct (traverse f l) eqn:T; try discriminate.
    inversion H; subst. destruct i; simpl in *.
    + inversion Hi; subst. eauto.
    + eapply IH; eauto.
Qed.

Lemma traverse_total {A B} (f : A -> result B) (l : list A) :
  Forall (fun a => exists b, f a = inr b) l ->
  exists r, traverse f l = inr r.
Proof.
  induction 1 as [|a l [b Hb] _ [r Hr]]; simpl.
  - eauto.
  - rewrite Hb, Hr. eauto.
Qed.

Lemma traverse_err {A B} (f : A -> result B) (l : list A) (e : exn) :
  traverse f l = inl e -> exists a, In a l /\ f a = inl e.
Proof.
  induction l as [|x l IH]; simpl; intros H; try discriminate.
  destruct (f x) eqn:Fx.
  - inversion H; subst. eauto.
  - destruct (traverse f l); try discriminate.
    inversion H; subst. destruct IH as [a [? ?]]; eauto.
Qed.

Lemma mask_and_length (a b : list bool) :
  length a = length b -> length (mask_and a b) = length a.
Proof.
  revert b; induction a; destruct b; simpl; intros; try discriminate; auto.
Qed.

Lemma mask_and_nth (a b : list bool) (i : nat) (x y : bool) :
  nth_error a i = Some x -> nth_error b i = Some y ->
  nth_error (mask_and a b) i = Some (x && y).
Proof.
  revert b i; induction a; intros [|? b] [|i]; simpl; intros; try discriminate.
  - congruence.
  - auto.
Qed.

(** ** cleaning.py: the intent flag *)

Lemma between_nth (s : Series) (lower upper : Z) (m : list bool) :
  between s lower upper = inr m ->
  length m = length s /\
  forall i c, nth_error s i = Some c ->
    exists b1 b2, cell_ge lower c = inr b1 /\ cell_le upper c = inr b2
                  /\ nth_error m i = Some (b1 && b2).
Proof.
  unfold between. intros H.
  destruct (traverse (cell_ge lower) s) as [|lm] eqn:L; try discriminate.
  destruct (traverse (cell_le upper) s) as [|rm] eqn:R; try discriminate.
  inversion H; subst; clear H.
  pose proof (traverse_length _ _ L) as LL.
  pose proof (traverse_length _ _ R) as LR.
  split.
  - rewrite mask_and_length; congruence.
  - intros i c Hi.
    destruct (traverse_nth _ _ L _ Hi) as [b1 [G1 N1]].
    destruct (traverse_nth _ _ R _ Hi) as [b2 [G2 N2]].
    exists b1, b2. repeat split; auto. now apply mask_and_nth.
Qed.

Lemma between_total (s : Series) (lower upper : Z) :
  forallb (fun c => negb (is_text c)) s = true ->
  exists m, between s lower upper = inr m.
Proof.
  intros H. rewrite forallb_forall in H. unfold between.
  destruct (@traverse_total _ _ (cell_ge lower) s) as [lm ->].
  { apply Forall_forall. intros c Hc. specialize (H c Hc).
    destruct c; simpl in *; try discriminate; eauto. }
  destruct (@traverse_total _ _ (cell_le upper) s) as [rm ->].
  { apply Forall_forall. intros c Hc. specialize (H c Hc).
    destruct c; simpl in *; try discriminate; eauto. }
  eauto.
Qed.

Lemma in_range_default (c : cell) (b1 b2 : bool) :
  cell_ge 400 c = inr b1 -> cell_le 499 c = inr b2 ->
  (b1 && b2 = true <-> code_in_range 400 499 c).
Proof.
  unfold code_in_range. destruct c as [n| | |s|b]; simpl; intros G L;
    inversion G; inversion L; subst; clear G L.
  - rewrite andb_true_iff. split.
    + intros [? ?]. exists n; auto.
    + intros [n' [E [? ?]]]. inversion E; subst; auto.
  - split; [discriminate | intros [n [E _]]; discriminate].
  - split; [discriminate | intros [n [E _]]; discriminate].
  - split.
    + destruct b; simpl; discriminate.
    + intros [n [E _]]; discriminate.
Qed.

(** C1, as amended: on a table whose cause-code column, when present,
    holds no text, [flag_intentional] (bounds 400 and 499) returns a copy
    with one more column of booleans; the flag of a row is true exactly
    when its cause code is a number in [[400, 499]], and when the table has
    no cause-code column the flag is false on every row. *)
Theorem flag_intentional_spec (w : world) (df : loc) (d : DataFrame)
    (causa_col out_col : string) :
  nth_error (frames w) df = Some d ->
  df_wf d ->
  (forall s, df_col d causa_col = Some s ->
             forallb (fun c => negb (is_text c)) s = true) ->
  exists flags,
    flag_intentional df causa_col out_col 400 499 w
    = (inr (length (frames w)),
       mkWorld (frames w ++ [df_with d out_col flags]) (geos w))
    /\ length flags = nrows d
    /\ (forall s, df_col d causa_col = Some s ->
        forall i c, nth_error s i = Some c ->
        exists b, nth_error flags i = Some (CBool b)
                  /\ (b = true <-> code_in_range 400 499 c))
    /\ (df_col d causa_col = None ->
        flags = repeat (CBool false) (nrows d)).
Proof.
  intros Hd W NT. unfold flag_intentional.
  erewrite bind_ok by (apply copy_run; eauto).
  erewrite bind_ok by apply has_column_last.
  rewrite df_has_col. destruct (df_col d causa_col) as [s|] eqn:C.
  - destruct (between_total s 400 499 (NT s eq_refl)) as [m Hm].
    destruct (between_nth _ _ _ Hm) as [Lm Nm].
    pose proof (df_wf_col _ W C) as Ls.
    exists (map CBool m).
    erewrite bind_ok.
    2:{ erewrite bind_ok by (apply getitem_last; eauto).
        rewrite Hm. simpl. erewrite bind_ok by reflexivity.
        apply setitem_last. rewrite length_map. congruence. }
    repeat split.
    + rewrite length_map. congruence.
    + intros s' E i c Hi. inversion E; subst s'.
      destruct (Nm i c Hi) as [b1 [b2 [G [L N]]]].
      exists (b1 && b2). split.
      * rewrite nth_error_map, N. reflexivity.
      * now apply in_range_default.
    + discriminate.
  - exists (repeat (CBool false) (nrows d)).
    erewrite bind_ok by apply setitem_scalar_last.
    repeat split.
    + apply repeat_length.
    + discriminate.
Qed.

(** ** cleaning.py: type coercion *)

Lemma df_col_upd_same (d : DataFrame) (c : string) (f : Series -> Series) :
  df_col (upd d c f) c = option_map f (df_col d c).
Proof.
  unfold upd. destruct (df_col d c) eqn:E; simpl.
  - apply df_col_with_same.
  - now rewrite E.
Qed.

Lemma df_col_upd_other (d : DataFrame) (c c' : string) (f : Series -> Series) :
  c' <> c -> df_col (upd d c f) c' = df_col d c'.
Proof.
  intros N. unfold upd. destruct (df_col d c); auto.
  now apply df_col_with_other.
Qed.

Lemma nrows_upd (d : DataFrame) (c : string) (f : Series -> Series) :
  nrows (upd d c f) = nrows d.
Proof. unfold upd. now destruct (df_col d c). Qed.

Lemma df_wf_upd (d : DataFrame) (c : string) (f : Series -> Series) :
  (forall s, length (f s) = length s) -> df_wf d -> df_wf (upd d c f).
Proof.
  intros L W. unfold upd. destruct (df_col d c) eqn:E; auto.
  apply df_wf_with; auto. rewrite L. eapply df_wf_col; eauto.
Qed.

Section Blocks.
Variables (fs : list DataFrame) (g : list GeoJSON).

(** [if c in out.columns: out[c] = f(out[c])] with a total [f], followed
    by the rest [k] of the function. *)
Lemma block_pure {B} (d : DataFrame) (c : string) (f : Series -> Series)
    (k : unit -> M B) :
  df_wf d -> (forall s, length (f s) = length s) ->
  bind (has_column (length fs) c)
       (fun has => bind (if has
                         then bind (getitem (length fs) c)
                                   (fun s => setitem (length fs) c (f s))
                         else ret tt) k)
       (mkWorld (fs ++ [d]) g)
  = k tt (mkWorld (fs ++ [upd d c f]) g).
Proof.
  intros W L. erewrite bind_ok by apply has_column_last.
  rewrite df_has_col. unfold upd. destruct (df_col d c) as [s|] eqn:E.
  - apply bind_ok. erewrite bind_ok by (apply getitem_last; eauto).
    apply setitem_last. rewrite L. eapply df_wf_col; eauto.
  - reflexivity.
Qed.

(** The same block with an [f] that can raise, where it does not. *)
Lemma block_lift {B} (d : DataFrame) (c : string) (f : Series -> result Series)
    (f' : Series -> Series) (k : unit -> M B) :
  df_wf d -> (forall s, length (f' s) = length s) ->
  (forall s, df_col d c = Some s -> f s = inr (f' s)) ->
  bind (has_column (length fs) c)
       (fun has => bind (if has
                         then bind (getitem (length fs) c)
                                   (fun s => bind (lift (f s))
                                                  (fun s' => setitem (length fs) c s'))
                         else ret tt) k)
       (mkWorld (fs ++ [d]) g)
  = k tt (mkWorld (fs ++ [upd d c f']) g).
Proof.
  intros W L F. erewrite bind_ok by apply has_column_last.
  rewrite df_has_col. unfold upd. destruct (df_col d c) as [s|] eqn:E.
  - apply bind_ok. erewrite bind_ok by (apply getitem_last; eauto).
    rewrite (F s eq_refl). simpl. erewrite bind_ok by reflexivity.
    apply setitem_last. rewrite L. eapply df_wf_col; eauto.
  - reflexivity.
Qed.

Lemma coerce_resources_run (names : list string) (d : DataFrame) :
  df_wf d ->
  coerce_resources (length fs) names (mkWorld (fs ++ [d]) g)
  = (inr tt,
     mkWorld (fs ++ [fold_left (fun x c => upd x c coerce_resource) names d]) g).
Proof.
  revert d; induction names as [|c names IH]; intros d W; simpl.
  - reflexivity.
  - rewrite block_pure; auto; [|intros; apply length_map].
    apply IH. apply df_wf_upd; auto. intros; apply length_map.
Qed.
End Blocks.

Lemma coerce_id_total (s : Series) :
  forallb (fun x => negb (is_infinite x)) s = true ->
  coerce_id s = inr (coerce_id_values s).
Proof.
  unfold coerce_id, coerce_id_values. induction s as [|c s IH]; simpl; intros H.
  - reflexivity.
  - apply andb_true_iff in H. destruct H as [Hc Hs].
    rewrite (IH Hs). unfold is_infinite, id_value in *.
    destruct (to_numeric1 c) as [[z|q|b]|]; simpl in *; try discriminate; auto.
Qed.

(** An identifier column makes [coerce_types] raise only through an
    infinite value, never through a value that is not a number. *)
Lemma coerce_id_raises (s : Series) (e : exn) :
  coerce_id s = inl e -> exists c, In c s /\ is_infinite c = true.
Proof.
  unfold coerce_id. intros H. apply traverse_err in H.
  destruct H as [c [I H]]. exists c; split; auto.
  unfold is_infinite. destruct (to_numeric1 c) as [[z|q|b]|]; simpl in *;
    try discriminate; auto.
Qed.

(** A literal label is not in a list of other literal labels. *)
Ltac not_in :=
  simpl;
  let H := fresh in
  intros H; repeat (destruct H as [H | H]; [discriminate H|]); exact H.

Ltac col_simpl :=
  repeat (rewrite df_col_upd_same
          || (rewrite df_col_upd_other by (intro; discriminate))).

Lemma coerce_types_run (w : world) (df : loc) (d : DataFrame) :
  nth_error (frames w) df = Some d -> df_wf d ->
  finite_column d "idpeligro" -> finite_column d "idprovincia" ->
  coerce_types df w
  = (inr (length (frames w)),
     mkWorld (frames w ++ [coerce_types_frame d]) (geos w)).
Proof.
  intros Hd W F1 F2. unfold coerce_types.
  erewrite bind_ok by (apply copy_run; eauto).
  assert (LI : forall s, length (coerce_id_values s) = length s)
    by (intros; apply length_map).
  assert (LN : forall s, length (map of_num (to_numeric s)) = length s)
    by (intros; unfold to_numeric; now rewrite !length_map).
  rewrite block_lift with (f' := coerce_id_values); auto.
  2:{ intros s E. apply coerce_id_total. now apply F1. }
  rewrite block_lift with (f' := coerce_id_values); auto.
  2:{ now apply df_wf_upd. }
  2:{ intros s E. apply coerce_id_total. apply F2.
      now rewrite df_col_upd_other in E by (intro; discriminate). }
  rewrite block_pure; auto.
  2:{ repeat apply df_wf_upd; auto. }
  erewrite bind_ok.
  2:{ apply coerce_resources_run. repeat apply df_wf_upd; auto. }
  reflexivity.
Qed.

(** C8, as amended: on a table whose identifier columns hold no value
    that is, or parses to, an infinite number, [coerce_types] returns a
    copy in which an identifier ([idpeligro], [idprovincia]) that is
    missing or not a number is -1 and one that parses to an integer is that
    integer, a resource count that is missing or not a number is 0, and a
    missing burned-area value is still missing. *)
Theorem coerce_types_degrades (w : world) (df : loc) (d : DataFrame) :
  nth_error (frames w) df = Some d -> df_wf d ->
  finite_column d "idpeligro" -> finite_column d "idprovincia" ->
  exists d',
    coerce_types df w
    = (inr (length (frames w)), mkWorld (frames w ++ [d']) (geos w))
    /\ (forall col, col = "idpeligro" \/ col = "idprovincia" ->
        forall s, df_col d col = Some s ->
        exists s', df_col d' col = Some s' /\
          forall i c, nth_error s i = Some c ->
            (to_numeric1 c = None -> nth_error s' i = Some (CNum (Int (-1))))
            /\ (forall z, to_numeric1 c = Some (Int z) ->
                          nth_error s' i = Some (CNum (Int z))))
    /\ (forall col, In col RESOURCE_COLUMNS ->
        forall s, df_col d col = Some s ->
        exists s', df_col d' col = Some s' /\
          forall i c, nth_error s i = Some c -> to_numeric1 c = None ->
                      nth_error s' i = Some (CNum (Int 0)))
    /\ (forall s, df_col d "perdidassuperficiales" = Some s ->
        exists s', df_col d' "perdidassuperficiales" = Some s' /\
          forall i c, nth_error s i = Some c -> isna c = true ->
                      nth_error s' i = Some CNaN).
Proof.
  intros Hd W F1 F2. exists (coerce_types_frame d).
  split; [now apply coerce_types_run|].
  unfold coerce_types_frame; simpl fold_left.
  split; [|split].
  - intros col [-> | ->] s E; col_simpl; rewrite E; simpl;
      (eexists; split; [reflexivity|]);
      intros i c Hi; unfold coerce_id_values; rewrite nth_error_map, Hi; simpl;
      unfold id_value; (split; [intros -> | intros z ->]); reflexivity.
  - intros col [<- | [<- | [<- | []]]] s E; col_simpl; rewrite E; simpl;
      (eexists; split; [reflexivity|]);
      intros i c Hi N; unfold coerce_resource; rewrite nth_error_map, Hi; simpl;
      now rewrite N.
  - intros s E. col_simpl. rewrite E; simpl.
    eexists; split; [reflexivity|].
    intros i c Hi N. unfold to_numeric. rewrite !nth_error_map, Hi. simpl.
    destruct c; simpl in *; try discriminate; reflexivity.
Qed.

(** ** aggregates.py: the missing-column errors *)

Lemma str_mem_columns (d : DataFrame) (c : string) :
  str_mem c (df_columns d) = df_has d c.
Proof.
  unfold str_mem, df_columns, df_has, assoc_mem, assoc_keys.
  induction (cols d) as [|[k v] l IH]; simpl; auto.
  destruct (String.eqb c k); simpl; auto.
Qed.

Lemma missing_columns_spec (d : DataFrame) (names : list string) (c : string) :
  In c (missing_columns d names) <-> In c names /\ df_has d c = false.
Proof.
  unfold missing_columns. rewrite filter_In, str_mem_columns.
  now rewrite negb_true_iff.
Qed.

Lemma nonempty_not_empty {A} (l : list A) : l <> [] -> negb (is_empty l) = true.
Proof. destruct l; simpl; congruence. Qed.

Lemma add_total_resources_missing (w : world) (df : loc) (d : DataFrame) :
  nth_error (frames w) df = Some d ->
  missing_columns d RESOURCE_COLUMNS <> [] ->
  add_total_resources df w
  = (inl (KeyError "Faltan columnas de recursos: "
                   (missing_columns d RESOURCE_COLUMNS)),
     mkWorld (frames w ++ [d]) (geos w)).
Proof.
  intros Hd N. unfold add_total_resources.
  erewrite bind_ok by (apply copy_run; eauto).
  erewrite bind_ok by apply read_df_last.
  now rewrite (nonempty_not_empty N).
Qed.

(** C2: on a table that lacks some of the three resource columns,
    [add_total_resources], [group_by_province_for_map] and
    [aggregate_resources_by_year] all raise a [KeyError] whose list of names
    is exactly the resource columns the table lacks; none returns a
    frame. *)
Theorem missing_resource_columns_raise (w : world) (df : loc) (d : DataFrame)
    (province_col year_col : string) :
  nth_error (frames w) df = Some d ->
  missing_columns d RESOURCE_COLUMNS <> [] ->
  let missing := missing_columns d RESOURCE_COLUMNS in
  (forall c, In c missing <-> In c RESOURCE_COLUMNS /\ df_has d c = false)
  /\ fst (add_total_resources df w)
     = inl (KeyError "Faltan columnas de recursos: " missing)
  /\ fst (group_by_province_for_map df province_col w)
     = inl (KeyError (if df_has d "total_medios"
                      then "Faltan columnas de recursos para agregar por provincia: "
                      else "Faltan columnas de recursos: ") missing)
  /\ fst (aggregate_resources_by_year df year_col RESOURCE_COLUMNS w)
     = inl (KeyError "Faltan columnas de recursos para agregar por año: " missing).
Proof.
  intros Hd N missing. subst missing. split; [|split; [|split]].
  - intros c. apply missing_columns_spec.
  - rewrite add_total_resources_missing with (d := d); auto.
  - unfold group_by_province_for_map.
    erewrite bind_ok by (apply copy_run; eauto).
    erewrite bind_ok by apply has_column_last.
    destruct (df_has d "total_medios");
      [change (negb true) with false | change (negb false) with true]; cbv iota.
    + erewrite bind_ok by reflexivity.
      erewrite bind_ok by apply read_df_last.
      cbv zeta. now rewrite (nonempty_not_empty N).
    + erewrite bind_err; [reflexivity|].
      apply add_total_resources_missing with (d := d); auto.
      apply nth_error_app_last.
  - unfold aggregate_resources_by_year.
    erewrite bind_ok by (apply copy_run; eauto).
    erewrite bind_ok by apply read_df_last.
    cbv zeta. now rewrite (nonempty_not_empty N).
Qed.

(** ** Sorting *)

Section SortingFacts.
Variables (A : Type) (leb : A -> A -> bool) (dom : A -> Prop).
Hypothesis leb_total : forall a b, dom a -> dom b -> leb a b = true \/ leb b a = true.
Hypothesis leb_trans :
  forall a b c, dom a -> dom b -> dom c ->
                leb a b = true -> leb b c = true -> leb a c = true.

Lemma insert_sorted_perm (x : A) (l : list A) :
  Permutation (x :: l) (insert_sorted leb x l).
Proof.
  induction l as [|y l IH]; simpl; auto.
  destruct (leb x y); auto.
  eapply perm_trans; [apply perm_swap|]. now constructor.
Qed.

Lemma isort_perm (l : list A) : Permutation l (isort leb l).
Proof.
  induction l as [|x l IH]; simpl; auto.
  eapply perm_trans; [|apply insert_sorted_perm]. now constructor.
Qed.

Lemma insert_sorted_strongly (x : A) (l : list A) :
  dom x -> Forall dom l ->
  StronglySorted (fun a b => leb a b = true) l ->
  StronglySorted (fun a b => leb a b = true) (insert_sorted leb x l).
Proof.
  intros Dx Dl S. induction S as [|y l S IH F]; simpl.
  - repeat constructor.
  - inversion Dl as [|? ? Dy Dl']; subst.
    destruct (leb x y) eqn:E.
    + constructor; [constructor; auto|].
      constructor; auto.
      eapply Forall_impl; [|apply Forall_and; [exact F | exact Dl']].
      intros a [H1 H2]. eapply leb_trans with (b := y); auto.
    + constructor; auto.
      apply (Permutation_Forall (insert_sorted_perm x l)).
      constructor; auto.
      destruct (leb_total Dx Dy); congruence.
Qed.

Lemma isort_strongly (l : list A) :
  Forall dom l -> StronglySorted (fun a b => leb a b = true) (isort leb l).
Proof.
  induction 1 as [|x l Dx Dl IH]; simpl.
  - constructor.
  - apply insert_sorted_strongly; auto.
    apply (Permutation_Forall (isort_perm l)); auto.
Qed.
End SortingFacts.

Lemma num_leb_Q (x y : num) :
  finite x -> finite y -> (num_leb x y = true <-> (to_Q x <= to_Q y)%Q).
Proof.
  destruct x, y; simpl; try tauto; intros _ _; unfold to_Q; simpl.
  - rewrite Z.leb_le. now rewrite Zle_Qle.
  - apply Qle_bool_iff.
  - apply Qle_bool_iff.
  - apply Qle_bool_iff.
Qed.

Lemma num_leb_total (x y : num) :
  finite x -> finite y -> num_leb x y = true \/ num_leb y x = true.
Proof.
  intros Fx Fy. rewrite !num_leb_Q by auto.
  destruct (Qlt_le_dec (to_Q y) (to_Q x)); [right | left]; auto.
  now apply Qlt_le_weak.
Qed.

Lemma num_leb_trans (x y z : num) :
  finite x -> finite y -> finite z ->
  num_leb x y = true -> num_leb y z = true -> num_leb x z = true.
Proof.
  intros Fx Fy Fz. rewrite !num_leb_Q by auto. apply Qle_trans.
Qed.

(** ** Grouped sums *)

Lemma num_add_finite (x y : num) :
  finite x -> finite y -> exists n, num_add x y = Some n /\ finite n.
Proof. destruct x, y; simpl; try tauto; eauto. Qed.

Lemma sum_from_ok (s : Series) (a : num) :
  forallb area_ok s = true -> finite a ->
  exists n, sum_from (Some a) s = inr (Some n) /\ finite n.
Proof.
  revert a; induction s as [|c s IH]; simpl; intros a H Fa.
  - eauto.
  - apply andb_true_iff in H. destruct H as [Hc Hs].
    destruct c as [[z|q|b]| | |t|b]; simpl in *; try discriminate; auto.
    + destruct (@num_add_finite a (Int z)) as [n [-> Fn]]; simpl; auto.
    + destruct (@num_add_finite a (Flt q)) as [n [-> Fn]]; simpl; auto.
    + destruct (@num_add_finite a (Int (b2z b))) as [n [-> Fn]]; simpl; auto.
Qed.

Lemma take_rows_ok (s : Series) (idx : list nat) :
  forallb area_ok s = true -> forallb area_ok (take_rows s idx) = true.
Proof.
  intros H. rewrite forallb_forall in *. unfold take_rows.
  intros c Hc. apply in_map_iff in Hc. destruct Hc as [i [<- _]].
  destruct (nth_in_or_default i s CNaN) as [I | ->]; auto.
Qed.

Lemma group_total_finite (keycol s : Series) (k : cell) :
  forallb area_ok s = true ->
  sum_cells (take_rows s (group_rows k keycol 0)) = inr (group_total keycol s k)
  /\ finite_cell (group_total keycol s k).
Proof.
  intros H. unfold group_total, sum_cells.
  destruct (@sum_from_ok (take_rows s (group_rows k keycol 0)) (Int 0))
    as [n [-> Fn]]; simpl; auto.
  now apply take_rows_ok.
Qed.

Lemma traverse_map {A B} (f : A -> result B) (h : A -> B) (l : list A) :
  (forall a, In a l -> f a = inr (h a)) -> traverse f l = inr (map h l).
Proof.
  induction l as [|a l IH]; simpl; intros H; auto.
  rewrite (H a) by auto. rewrite IH by auto. reflexivity.
Qed.

Lemma groupby_sum_one (d : DataFrame) (key c : string) (keycol s : Series) :
  df_col d key = Some keycol -> df_col d c = Some s ->
  forallb area_ok s = true -> key <> c ->
  groupby_sum d key [(c, c)]
  = inr (mkDF (length (group_keys keycol))
              [ (key, group_keys keycol);
                (c, map (group_total keycol s) (group_keys keycol)) ]).
Proof.
  intros K C OK N. unfold groupby_sum. rewrite K. simpl. rewrite C.
  unfold sum_groups.
  rewrite traverse_map with (h := group_total keycol s).
  2:{ intros k _. now apply group_total_finite. }
  destruct (String.eqb_spec key c); [contradiction|]. reflexivity.
Qed.

(** ** Sorting a frame by one column *)

Lemma take_rows_seq (s : Series) (k : nat) :
  (k <= length s)%nat -> take_rows s (seq 0 k) = firstn k s.
Proof.
  unfold take_rows. revert k; induction s as [|x s IH]; intros [|k] L;
    simpl in *; auto; try lia.
  f_equal. rewrite <- seq_shift, map_map. apply IH. lia.
Qed.

Lemma cell_leb_total (a b : cell) :
  finite_cell a -> finite_cell b -> cell_leb a b = true \/ cell_leb b a = true.
Proof.
  destruct a, b; simpl; intros Fa Fb; try contradiction.
  now apply num_leb_total.
Qed.

Lemma cell_leb_trans (a b c : cell) :
  finite_cell a -> finite_cell b -> finite_cell c ->
  cell_leb a b = true -> cell_leb b c = true -> cell_leb a c = true.
Proof.
  destruct a, b, c; simpl; intros Fa Fb Fc; try contradiction.
  now apply num_leb_trans.
Qed.

Lemma StronglySorted_map {A B} (R : A -> A -> Prop) (R' : B -> B -> Prop)
    (f : A -> B) (l : list A) :
  (forall a b, R a b -> R' (f a) (f b)) ->
  StronglySorted R l -> StronglySorted R' (map f l).
Proof.
  intros H. induction 1 as [|a l S IH F]; simpl; constructor; auto.
  apply Forall_map. eapply Forall_impl; [|exact F]. auto.
Qed.

(** Pairing each value with its position, then reading the position back. *)
Lemma combine_seq_nth (s : Series) (a : nat) (p : cell * nat) :
  In p (combine s (seq a (length s))) ->
  (a <= snd p)%nat /\ nth_error s (snd p - a) = Some (fst p).
Proof.
  revert a; induction s as [|x s IH]; simpl; intros a H; [tauto|].
  destruct H as [<- | H]; simpl.
  - rewrite Nat.sub_diag. auto.
  - destruct (IH _ H) as [L N]. split; [lia|].
    replace (snd p - a)%nat with (S (snd p - S a)) by lia. exact N.
Qed.

Lemma combine_seq_rows (keys sums : Series) (a : nat) (pre : Series) :
  length keys = length sums -> length pre = a ->
  map (fun p : cell * nat => (nth (snd p) (pre ++ keys) CNaN, fst p))
      (combine sums (seq a (length sums)))
  = combine keys sums.
Proof.
  revert sums a pre; induction keys as [|k keys IH]; intros [|v sums] a pre L P;
    simpl in *; try discriminate; auto.
  f_equal.
  - f_equal. subst a. rewrite app_nth2 by lia. now rewrite Nat.sub_diag.
  - replace (pre ++ k :: keys) with ((pre ++ [k]) ++ keys)
      by (now rewrite <- app_assoc).
    apply IH; [lia|]. rewrite length_app; simpl; lia.
Qed.

Lemma combine_map_self {A B} (h : A -> B) (l : list A) :
  combine l (map h l) = map (fun k => (k, h k)) l.
Proof. induction l; simpl; congruence. Qed.

Lemma filter_all {A} (f : A -> bool) (l : list A) :
  Forall (fun a => f a = true) l -> filter f l = l.
Proof. induction 1 as [|a l H _ IH]; simpl; auto. now rewrite H, IH. Qed.

Lemma filter_none {A} (f : A -> bool) (l : list A) :
  Forall (fun a => f a = false) l -> filter f l = [].
Proof. induction 1 as [|a l H _ IH]; simpl; auto. now rewrite H. Qed.

Lemma argsort_desc_rows (keys sums : Series) :
  length keys = length sums -> Forall finite_cell sums ->
  exists rows,
    take_rows keys (argsort sums false) = map fst rows
    /\ take_rows sums (argsort sums false) = map snd rows
    /\ Permutation rows (combine keys sums)
    /\ StronglySorted sum_geb rows.
Proof.
  intros L F.
  set (indexed := combine sums (seq 0 (length sums))).
  set (leb := fun p q : cell * nat => cell_leb (fst q) (fst p)).
  set (g := fun p : cell * nat => (nth (snd p) keys CNaN, fst p)).
  assert (D : Forall (fun p : cell * nat => finite_cell (fst p)) indexed).
  { apply Forall_forall. intros [v i] I. apply in_combine_l in I.
    rewrite Forall_forall in F. now apply F. }
  assert (NA : Forall (fun p : cell * nat => isna (fst p) = false) indexed).
  { eapply Forall_impl; [|exact D]. intros [v i]; simpl.
    destruct v; simpl; intros Fv; (contradiction || reflexivity). }
  assert (E : argsort sums false = map snd (isort leb indexed)).
  { unfold argsort. fold indexed.
    rewrite filter_all, filter_none, app_nil_r; auto.
    eapply Forall_impl; [|exact NA]. simpl. now intros p ->. }
  exists (map g (isort leb indexed)). rewrite E. unfold take_rows.
  repeat split.
  - rewrite !map_map. reflexivity.
  - rewrite !map_map. apply map_ext_in. intros p I. simpl.
    apply (Permutation_in _ (Permutation_sym (isort_perm leb indexed))) in I.
    apply combine_seq_nth in I. destruct I as [_ N].
    rewrite Nat.sub_0_r in N. now apply nth_error_nth.
  - eapply perm_trans.
    + apply Permutation_map. apply Permutation_sym, isort_perm.
    + unfold indexed, g.
      rewrite <- (@combine_seq_rows keys sums 0 [] L eq_refl). reflexivity.
  - apply StronglySorted_map with (R := fun a b => leb a b = true).
    + intros a b H. exact H.
    + apply isort_strongly with (dom := fun p : cell * nat => finite_cell (fst p));
        auto; unfold leb.
      * intros a b Da Db. destruct (cell_leb_total (fst a) (fst b)); auto.
      * intros a b c Da Db Dc H1 H2.
        apply cell_leb_trans with (b := fst b); auto.
Qed.

(** ** aggregates.py: the provinces with the largest burned area *)

Lemma df_rename_two (k : nat) (key c new : string) (keys sums : Series) :
  key <> c ->
  df_rename (mkDF k [(key, keys); (c, sums)]) c new
  = mkDF k [(key, keys); (new, sums)].
Proof.
  intros N. unfold df_rename. cbn [cols nrows map fst snd].
  destruct (String.eqb_spec key c); [contradiction|].
  now rewrite String.eqb_refl.
Qed.

Lemma sort_values_two (k : nat) (keys sums : Series) (ascending : bool) :
  sort_values (mkDF k [("provincia", keys); ("hectareas_quemadas", sums)])
              "hectareas_quemadas" ascending
  = inr (mkDF (length (argsort sums ascending))
           [ ("provincia", take_rows keys (argsort sums ascending));
             ("hectareas_quemadas", take_rows sums (argsort sums ascending)) ]).
Proof. reflexivity. Qed.

Lemma firstn_min {A} (l : list A) (k : nat) :
  firstn (Nat.min k (length l)) l = firstn k l.
Proof.
  destruct (Nat.le_ge_cases (length l) k).
  - rewrite Nat.min_r by auto. now rewrite !firstn_all2 by lia.
  - now rewrite Nat.min_l by auto.
Qed.

Lemma head_top_frame (rows : list (cell * cell)) (n : Z) :
  0 <= n ->
  head (top_frame rows) n = top_frame (firstn (Z.to_nat n) rows).
Proof.
  intros N. unfold head, top_frame, df_rows. cbn [nrows cols map fst snd].
  destruct (Z.leb_spec 0 n); [|lia].
  rewrite !take_rows_seq by (rewrite length_map; lia).
  rewrite length_seq.
  assert (E : forall l : Series, length l = length rows ->
            firstn (Nat.min (Z.to_nat n) (length rows)) l = firstn (Z.to_nat n) l)
    by (intros l <-; apply firstn_min).
  rewrite !E by apply length_map.
  rewrite !firstn_map, length_firstn. reflexivity.
Qed.

Lemma top_provinces_run (w : world) (df : loc) (d : DataFrame) (n : Z)
    (pcol acol : Series) :
  nth_error (frames w) df = Some d ->
  df_col d "provincia" = Some pcol ->
  area_column d = Some acol ->
  forallb area_ok acol = true ->
  0 <= n ->
  exists rows,
    Permutation rows (group_sum_rows pcol acol)
    /\ StronglySorted sum_geb rows
    /\ top_provinces_by_burned_area df n "provincia" "hectareas_quemadas"
         "perdidassuperficiales" false w
       = (inr (S (length (frames w))),
          mkWorld (frames w ++ [d; top_frame (firstn (Z.to_nat n) rows)]) (geos w)).
Proof.
  intros Hd P A OK N.
  set (keys := group_keys pcol).
  set (sums := map (group_total pcol acol) keys).
  assert (LS : length keys = length sums) by (unfold sums; now rewrite length_map).
  assert (FS : Forall finite_cell sums).
  { unfold sums. apply Forall_map, Forall_forall. intros k _.
    now apply group_total_finite. }
  destruct (argsort_desc_rows keys LS FS) as [rows [Tk [Ts [Pm Sd]]]].
  exists rows. split; [|split; auto].
  { unfold group_sum_rows. fold keys. rewrite <- combine_map_self. exact Pm. }
  assert (LR : length rows = length keys).
  { apply Permutation_length in Pm. rewrite Pm, length_combine. lia. }
  assert (LA : length (argsort sums false) = length rows).
  { rewrite <- (length_map fst rows), <- Tk. unfold take_rows.
    now rewrite length_map. }
  unfold top_provinces_by_burned_area.
  erewrite bind_ok by (apply copy_run; eauto).
  erewrite bind_ok by apply read_df_last.
  cbv zeta. unfold area_column in A. rewrite !df_has_col.
  assert (G : forall c, df_col d c = Some acol -> "provincia" <> c ->
    bind (lift (groupby_sum d "provincia" [(c, c)]))
      (fun agg =>
         bind (lift (sort_values (df_rename agg c "hectareas_quemadas")
                                 "hectareas_quemadas" false))
              (fun sorted => alloc_df (head sorted n)))
      (mkWorld (frames w ++ [d]) (geos w))
    = (inr (S (length (frames w))),
       mkWorld (frames w ++ [d; top_frame (firstn (Z.to_nat n) rows)]) (geos w))).
  { intros c C NE. rewrite (groupby_sum_one d P C OK NE). cbn [lift].
    erewrite bind_ok by reflexivity.
    rewrite df_rename_two by auto. fold keys sums.
    rewrite sort_values_two. cbn [lift].
    erewrite bind_ok by reflexivity.
    rewrite LA, Tk, Ts.
    change (mkDF (length rows) [("provincia", map fst rows);
                                ("hectareas_quemadas", map snd rows)])
      with (top_frame rows).
    rewrite head_top_frame by auto.
    unfold alloc_df. cbn [frames geos].
    rewrite length_app, <- app_assoc. cbn [length app].
    now rewrite Nat.add_1_r. }
  destruct (df_col d "hectareas_quemadas") as [s|] eqn:H1.
  - inversion A; subst s. rewrite H1. cbn [negb].
    apply G; auto. intro; discriminate.
  - rewrite A. cbn [negb].
    apply G; auto. intro; discriminate.
Qed.

(** ** Boolean masks and row selection *)

Lemma mask_rows_filter (m : list bool) (a : nat) :
  mask_rows m a = filter (fun i => nth (i - a) m false) (seq a (length m)).
Proof.
  revert a; induction m as [|b m IH]; intros a; simpl; auto.
  rewrite Nat.sub_diag. rewrite IH.
  assert (E : filter (fun i => nth (i - S a) m false) (seq (S a) (length m))
              = filter (fun i => match (i - a)%nat with
                                 | O => b
                                 | S k => nth k m false
                                 end) (seq (S a) (length m))).
  { apply filter_ext_in. intros i I. apply in_seq in I.
    replace (i - a)%nat with (S (i - S a)) by lia. reflexivity. }
  rewrite E. now destruct b.
Qed.

Lemma mask_rows_bound (m : list bool) (a i : nat) :
  In i (mask_rows m a) -> (a <= i < a + length m)%nat.
Proof.
  rewrite mask_rows_filter, filter_In, in_seq. tauto.
Qed.

Lemma mask_rows_map (p : nat -> bool) (l pre : list nat) :
  map (fun j => nth j (pre ++ l) O) (mask_rows (map p l) (length pre))
  = filter p l.
Proof.
  revert pre; induction l as [|x l IH]; intros pre; simpl; auto.
  assert (R : map (fun j => nth j (pre ++ x :: l) O)
                  (mask_rows (map p l) (S (length pre))) = filter p l).
  { replace (pre ++ x :: l) with ((pre ++ [x]) ++ l) by (now rewrite <- app_assoc).
    replace (S (length pre)) with (length (pre ++ [x]))
      by (rewrite length_app; simpl; lia).
    apply IH. }
  destruct (p x); simpl; rewrite R; auto.
  f_equal. rewrite app_nth2 by lia. now rewrite Nat.sub_diag.
Qed.

Lemma take_rows_twice (s : Series) (idx1 idx2 : list nat) :
  (forall j, In j idx2 -> (j < length idx1)%nat) ->
  take_rows (take_rows s idx1) idx2
  = take_rows s (map (fun j => nth j idx1 O) idx2).
Proof.
  intros B. unfold take_rows. rewrite map_map. apply map_ext_in.
  intros j I. specialize (B j I).
  rewrite nth_indep with (d' := nth O s CNaN) by (now rewrite length_map).
  apply (map_nth (fun i => nth i s CNaN)).
Qed.

Lemma df_rows_twice (d : DataFrame) (idx1 idx2 : list nat) :
  (forall j, In j idx2 -> (j < length idx1)%nat) ->
  df_rows (df_rows d idx1) idx2
  = df_rows d (map (fun j => nth j idx1 O) idx2).
Proof.
  intros B. unfold df_rows; simpl. rewrite length_map. f_equal.
  rewrite map_map. apply map_ext. intros [c s]; simpl.
  now rewrite take_rows_twice.
Qed.

Lemma traverse_take_rows {B} (f : cell -> result B) (s : Series) (r : list B)
    (idx : list nat) (dflt : B) :
  traverse f s = inr r ->
  (forall i, In i idx -> (i < length s)%nat) ->
  traverse f (take_rows s idx) = inr (map (fun i => nth i r dflt) idx).
Proof.
  intros T Bd. unfold take_rows.
  induction idx as [|i idx IH]; simpl; auto.
  assert (Hi : (i < length s)%nat) by (apply Bd; simpl; auto).
  destruct (nth_error s i) as [c|] eqn:N;
    [|apply nth_error_None in N; lia].
  destruct (traverse_nth _ _ T _ N) as [b [Fb Nb]].
  rewrite (nth_error_nth _ _ CNaN N), Fb.
  rewrite IH by (intros; apply Bd; simpl; auto).
  now rewrite (nth_error_nth _ _ dflt Nb).
Qed.

Lemma mask_and_nth_default (a b : list bool) (i : nat) :
  length a = length b ->
  nth i (mask_and a b) false = nth i a false && nth i b false.
Proof.
  revert b i; induction a as [|x a IH]; intros [|y b] [|i]; simpl; intros L;
    try discriminate; auto.
Qed.

Lemma mask_and_map (a b : list bool) (idx : list nat) :
  length a = length b ->
  mask_and (map (fun i => nth i a false) idx) (map (fun i => nth i b false) idx)
  = map (fun i => nth i (mask_and a b) false) idx.
Proof.
  intros L. induction idx as [|i idx IH]; simpl; auto.
  now rewrite IH, mask_and_nth_default.
Qed.

(** ** The dashboard filter *)

Lemma getitem_run (w : world) (l : loc) (d : DataFrame) (c : string) :
  nth_error (frames w) l = Some d ->
  getitem l c w
  = (match df_col d c with Some s => inr s | None => inl (KeyError c [c]) end, w).
Proof.
  intros H. unfold getitem. erewrite bind_ok by (apply read_df_run; eauto).
  now destruct (df_col d c).
Qed.

Lemma select_mask_run (w : world) (l : loc) (d : DataFrame) (m : list bool) :
  nth_error (frames w) l = Some d ->
  select_mask l m w
  = (inr (length (frames w)),
     mkWorld (frames w ++ [df_rows d (mask_rows m 0)]) (geos w)).
Proof.
  intros H. unfold select_mask. erewrite bind_ok by (apply read_df_run; eauto).
  reflexivity.
Qed.

Lemma year_mask_run (w : world) (l : loc) (d : DataFrame) (y0 y1 : Z) :
  nth_error (frames w) l = Some d ->
  year_mask l y0 y1 w = (year_mask_value d y0 y1, w).
Proof.
  intros H. unfold year_mask, year_mask_value, getitem, bind, read_df, lift.
  rewrite H. destruct (df_col d "anio") as [a|] eqn:E; unfold ret, raise; auto.
  destruct (traverse (cell_ge y0) a); auto.
  rewrite H, E. destruct (traverse (cell_le y1) a); auto.
Qed.

Lemma year_mask_value_spec (d : DataFrame) (y0 y1 : Z) (my : list bool) :
  year_mask_value d y0 y1 = inr my ->
  exists a ge le,
    df_col d "anio" = Some a
    /\ traverse (cell_ge y0) a = inr ge
    /\ traverse (cell_le y1) a = inr le
    /\ my = mask_and ge le
    /\ length ge = length a /\ length le = length a /\ length my = length a
    /\ forall i, nth i my false = in_year y0 y1 (nth i a CNaN).
Proof.
  unfold year_mask_value. intros H.
  destruct (df_col d "anio") as [a|]; try discriminate.
  destruct (traverse (cell_ge y0) a) as [|ge] eqn:G; try discriminate.
  destruct (traverse (cell_le y1) a) as [|le] eqn:L; try discriminate.
  inversion H; subst my; clear H.
  pose proof (traverse_length _ _ G) as LG.
  pose proof (traverse_length _ _ L) as LL.
  exists a, ge, le. repeat split; auto.
  - rewrite mask_and_length; congruence.
  - intros i. rewrite mask_and_nth_default by congruence.
    destruct (nth_error a i) as [c|] eqn:N.
    + destruct (traverse_nth _ _ G _ N) as [b1 [F1 N1]].
      destruct (traverse_nth _ _ L _ N) as [b2 [F2 N2]].
      rewrite (nth_error_nth _ _ false N1), (nth_error_nth _ _ false N2).
      rewrite (nth_error_nth _ _ CNaN N). unfold in_year. now rewrite F1, F2.
    + apply nth_error_None in N.
      rewrite !nth_overflow by lia. reflexivity.
Qed.

Lemma df_col_df_rows (d : DataFrame) (idx : list nat) (c : string) :
  df_col (df_rows d idx) c = option_map (fun s => take_rows s idx) (df_col d c).
Proof.
  unfold df_col, df_rows; simpl.
  induction (cols d) as [|[k v] l IH]; simpl; auto.
  destruct (String.eqb c k); auto.
Qed.

Lemma filter_twice {A} (p q : A -> bool) (l : list A) :
  filter q (filter p l) = filter (fun x => p x && q x) l.
Proof.
  induction l as [|x l IH]; simpl; auto.
  destruct (p x); simpl; [destruct (q x)|]; simpl; congruence.
Qed.

Lemma filter_by_year_and_intent_run (w : world) (df : loc) (d : DataFrame)
    (y0 y1 : Z) (si sni : bool) :
  nth_error (frames w) df = Some d ->
  filter_by_year_and_intent df (y0, y1) si sni w
  = match year_mask_value d y0 y1 with
    | inl e => (inl e, w)
    | inr my =>
        if si && sni
        then (inr (length (frames w)),
              mkWorld (frames w ++ [df_rows d (mask_rows my 0)]) (geos w))
        else
          match df_col d "intencionado" with
          | None => (inl (KeyError "intencionado" ["intencionado"]), w)
          | Some i =>
              (inr (length (frames w)),
               mkWorld (frames w ++
                        [df_rows d (mask_rows
                                      (mask_and my (map (cell_eq_bool si) i)) 0)])
                       (geos w))
          end
    end.
Proof.
  intros H. unfold filter_by_year_and_intent.
  destruct (year_mask_value d y0 y1) as [e|my] eqn:Y.
  - erewrite bind_err; [reflexivity|]. now rewrite (@year_mask_run w df d y0 y1 H), Y.
  - erewrite bind_ok by (now rewrite (@year_mask_run w df d y0 y1 H), Y).
    destruct si, sni; cbn [andb];
      try (now apply select_mask_run);
      unfold bind; rewrite (@getitem_run w df d _ H);
      destruct (df_col d "intencionado"); auto;
      now apply select_mask_run.
Qed.

Lemma select_after (d : DataFrame) (idx : list nat) (p : nat -> bool) :
  df_rows (df_rows d idx) (mask_rows (map p idx) 0) = df_rows d (filter p idx).
Proof.
  rewrite df_rows_twice.
  - f_equal. exact (mask_rows_map p idx []).
  - intros j I. apply mask_rows_bound in I. rewrite length_map in I. lia.
Qed.

Lemma mask_rows_nth (m : list bool) :
  mask_rows m 0 = filter (fun i => nth i m false) (seq 0 (length m)).
Proof.
  rewrite mask_rows_filter. apply filter_ext. intros i.
  now rewrite Nat.sub_0_r.
Qed.

Lemma result_frame_alloc (fs : list DataFrame) (g : list GeoJSON) (d : DataFrame) :
  result_frame (inr (length fs), mkWorld (fs ++ [d]) g) = inr d.
Proof. unfold result_frame; simpl. now rewrite nth_error_app_last. Qed.

(** Filtering the rows kept by the year filter with the intent flag. *)
Lemma filter_intent_after (w : world) (d : DataFrame) (idx : list nat)
    (si sni : bool) (icol : Series) :
  si && sni = false ->
  df_col d "intencionado" = Some icol ->
  result_frame
    (filter_intent (length (frames w)) si sni
       (mkWorld (frames w ++ [df_rows d idx]) (geos w)))
  = inr (df_rows d (filter (fun i => cell_eq_bool si (nth i icol CNaN)) idx)).
Proof.
  intros B I. unfold filter_intent. rewrite B.
  set (w1 := mkWorld (frames w ++ [df_rows d idx]) (geos w)).
  assert (H1 : nth_error (frames w1) (length (frames w)) = Some (df_rows d idx))
    by apply nth_error_app_last.
  unfold bind. rewrite (@getitem_run w1 _ _ "intencionado" H1).
  rewrite df_col_df_rows, I. cbn [option_map].
  rewrite (@select_mask_run w1 _ _ _ H1). unfold w1; cbn [frames geos].
  rewrite result_frame_alloc. f_equal.
  unfold take_rows. rewrite map_map.
  apply (select_after d idx (fun i => cell_eq_bool si (nth i icol CNaN))).
Qed.

(** Filtering the rows kept by some first filter with the year mask. *)
Lemma filter_year_after (w : world) (d : DataFrame) (idx : list nat)
    (y0 y1 : Z) (my : list bool) :
  year_mask_value d y0 y1 = inr my ->
  (forall i, In i idx -> (i < nrows d)%nat) -> df_wf d ->
  result_frame
    (filter_year (length (frames w)) y0 y1
       (mkWorld (frames w ++ [df_rows d idx]) (geos w)))
  = inr (df_rows d (filter (fun i => nth i my false) idx)).
Proof.
  intros Y Bd W. unfold filter_year.
  destruct (year_mask_value_spec _ _ _ Y)
    as [a [ge [le [A [G [L [E [LG [LL [LM _]]]]]]]]]].
  pose proof (df_wf_col _ W A) as LA.
  set (w1 := mkWorld (frames w ++ [df_rows d idx]) (geos w)).
  assert (H1 : nth_error (frames w1) (length (frames w)) = Some (df_rows d idx))
    by apply nth_error_app_last.
  assert (Y1 : year_mask_value (df_rows d idx) y0 y1
               = inr (map (fun i => nth i my false) idx)).
  { unfold year_mask_value. rewrite df_col_df_rows, A. cbn [option_map].
    rewrite (@traverse_take_rows _ (cell_ge y0) a ge idx false G)
      by (intros; rewrite LA; auto).
    rewrite (@traverse_take_rows _ (cell_le y1) a le idx false L)
      by (intros; rewrite LA; auto).
    rewrite mask_and_map by congruence. now subst my. }
  erewrite bind_ok by (now rewrite (@year_mask_run w1 _ _ y0 y1 H1), Y1).
  rewrite (@select_mask_run w1 _ _ _ H1). unfold w1; cbn [frames geos].
  rewrite result_frame_alloc. f_equal. apply select_after.
Qed.

Lemma filter_cached_same (df : loc) (year_range : Z * Z) (si sni : bool) :
  filter_by_year_and_intent_cached df year_range si sni
  = filter_by_year_and_intent df year_range si sni.
Proof. reflexivity. Qed.

(** Whenever the dashboard filter returns a table, that table holds
    exactly the rows satisfying the conjunction, and both orders of the two
    single filters return it. *)
Lemma filter_returned_is_conjunction (w : world) (df : loc) (d r : DataFrame)
    (y0 y1 : Z) (si sni : bool) :
  nth_error (frames w) df = Some d -> df_wf d ->
  result_frame (filter_by_year_and_intent df (y0, y1) si sni w) = inr r ->
  r = df_rows d (kept_rows d y0 y1 si sni)
  /\ result_frame (bind (filter_year df y0 y1)
                        (fun l => filter_intent l si sni) w) = inr r
  /\ result_frame (bind (filter_intent df si sni)
                        (fun l => filter_year l y0 y1) w) = inr r
  /\ result_frame (filter_by_year_and_intent_cached df (y0, y1) si sni w) = inr r.
Proof.
  intros Hd W R. rewrite filter_cached_same.
  assert (R0 := R).
  rewrite (@filter_by_year_and_intent_run w df d y0 y1 si sni Hd) in R.
  destruct (year_mask_value d y0 y1) as [e|my] eqn:Y; [discriminate|].
  destruct (year_mask_value_spec _ _ _ Y)
    as [a [ge [le [A [G [L [E [LG [LL [LM NM]]]]]]]]]].
  pose proof (df_wf_col _ W A) as LA.
  assert (FY : filter_year df y0 y1 w
               = (inr (length (frames w)),
                  mkWorld (frames w ++ [df_rows d (mask_rows my 0)]) (geos w))).
  { unfold filter_year.
    erewrite bind_ok by (now rewrite (@year_mask_run w df d y0 y1 Hd), Y).
    now apply select_mask_run. }
  assert (KY : mask_rows my 0
               = filter (fun i => nth i my false) (seq 0 (nrows d))).
  { rewrite mask_rows_nth. now rewrite LM, LA. }
  destruct (si && sni) eqn:B.
  - (* both switches on: the year filter alone *)
    rewrite result_frame_alloc in R. inversion R; subst r; clear R.
    assert (K : mask_rows my 0 = kept_rows d y0 y1 si sni).
    { rewrite KY. unfold kept_rows, column_or_empty, intent_shown.
      rewrite A, B. apply filter_ext. intros i.
      now rewrite NM, andb_true_r. }
    repeat split; auto.
    + now rewrite K.
    + erewrite bind_ok by exact FY. unfold filter_intent. rewrite B.
      unfold ret. apply result_frame_alloc.
    + unfold filter_intent. rewrite B.
      erewrite bind_ok by reflexivity. rewrite FY. apply result_frame_alloc.
  - (* one switch only *)
    destruct (df_col d "intencionado") as [icol|] eqn:I; [|discriminate].
    rewrite result_frame_alloc in R. inversion R; subst r; clear R.
    pose proof (df_wf_col _ W I) as LI.
    set (p1 := fun i => nth i my false).
    set (p2 := fun i => cell_eq_bool si (nth i icol CNaN)).
    assert (N2 : forall i, nth i (map (cell_eq_bool si) icol) false = p2 i).
    { intros i. unfold p2.
      change false with (cell_eq_bool si CNaN) at 1. apply map_nth. }
    assert (KM : mask_rows (mask_and my (map (cell_eq_bool si) icol)) 0
                 = filter (fun i => p1 i && p2 i) (seq 0 (nrows d))).
    { rewrite mask_rows_nth.
      rewrite mask_and_length by (rewrite length_map; congruence).
      rewrite LM, LA. apply filter_ext. intros i.
      rewrite mask_and_nth_default by (rewrite length_map; congruence).
      now rewrite N2. }
    assert (K : kept_rows d y0 y1 si sni
                = filter (fun i => p1 i && p2 i) (seq 0 (nrows d))).
    { unfold kept_rows, column_or_empty, intent_shown.
      rewrite A, I, B. apply filter_ext. intros i. unfold p1, p2.
      now rewrite NM. }
    rewrite KM. repeat split; auto.
    + now rewrite K.
    + erewrite bind_ok by exact FY.
      rewrite (@filter_intent_after w d (mask_rows my 0) si sni icol B I).
      rewrite KY. fold p2. now rewrite filter_twice.
    + assert (FI : filter_intent df si sni w
                   = (inr (length (frames w)),
                      mkWorld (frames w ++
                               [df_rows d (mask_rows (map (cell_eq_bool si) icol) 0)])
                              (geos w))).
      { unfold filter_intent. rewrite B. unfold bind.
        rewrite (@getitem_run w df d _ Hd), I. now apply select_mask_run. }
      erewrite bind_ok by exact FI.
      assert (K2 : mask_rows (map (cell_eq_bool si) icol) 0
                   = filter p2 (seq 0 (nrows d))).
      { rewrite mask_rows_nth, length_map, LI. apply filter_ext. exact N2. }
      assert (Bd : forall i, In i (mask_rows (map (cell_eq_bool si) icol) 0) ->
                             (i < nrows d)%nat).
      { intros i Hi. rewrite K2 in Hi. apply filter_In in Hi.
        destruct Hi as [Hi _]. apply in_seq in Hi. lia. }
      rewrite (@filter_year_after w d
                 (mask_rows (map (cell_eq_bool si) icol) 0) y0 y1 my Y Bd W).
      rewrite K2. fold p1. rewrite filter_twice. f_equal. f_equal.
      apply filter_ext. intros i. apply andb_comm.
    + rewrite <- KM. exact R0.
Qed.

Lemma year_mask_value_total (d : DataFrame) (a : Series) (y0 y1 : Z) :
  df_col d "anio" = Some a -> no_text a = true ->
  exists my, year_mask_value d y0 y1 = inr my.
Proof.
  intros A NT. unfold year_mask_value. rewrite A.
  unfold no_text in NT. rewrite forallb_forall in NT.
  rewrite (@traverse_map _ _ (cell_ge y0)
             (fun c => match cell_ge y0 c with inr b => b | inl _ => false end)).
  - rewrite (@traverse_map _ _ (cell_le y1)
               (fun c => match cell_le y1 c with inr b => b | inl _ => false end)).
    + eauto.
    + intros c I. specialize (NT c I). now destruct c.
  - intros c I. specialize (NT c I). now destruct c.
Qed.

(** C9, as amended: on a table that has the year column, with no text in
    it, and that has the intent flag unless both switches are on, the
    dashboard filter returns the table of exactly the rows satisfying the
    conjunction of the year predicate and the intent predicate, and
    filtering by year and then by intent, or by intent and then by year,
    returns that same table. *)
Theorem filter_is_conjunction (w : world) (df : loc) (d : DataFrame)
    (a : Series) (y0 y1 : Z) (si sni : bool) :
  nth_error (frames w) df = Some d -> df_wf d ->
  df_col d "anio" = Some a -> no_text a = true ->
  si && sni = true \/ df_has d "intencionado" = true ->
  let r := df_rows d (kept_rows d y0 y1 si sni) in
  result_frame (filter_by_year_and_intent df (y0, y1) si sni w) = inr r
  /\ result_frame (bind (filter_year df y0 y1)
                        (fun l => filter_intent l si sni) w) = inr r
  /\ result_frame (bind (filter_intent df si sni)
                        (fun l => filter_year l y0 y1) w) = inr r
  /\ result_frame (filter_by_year_and_intent_cached df (y0, y1) si sni w) = inr r.
Proof.
  intros Hd W A NT H r.
  destruct (@year_mask_value_total d a y0 y1 A NT) as [my Y].
  assert (R : exists r0,
            result_frame (filter_by_year_and_intent df (y0, y1) si sni w) = inr r0).
  { rewrite (@filter_by_year_and_intent_run w df d y0 y1 si sni Hd), Y.
    destruct (si && sni) eqn:B.
    - rewrite result_frame_alloc. eauto.
    - destruct H as [H | H]; [discriminate H|].
      rewrite df_has_col in H.
      destruct (df_col d "intencionado"); [|discriminate H].
      rewrite result_frame_alloc. eauto. }
  destruct R as [r0 R].
  destruct (@filter_returned_is_conjunction w df d r0 y0 y1 si sni Hd W R)
    as [E [R1 [R2 R3]]].
  subst r0. unfold r. auto.
Qed.

(** ** Frame conditions: what a call leaves untouched *)

Lemma wp_bind {A B} (m : M A) (f : A -> M B) (Q : result B -> world -> Prop)
    (w : world) :
  wp m (fun r w' => match r with
                    | inl e => Q (inl e) w'
                    | inr a => wp (f a) Q w'
                    end) w ->
  wp (bind m f) Q w.
Proof.
  unfold wp, bind. destruct (m w) as [[e|a] w']; simpl; auto.
Qed.

Lemma wp_conseq {A} (m : M A) (Q Q' : result A -> world -> Prop) (w : world) :
  wp m Q w -> (forall r w', Q r w' -> Q' r w') -> wp m Q' w.
Proof. unfold wp; auto. Qed.

Lemma wp_ret {A} (a : A) (Q : result A -> world -> Prop) (w : world) :
  Q (inr a) w -> wp (ret a) Q w.
Proof. auto. Qed.

Lemma wp_raise {A} (e : exn) (Q : result A -> world -> Prop) (w : world) :
  Q (inl e) w -> wp (raise e) Q w.
Proof. auto. Qed.

Lemma wp_lift {A} (r : result A) (Q : result A -> world -> Prop) (w : world) :
  Q r w -> wp (lift r) Q w.
Proof. destruct r; auto. Qed.

(** Reading never changes the store. *)
Lemma wp_read_df (l : loc) (Q : result DataFrame -> world -> Prop) (w : world) :
  (forall r, Q r w) -> wp (read_df l) Q w.
Proof. unfold wp, read_df. destruct (nth_error (frames w) l); simpl; auto. Qed.

Lemma wp_read_geo (l : loc) (Q : result GeoJSON -> world -> Prop) (w : world) :
  (forall r, Q r w) -> wp (read_geo l) Q w.
Proof. unfold wp, read_geo. destruct (nth_error (geos w) l); simpl; auto. Qed.

Lemma wp_has_column (l : loc) (c : string) (Q : result bool -> world -> Prop)
    (w : world) :
  (forall r, Q r w) -> wp (has_column l c) Q w.
Proof.
  intros H. apply wp_bind, wp_read_df. intros [e|d]; auto. now apply wp_ret.
Qed.

Lemma wp_getitem (l : loc) (c : string) (Q : result Series -> world -> Prop)
    (w : world) :
  (forall r, Q r w) -> wp (getitem l c) Q w.
Proof.
  intros H. apply wp_bind, wp_read_df. intros [e|d]; auto.
  destruct (df_col d c); [apply wp_ret | apply wp_raise]; auto.
Qed.

Lemma wp_get (l : loc) (c : string) (Q : result (option Series) -> world -> Prop)
    (w : world) :
  (forall r, Q r w) -> wp (get l c) Q w.
Proof.
  intros H. apply wp_bind, wp_read_df. intros [e|d]; auto. now apply wp_ret.
Qed.

Lemma frames_grow_refl (w : world) : frames_grow w w.
Proof. split; auto. exists []. now rewrite app_nil_r. Qed.

Lemma list_set_app_r {A} (l ext : list A) (i : nat) (a : A) :
  (length l <= i)%nat ->
  list_set (l ++ ext) i a = l ++ list_set ext (i - length l) a.
Proof.
  revert i; induction l as [|x l IH]; intros i L; simpl in *.
  - now rewrite Nat.sub_0_r.
  - destruct i; [lia|]. simpl. f_equal. apply IH. lia.
Qed.

(** Writing through a fresh reference leaves the old objects alone. *)
Lemma frames_grow_write (w0 w : world) (l : loc) (d : DataFrame) :
  frames_grow w0 w -> fresh_df w0 l ->
  frames_grow w0 (mkWorld (list_set (frames w) l d) (geos w)).
Proof.
  intros [[ext E] G] F. split; simpl; auto.
  rewrite E, list_set_app_r by exact F. eauto.
Qed.

Lemma frames_grow_alloc (w0 w : world) (d : DataFrame) :
  frames_grow w0 w ->
  frames_grow w0 (mkWorld (frames w ++ [d]) (geos w))
  /\ fresh_df w0 (length (frames w)).
Proof.
  intros [[ext E] G]. repeat split; simpl; auto.
  - rewrite E, <- app_assoc. eauto.
  - unfold fresh_df. rewrite E, length_app. lia.
Qed.

Lemma wp_setitem (w0 : world) (l : loc) (c : string) (s : Series)
    (Q : result unit -> world -> Prop) (w : world) :
  frames_grow w0 w -> fresh_df w0 l ->
  (forall r w', frames_grow w0 w' -> Q r w') ->
  wp (setitem l c s) Q w.
Proof.
  intros G F H. apply wp_bind, wp_read_df. intros [e|d]; auto.
  destruct (Nat.eqb (length s) (nrows d)).
  - apply H. now apply frames_grow_write.
  - apply wp_raise. auto.
Qed.

Lemma wp_setitem_scalar (w0 : world) (l : loc) (c : string) (v : cell)
    (Q : result unit -> world -> Prop) (w : world) :
  frames_grow w0 w -> fresh_df w0 l ->
  (forall r w', frames_grow w0 w' -> Q r w') ->
  wp (setitem_scalar l c v) Q w.
Proof.
  intros G F H. apply wp_bind, wp_read_df. intros [e|d]; auto.
  apply H. now apply frames_grow_write.
Qed.

Lemma wp_alloc_df (w0 : world) (d : DataFrame)
    (Q : result loc -> world -> Prop) (w : world) :
  frames_grow w0 w ->
  (forall l w', frames_grow w0 w' -> fresh_df w0 l -> Q (inr l) w') ->
  wp (alloc_df d) Q w.
Proof.
  intros G H. destruct (frames_grow_alloc d G). now apply H.
Qed.

Lemma wp_copy (w0 : world) (df : loc) (Q : result loc -> world -> Prop)
    (w : world) :
  frames_grow w0 w ->
  (forall e, Q (inl e) w) ->
  (forall l w', frames_grow w0 w' -> fresh_df w0 l -> Q (inr l) w') ->
  wp (copy df) Q w.
Proof.
  intros G He H. apply wp_bind, wp_read_df. intros [e|d]; auto.
  now apply wp_alloc_df with (w0 := w0).
Qed.

Ltac frame_step w0 :=
  cbv beta iota;
  match goal with
  | |- wp (bind _ _) _ _ => apply wp_bind
  | |- wp (copy _) _ _ =>
      apply wp_copy with (w0 := w0); [assumption | intros ? | intros ? ? ? ?]
  | |- wp (has_column _ _) _ _ => apply wp_has_column; intros [?|?]
  | |- wp (getitem _ _) _ _ => apply wp_getitem; intros [?|?]
  | |- wp (get _ _) _ _ => apply wp_get; intros [?|?]
  | |- wp (read_df _) _ _ => apply wp_read_df; intros [?|?]
  | |- wp (lift ?r) _ _ => apply wp_lift; destruct r
  | |- wp (setitem _ _ _) _ _ =>
      apply wp_setitem with (w0 := w0); [assumption | assumption | intros [?|[]] ? ?]
  | |- wp (setitem_scalar _ _ _) _ _ =>
      apply wp_setitem_scalar with (w0 := w0);
      [assumption | assumption | intros [?|[]] ? ?]
  | |- wp (alloc_df _) _ _ =>
      apply wp_alloc_df with (w0 := w0); [assumption | intros ? ? ? ?]
  | |- wp (ret _) _ _ => apply wp_ret
  | |- wp (raise _) _ _ => apply wp_raise
  | |- wp (if ?b then _ else _) _ _ => destruct b
  | |- wp (match ?x with _ => _ end) _ _ => destruct x
  | |- returns_fresh _ (inl _) _ => split; [assumption | discriminate]
  | |- returns_fresh _ (inr _) _ =>
      split; [assumption
             | let E := fresh in intros ? E; inversion E; subst; assumption]
  end.

Ltac frame_auto w0 := repeat frame_step w0.

Lemma flag_intentional_frame (w0 w : world) (df : loc) (causa_col out_col : string)
    (lower upper : Z) :
  frames_grow w0 w ->
  wp (flag_intentional df causa_col out_col lower upper) (returns_fresh w0) w.
Proof. intros G. unfold flag_intentional. frame_auto w0. Qed.

Lemma select_columns_frame (w0 w : world) (df : loc) (columns : option (list string)) :
  frames_grow w0 w ->
  wp (select_columns df columns) (returns_fresh w0) w.
Proof. intros G. unfold select_columns. frame_auto w0. Qed.

Lemma add_hectareas_alias_frame (w0 w : world) (df : loc) (source target : string) :
  frames_grow w0 w ->
  wp (add_hectareas_alias df source target) (returns_fresh w0) w.
Proof. intros G. unfold add_hectareas_alias. frame_auto w0. Qed.

Lemma coerce_resources_frame (w0 w : world) (out : loc) (names : list string) :
  frames_grow w0 w -> fresh_df w0 out ->
  wp (coerce_resources out names) (fun _ w' => frames_grow w0 w') w.
Proof.
  revert w; induction names as [|c names IH]; intros w G F; simpl.
  - now apply wp_ret.
  - frame_auto w0; auto.
Qed.

Lemma coerce_types_frame_ok (w0 w : world) (df : loc) :
  frames_grow w0 w -> wp (coerce_types df) (returns_fresh w0) w.
Proof.
  intros G. unfold coerce_types. frame_auto w0;
    (eapply wp_conseq;
     [apply coerce_resources_frame with (w0 := w0); assumption
     | intros [?|[]] ? ?; frame_auto w0]).
Qed.

Lemma prepare_wildfires_frame (w0 w : world) (df_raw : loc)
    (columns : option (list string)) :
  frames_grow w0 w -> wp (prepare_wildfires df_raw columns) (returns_fresh w0) w.
Proof.
  intros G. unfold prepare_wildfires.
  apply wp_bind. eapply wp_conseq; [now apply select_columns_frame with (w0 := w0)|].
  intros [e|l1] w1 [G1 F1]; [now split|].
  apply wp_bind. eapply wp_conseq; [now apply flag_intentional_frame with (w0 := w0)|].
  intros [e|l2] w2 [G2 F2]; [now split|].
  apply wp_bind. eapply wp_conseq; [now apply coerce_types_frame_ok with (w0 := w0)|].
  intros [e|l3] w3 [G3 F3]; [now split|].
  apply wp_bind. eapply wp_conseq; [now apply add_hectareas_alias_frame with (w0 := w0)|].
  intros [e|l4] w4 [G4 F4]; [now split|].
  apply wp_ret. split; auto.
Qed.

Lemma frames_grow_unchanged (w w' : world) : frames_grow w w' -> unchanged w w'.
Proof.
  intros [[ext E] G]. split.
  - intros l d H. rewrite E. rewrite nth_error_app1; auto.
    apply nth_error_Some. congruence.
  - intros l g H. now rewrite G.
Qed.

Lemma geos_grow_unchanged (w w' : world) : geos_grow w w' -> unchanged w w'.
Proof.
  intros [F [ext E]]. split.
  - intros l d H. now rewrite F.
  - intros l g H. rewrite E. rewrite nth_error_app1; auto.
    apply nth_error_Some. congruence.
Qed.

Lemma returns_fresh_unchanged (m : M loc) (w : world) :
  wp m (returns_fresh w) w -> unchanged w (snd (m w)).
Proof. intros [G _]. now apply frames_grow_unchanged. Qed.

(** With [deepcopy_geo=True], [enrich_geojson_with_dataframe] writes only
    to the copy it made. *)
Lemma enrich_frame (w : world) (df geojson : loc) (geo_name_field df_key : string)
    (columns : option (list string)) :
  let out := enrich_geojson_with_dataframe df geojson geo_name_field
               df_key columns true w in
  geos_grow w (snd out) /\ forall l, fst out = inr l -> fresh_geo w l.
Proof.
  assert (R : geos_grow w w) by (split; auto; exists []; now rewrite app_nil_r).
  assert (X : forall (e : exn) (l : loc), @inl exn loc e = inr l -> fresh_geo w l)
    by discriminate.
  assert (Y : forall l : loc, @inr exn loc (length (geos w)) = inr l -> fresh_geo w l).
  { intros l E. inversion E. unfold fresh_geo. lia. }
  cbv zeta.
  unfold enrich_geojson_with_dataframe, bind, read_geo, read_df, alloc_geo.
  destruct (nth_error (geos w) geojson) as [g|]; cbn [fst snd]; try solve [split; eauto].
  cbn [frames geos].
  assert (R1 : geos_grow w (mkWorld (frames w) (geos w ++ [g])))
    by (split; simpl; eauto).
  destruct (nth_error (frames w) df) as [d|]; cbn [fst snd]; try solve [split; eauto].
  match goal with
  | |- context [lift ?r] => destruct r as [e|lk]
  end; cbn [lift raise ret fst snd]; try solve [split; eauto].
  cbn [frames geos]. rewrite nth_error_app_last.
  destruct (features g) as [fs|]; cbn [fst snd ret]; try solve [split; eauto].
  match goal with
  | |- context [enrich_features ?a ?b ?c ?d] =>
      destruct (enrich_features a b c d) as [e fs']
  end.
  unfold write_geo; cbn [frames geos].
  rewrite list_set_app_last.
  destruct e; cbn [raise ret fst snd];
    (split; [split; simpl; eauto | auto; discriminate]).
Qed.

(** C5: no core transformation changes an object it was given.  Whatever
    the input, and whether they return or raise, [select_columns],
    [flag_intentional], [coerce_types], [add_hectareas_alias] and
    [prepare_wildfires] leave every frame and every GeoJSON object of the
    store as it was and return a frame allocated by the call; and so does
    [enrich_geojson_with_dataframe] with [deepcopy_geo=True], whose result
    is a GeoJSON object allocated by the call. *)
Theorem transformations_do_not_mutate :
  (forall w df columns,
      let out := select_columns df columns w in
      unchanged w (snd out) /\ forall l, fst out = inr l -> fresh_df w l)
  /\ (forall w df causa_col out_col lower upper,
      let out := flag_intentional df causa_col out_col lower upper w in
      unchanged w (snd out) /\ forall l, fst out = inr l -> fresh_df w l)
  /\ (forall w df,
      let out := coerce_types df w in
      unchanged w (snd out) /\ forall l, fst out = inr l -> fresh_df w l)
  /\ (forall w df source target,
      let out := add_hectareas_alias df source target w in
      unchanged w (snd out) /\ forall l, fst out = inr l -> fresh_df w l)
  /\ (forall w df_raw columns,
      let out := prepare_wildfires df_raw columns w in
      unchanged w (snd out) /\ forall l, fst out = inr l -> fresh_df w l)
  /\ (forall w df geojson geo_name_field df_key columns,
      let out := enrich_geojson_with_dataframe df geojson geo_name_field
                   df_key columns true w in
      unchanged w (snd out) /\ forall l, fst out = inr l -> fresh_geo w l).
Proof.
  assert (U : forall (m : M loc) (w : world),
             wp m (returns_fresh w) w ->
             unchanged w (snd (m w)) /\ forall l, fst (m w) = inr l -> fresh_df w l).
  { intros m w [G F]. split; auto. now apply frames_grow_unchanged. }
  repeat apply conj; intros; subst out.
  - apply U, select_columns_frame, frames_grow_refl.
  - apply U, flag_intentional_frame, frames_grow_refl.
  - apply U, coerce_types_frame_ok, frames_grow_refl.
  - apply U, add_hectareas_alias_frame, frames_grow_refl.
  - apply U, prepare_wildfires_frame, frames_grow_refl.
  - split.
    + apply geos_grow_unchanged, enrich_frame.
    + apply enrich_frame.
Qed.

(** ** geo.py: resolving province names *)

Lemma fillna_from_length (s other : Series) :
  length (fillna_from s other) = length s.
Proof.
  revert other; induction s as [|c s IH]; intros [|o other]; simpl; auto.
Qed.

Lemma fillna_from_nth (s other : Series) (i : nat) (c o : cell) :
  nth_error s i = Some c -> nth_error other i = Some o ->
  nth_error (fillna_from s other) i = Some (if isna c then o else c).
Proof.
  revert other i; induction s as [|x s IH]; intros [|y other] [|i]; simpl;
    intros H1 H2; try discriminate.
  - now inversion H1; inversion H2; subst.
  - auto.
Qed.

Lemma traverse_coerce_code (ids : Series) :
  forallb integral ids = true ->
  traverse coerce_code ids = inr (map code_of ids).
Proof.
  intros H. apply traverse_map. intros c I.
  rewrite forallb_forall in H. specialize (H c I).
  unfold integral, code_of in *. now destruct (coerce_code c).
Qed.


Lemma map_province_names_present (w : world) (df : loc) (d : DataFrame)
    (pm : provinces_map) (id_col name_col : string) (ids old : Series) :
  nth_error (frames w) df = Some d -> df_wf d ->
  df_col d id_col = Some ids -> df_col d name_col = Some old ->
  id_col <> name_col ->
  forallb integral ids = true ->
  let ids' := map (fun z => CNum (Int z)) (map code_of ids) in
  let names := fillna_from (map (map_dict pm) ids') old in
  map_province_names df pm id_col name_col w
  = (inr (length (frames w)),
     mkWorld (frames w ++ [df_with (df_with d id_col ids') name_col names])
             (geos w)).
Proof.
  intros Hd W I O NE OK ids' names. unfold map_province_names.
  pose proof (df_wf_col _ W I) as LI.
  erewrite bind_ok by (apply copy_run; eauto).
  erewrite bind_ok by apply has_column_last.
  rewrite df_has_col, I.
  erewrite bind_ok; [reflexivity|].
  erewrite bind_ok by (apply getitem_last; eauto).
  rewrite traverse_coerce_code by auto. cbn [lift].
  erewrite bind_ok by reflexivity.
  erewrite bind_ok by (apply setitem_last; rewrite !length_map; auto).
  erewrite bind_ok by (apply getitem_last; apply df_col_with_same).
  erewrite bind_ok by apply get_last.
  rewrite df_col_with_other by congruence. rewrite O. cbn [fillna_get lift].
  erewrite bind_ok by reflexivity.
  apply setitem_last. cbn [nrows df_with]. unfold names, ids'.
  rewrite fillna_from_length, !length_map. auto.
Qed.



(** ** geo.py: the province lookup *)

Lemma assoc_get_set_Z {V} (k z : Z) (v : V) (l : list (Z * V)) :
  assoc_get Z.eqb z (assoc_set Z.eqb k v l)
  = if Z.eqb z k then Some v else assoc_get Z.eqb z l.
Proof.
  induction l as [|[k' v'] l IH]; simpl.
  - reflexivity.
  - destruct (Z.eqb_spec k k'); simpl.
    + subst. destruct (Z.eqb z k'); reflexivity.
    + rewrite IH. destruct (Z.eqb_spec z k'); auto.
      subst. destruct (Z.eqb_spec k' k); congruence.
Qed.

Lemma build_from_spec (feats : list Feature) (code_key name_key : string)
    (acc : provinces_map) :
  codes_convert feats code_key name_key = true ->
  exists pm,
    build_from feats code_key name_key acc = inr pm
    /\ forall z, assoc_get Z.eqb z pm
                 = match last_name feats code_key name_key z with
                   | Some n => Some n
                   | None => assoc_get Z.eqb z acc
                   end.
Proof.
  revert acc; induction feats as [|f rest IH]; intros acc H; simpl in *.
  - eauto.
  - apply andb_true_iff in H. destruct H as [Hf Hr].
    apply andb_true_iff in Hf. destruct Hf as [Nb Hf].
    apply negb_true_iff in Nb. rewrite Nb.
    unfold carries, assoc_mem.
    destruct (assoc_get String.eqb code_key (feat_props f)) as [c|];
      [destruct (assoc_get String.eqb name_key (feat_props f)) as [n|]|];
      cbn [andb].
    + destruct (py_int c) as [e|k]; [discriminate|].
      destruct (IH (assoc_set Z.eqb k n acc) Hr) as [pm [B G]].
      exists pm. split; auto. intros z. rewrite G, assoc_get_set_Z.
      destruct (last_name rest code_key name_key z); auto.
      now destruct (Z.eqb z k).
    + destruct (IH acc Hr) as [pm [B G]]. exists pm. split; auto.
      intros z. rewrite G. destruct (last_name rest code_key name_key z); auto.
    + destruct (IH acc Hr) as [pm [B G]]. exists pm. split; auto.
      intros z. rewrite G. destruct (last_name rest code_key name_key z); auto.
Qed.

(** The names [map_province_names] writes, whether or not the two columns
    are one: the previous names are read after the identifiers are
    written. *)
Lemma map_province_names_names (w : world) (df : loc) (d : DataFrame)
    (pm : provinces_map) (id_col name_col : string) (ids old : Series) :
  nth_error (frames w) df = Some d -> df_wf d ->
  df_col d id_col = Some ids -> df_col d name_col = Some old ->
  forallb integral ids = true ->
  let ids' := map (fun z => CNum (Int z)) (map code_of ids) in
  let prev := if String.eqb name_col id_col then ids' else old in
  let names := fillna_from (map (map_dict pm) ids') prev in
  map_province_names df pm id_col name_col w
  = (inr (length (frames w)),
     mkWorld (frames w ++ [df_with (df_with d id_col ids') name_col names])
             (geos w)).
Proof.
  intros Hd W I O OK ids' prev names. unfold map_province_names.
  pose proof (df_wf_col _ W I) as LI.
  erewrite bind_ok by (apply copy_run; eauto).
  erewrite bind_ok by apply has_column_last.
  rewrite df_has_col, I.
  erewrite bind_ok; [reflexivity|].
  erewrite bind_ok by (apply getitem_last; eauto).
  rewrite traverse_coerce_code by auto. cbn [lift].
  erewrite bind_ok by reflexivity.
  erewrite bind_ok by (apply setitem_last; rewrite !length_map; auto).
  erewrite bind_ok by (apply getitem_last; apply df_col_with_same).
  erewrite bind_ok by apply get_last.
  assert (P : df_col (df_with d id_col ids') name_col = Some prev).
  { unfold prev. destruct (String.eqb_spec name_col id_col) as [-> | NE].
    - apply df_col_with_same.
    - now rewrite df_col_with_other. }
  fold ids'. rewrite P. cbn [fillna_get lift].
  erewrite bind_ok by reflexivity.
  apply setitem_last. cbn [nrows df_with]. unfold names, ids'.
  rewrite fillna_from_length, !length_map. auto.
Qed.

(** C3, as amended: build the lookup from a GeoJSON collection in which
    no feature has a null property bag and every code [int()] accepts,
    then resolve the names of a table that has both columns and whose
    identifiers are integer-valued, missing or not numbers.  Both calls
    return, and every row whose code is carried by a feature takes the
    name of the last feature carrying that code, when that name is not
    null. *)
Theorem province_round_trip (w : world) (geo df : loc) (g : GeoJSON)
    (d : DataFrame) (code_key name_key id_col name_col : string)
    (ids old : Series) :
  nth_error (geos w) geo = Some g ->
  nth_error (frames w) df = Some d -> df_wf d ->
  df_col d id_col = Some ids -> df_col d name_col = Some old ->
  forallb integral ids = true ->
  codes_convert (geo_features g) code_key name_key = true ->
  exists pm d' names,
    build_provinces_map geo code_key name_key w = (inr pm, w)
    /\ map_province_names df pm id_col name_col w
       = (inr (length (frames w)), mkWorld (frames w ++ [d']) (geos w))
    /\ df_col d' name_col = Some names
    /\ forall i c n,
         nth_error ids i = Some c ->
         last_name (geo_features g) code_key name_key (code_of c) = Some n ->
         n <> JNull ->
         nth_error names i = Some (cell_of_json n).
Proof.
  intros Hg Hd W I O OK CC.
  destruct (@build_from_spec (geo_features g) code_key name_key [] CC) as [pm [B G]].
  exists pm.
  pose proof (@map_province_names_names w df d pm id_col name_col ids old
                Hd W I O OK) as R.
  cbv zeta in R. eexists _, _. split; [|split; [exact R|split]].
  - unfold build_provinces_map, bind, read_geo. rewrite Hg, B. reflexivity.
  - apply df_col_with_same.
  - intros i c n Hi L NN.
    assert (Ho : exists o,
              nth_error (if String.eqb name_col id_col
                         then map (fun z => CNum (Int z)) (map code_of ids)
                         else old) i = Some o).
    { destruct (String.eqb name_col id_col).
      - rewrite !nth_error_map, Hi. simpl. eauto.
      - destruct (nth_error old i) eqn:E; eauto.
        apply nth_error_None in E.
        assert (i < length ids)%nat by (apply nth_error_Some; congruence).
        rewrite (df_wf_col _ W I) in *. rewrite (df_wf_col _ W O) in *. lia. }
    destruct Ho as [o Ho].
    erewrite fillna_from_nth; [|rewrite !nth_error_map, Hi; reflexivity|exact Ho].
    simpl. rewrite G, L. destruct n; simpl; congruence.
Qed.

(** ** geo.py: enriching the GeoJSON *)

Lemma to_jsonable_scalar (c : cell) :
  _to_jsonable (Scalar c) = inr (json_of_cell c).
Proof. now destruct c. Qed.

Lemma str_mem_In (c : string) (l : list string) :
  str_mem c l = true <-> In c l.
Proof.
  unfold str_mem. rewrite existsb_exists. split.
  - intros [x [I E]]. apply String.eqb_eq in E. now subst.
  - intros I. exists c. split; auto. apply String.eqb_refl.
Qed.

Lemma assoc_get_set_str {V} (k k' : string) (v : V) (l : list (string * V)) :
  assoc_get String.eqb k' (assoc_set String.eqb k v l)
  = if String.eqb k' k then Some v else assoc_get String.eqb k' l.
Proof.
  destruct (String.eqb_spec k' k).
  - subst. apply assoc_get_set_same.
  - now apply assoc_get_set_other.
Qed.

Lemma null_cols_get (cols_to_copy : list string) (p : props) (k : string) :
  assoc_get String.eqb k (null_cols cols_to_copy p)
  = if str_mem k cols_to_copy then Some JNull else assoc_get String.eqb k p.
Proof.
  revert p; induction cols_to_copy as [|c rest IH]; intros p; simpl; auto.
  rewrite IH, assoc_get_set_str.
  destruct (str_mem k rest) eqn:M.
  - now rewrite orb_true_r.
  - now rewrite orb_false_r.
Qed.

Lemma copy_cols_get (lk : Lookup) (rows : list nat) (cols_to_copy : list string)
    (p : props) :
  (forall col, In col cols_to_copy -> exists c, pick lk rows col = Scalar c) ->
  exists p',
    copy_cols lk rows cols_to_copy p = (None, p')
    /\ forall k, assoc_get String.eqb k p'
                 = if str_mem k cols_to_copy then Some (copied_value lk rows k)
                   else assoc_get String.eqb k p.
Proof.
  revert p; induction cols_to_copy as [|c rest IH]; intros p H; simpl.
  - eauto.
  - destruct (H c) as [x Hx]; [simpl; auto|].
    rewrite Hx, to_jsonable_scalar.
    destruct (IH (assoc_set String.eqb c (json_of_cell x) p)) as [p' [R G]].
    { intros col I. apply H. simpl; auto. }
    exists p'. split; auto. intros k. rewrite G, assoc_get_set_str.
    destruct (str_mem k rest) eqn:M.
    + now rewrite orb_true_r.
    + rewrite orb_false_r. destruct (String.eqb_spec k c); auto.
      subst. unfold copied_value. now rewrite Hx, to_jsonable_scalar.
Qed.

Lemma matching_rows_bound (key : json) (index : Series) (a i : nat) :
  In i (matching_rows key index a) -> (a <= i < a + length index)%nat.
Proof.
  revert a; induction index as [|c rest IH]; intros a; simpl; [tauto|].
  destruct (json_cell_eqb key c); simpl; intros H.
  - destruct H as [<- | H]; [lia|]. apply IH in H. lia.
  - apply IH in H. lia.
Qed.

Lemma selected_columns_In (d : DataFrame) (df_key : string)
    (columns : option (list string)) (col : string) :
  In col (selected_columns d df_key columns) ->
  col <> df_key /\ exists s, df_col d col = Some s.
Proof.
  assert (H : df_has d col = true -> exists s, df_col d col = Some s).
  { rewrite df_has_col. destruct (df_col d col); eauto; discriminate. }
  unfold selected_columns. destruct columns as [cs|]; rewrite filter_In.
  - intros [_ E]. apply andb_true_iff in E. destruct E as [E1 E2].
    split; auto. apply negb_true_iff in E2. now apply String.eqb_neq.
  - intros [I E]. split.
    + apply negb_true_iff in E. now apply String.eqb_neq.
    + apply H. rewrite <- str_mem_columns. now apply str_mem_In.
Qed.

Lemma selected_columns_NoDup (d : DataFrame) (df_key : string)
    (columns : option (list string)) :
  distinct_columns d df_key columns -> NoDup (selected_columns d df_key columns).
Proof. now intros [_ H]. Qed.

(** A label carried by one column selects that column. *)
Lemma filter_unique_label {V} (col : string) (s : V) (l : list (string * V)) :
  NoDup (map fst l) -> assoc_get String.eqb col l = Some s ->
  filter (fun p => String.eqb (fst p) col) l = [(col, s)].
Proof.
  induction l as [|[k v] l IH]; simpl; intros ND A; [discriminate|].
  inversion ND as [|? ? NI ND']; subst.
  rewrite (String.eqb_sym k col).
  destruct (String.eqb_spec col k).
  - subst. inversion A; subst. f_equal.
    clear - NI. induction l as [|[k' v'] l IH]; simpl in *; auto.
    destruct (String.eqb_spec k' k).
    + subst. exfalso. apply NI. now left.
    + apply IH. intros I. apply NI. now right.
  - now apply IH.
Qed.

Lemma filter_label_drop_key {V} (key col : string) (l : list (string * V)) :
  col <> key ->
  filter (fun p => String.eqb (fst p) col)
    (filter (fun p => negb (String.eqb (fst p) key)) l)
  = filter (fun p => String.eqb (fst p) col) l.
Proof.
  intros N. induction l as [|[k v] l IH]; simpl; auto.
  destruct (String.eqb_spec k key); simpl.
  - subst. destruct (String.eqb_spec key col); [congruence | exact IH].
  - destruct (String.eqb_spec k col); simpl; now rewrite IH.
Qed.

Lemma assoc_get_drop_key {V} (key col : string) (l : list (string * V)) :
  col <> key ->
  assoc_get String.eqb col
    (filter (fun p => negb (String.eqb (fst p) key)) l)
  = assoc_get String.eqb col l.
Proof.
  intros N. induction l as [|[k v] l IH]; simpl; auto.
  destruct (String.eqb_spec k key); simpl.
  - subst. destruct (String.eqb_spec col key); congruence.
  - now rewrite IH.
Qed.

Lemma filter_other_label {V} (x col : string) (l : list (string * V)) :
  x <> col ->
  filter (fun p => String.eqb (fst p) col)
    (filter (fun p => String.eqb (fst p) x) l) = [].
Proof.
  intros N. induction l as [|[k v] l IH]; simpl; auto.
  destruct (String.eqb_spec k x); simpl; auto.
  subst. destruct (String.eqb_spec x col); [contradiction | exact IH].
Qed.

Lemma filter_same_label {V} (col : string) (l : list (string * V)) :
  filter (fun p => String.eqb (fst p) col)
    (filter (fun p => String.eqb (fst p) col) l)
  = filter (fun p => String.eqb (fst p) col) l.
Proof.
  induction l as [|[k v] l IH]; simpl; auto.
  destruct (String.eqb k col) eqn:E; simpl; [rewrite E; now f_equal | exact IH].
Qed.

Lemma lookup_take_entries (lk : Lookup) (names : list string) (col : string)
    (s : Series) :
  NoDup names -> In col names ->
  filter (fun p => String.eqb (fst p) col) (lk_cols lk) = [(col, s)] ->
  filter (fun p => String.eqb (fst p) col) (lk_cols (lookup_take lk names))
  = [(col, s)].
Proof.
  intros ND I A. unfold lookup_take; simpl.
  induction names as [|c names IH]; simpl; [contradiction|].
  inversion ND as [|? ? NI ND']; subst.
  rewrite filter_app.
  assert (Z : forall l, ~ In col l ->
    filter (fun p : string * Series => String.eqb (fst p) col)
      (flat_map (fun c => filter (fun p => String.eqb (fst p) c) (lk_cols lk))
                l) = []).
  { induction l as [|x l IHl]; simpl; intros NIl; auto.
    rewrite filter_app, IHl by (intros I'; apply NIl; now right).
    rewrite filter_other_label by (intros ->; apply NIl; now left).
    reflexivity. }
  destruct I as [-> | I].
  - rewrite filter_same_label, A. now rewrite Z.
  - rewrite IH by auto.
    rewrite filter_other_label by (intros ->; contradiction).
    reflexivity.
Qed.

Lemma pick_scalar (keys : Series) (d : DataFrame) (df_key : string)
    (columns : option (list string)) (col : string) (s : Series) (r : nat) :
  distinct_columns d df_key columns ->
  In col (selected_columns d df_key columns) ->
  df_col d col = Some s ->
  pick (lookup_of keys d df_key (selected_columns d df_key columns)) [r] col
  = Scalar (nth r s CNaN).
Proof.
  intros ND I C.
  destruct (selected_columns_In _ _ _ _ I) as [NK _].
  unfold lookup_of, pick.
  destruct (selected_columns d df_key columns) as [|c0 rest] eqn:E;
    [contradiction|].
  rewrite <- E in *.
  rewrite lookup_take_entries with (s := s); auto.
  - destruct (nth_error s r) eqn:N.
    + now rewrite (nth_error_nth _ _ CNaN N).
    + apply nth_error_None in N. now rewrite nth_overflow.
  - now apply selected_columns_NoDup.
  - simpl. rewrite filter_label_drop_key by auto.
    apply filter_unique_label; [apply ND | exact C].
Qed.

Lemma enrich_feature_ok (lk : Lookup) (cols_to_copy : list string)
    (geo_name_field : string) (f : Feature) :
  let rows := matching_rows (feature_key f geo_name_field) (lk_index lk) 0 in
  null_bag f = false ->
  (forall col, In col cols_to_copy -> rows <> [] ->
               exists c, pick lk rows col = Scalar c) ->
  exists p',
    enrich_feature lk cols_to_copy geo_name_field f
    = (None, mkFeature (Bag p') (geometry f))
    /\ forall k, assoc_get String.eqb k p'
                 = if str_mem k cols_to_copy
                   then Some (match rows with
                              | [] => JNull
                              | _ => copied_value lk rows k
                              end)
                   else assoc_get String.eqb k (feat_props f).
Proof.
  intros rows NB H. unfold enrich_feature. rewrite NB.
  fold (feature_key f geo_name_field).
  fold rows. destruct rows as [|r rest] eqn:E.
  - eexists. split; [reflexivity|]. apply null_cols_get.
  - destruct (@copy_cols_get lk (r :: rest) cols_to_copy (feat_props f))
      as [p' [R G]].
    { intros col I. apply H; auto. discriminate. }
    rewrite R. eauto.
Qed.


Lemma enrich_unfold (df geojson : loc) (geo_name_field df_key : string)
    (columns : option (list string)) (deepcopy_geo : bool) (w : world) :
  enrich_geojson_with_dataframe df geojson geo_name_field df_key columns
    deepcopy_geo w
  = bind (if deepcopy_geo
          then bind (read_geo geojson) (fun g => alloc_geo g)
          else ret geojson)
      (fun gj =>
         bind (read_df df)
           (fun d =>
              bind (lift (set_index d df_key))
                (fun lk =>
                   bind (read_geo gj)
                     (fun g =>
                        match features g with
                        | None => ret gj
                        | Some fs =>
                            let (e, fs') :=
                              enrich_features
                                (lookup_of (lk_index lk) d df_key
                                   (selected_columns d df_key columns))
                                (selected_columns d df_key columns)
                                geo_name_field fs in
                            bind (write_geo gj (mkGeo (Some fs')))
                              (fun _ => match e with
                                        | Some err => raise err
                                        | None => ret gj
                                        end)
                        end)))) w.
Proof.
  unfold enrich_geojson_with_dataframe, bind, lift, set_index, lookup_of,
    selected_columns.
  destruct (if deepcopy_geo then _ else _) as [[e|gj] w1]; auto.
  destruct (read_df df w1) as [[e|d] w2]; auto.
  destruct (df_col d df_key); auto.
Qed.




Lemma copy_cols_err (lk : Lookup) (rows : list nat) (cols_to_copy : list string)
    (p : props) (e : exn) :
  fst (copy_cols lk rows cols_to_copy p) = Some e -> e = ambiguous.
Proof.
  revert p; induction cols_to_copy as [|c rest IH]; intros p; cbn [copy_cols].
  - discriminate.
  - destruct (pick lk rows c).
    + rewrite to_jsonable_scalar. apply IH.
    + cbn. now intros [= <-].
Qed.

Lemma copy_cols_nonscalar (lk : Lookup) (rows : list nat)
    (cols_to_copy : list string) (p : props) :
  (2 <= length rows)%nat -> cols_to_copy <> [] ->
  fst (copy_cols lk rows cols_to_copy p) = Some ambiguous.
Proof.
  intros L N. destruct cols_to_copy as [|c rest]; [congruence|].
  destruct rows as [|r1 [|r2 rows]]; simpl in L; try lia.
  reflexivity.
Qed.

Lemma enrich_feature_err (lk : Lookup) (cols_to_copy : list string)
    (geo_name_field : string) (f : Feature) (e : exn) :
  fst (enrich_feature lk cols_to_copy geo_name_field f) = Some e ->
  e = if null_bag f then none_has_no_get else ambiguous.
Proof.
  unfold enrich_feature. destruct (null_bag f); [now intros [= <-]|].
  destruct (matching_rows _ (lk_index lk) 0) as [|r rows]; simpl; [discriminate|].
  destruct (copy_cols lk (r :: rows) cols_to_copy (feat_props f)) as [e' p'] eqn:C.
  simpl. intros ->. apply (@copy_cols_err lk (r :: rows) cols_to_copy (feat_props f)).
  now rewrite C.
Qed.

(** The loop stops at the first feature that raises. *)
Lemma enrich_features_raise (lk : Lookup) (cols_to_copy : list string)
    (geo_name_field : string) (fs : list Feature) (f : Feature) (e0 : exn) :
  In f fs ->
  fst (enrich_feature lk cols_to_copy geo_name_field f) = Some e0 ->
  exists e,
    fst (enrich_features lk cols_to_copy geo_name_field fs) = Some e
    /\ (no_null_bag fs = true -> e = ambiguous).
Proof.
  intros I E. induction fs as [|x fs IH]; simpl; [contradiction|].
  destruct (enrich_feature lk cols_to_copy geo_name_field x) as [[e|] x'] eqn:X.
  - exists e. split; [reflexivity|]. intros NB.
    apply andb_true_iff in NB. destruct NB as [NB _].
    apply negb_true_iff in NB.
    pose proof (@enrich_feature_err lk cols_to_copy geo_name_field x e) as R.
    rewrite X, NB in R. now apply R.
  - destruct I as [-> | I].
    + rewrite X in E. discriminate.
    + destruct (IH I) as [e [R A]]. exists e.
      destruct (enrich_features lk cols_to_copy geo_name_field fs).
      split; [exact R|]. intros NB. apply A.
      apply andb_true_iff in NB. now destruct NB.
Qed.

Lemma enrich_raises (w : world) (df geojson : loc) (d : DataFrame) (g : GeoJSON)
    (geo_name_field df_key : string) (columns : option (list string))
    (keys : Series) (fs : list Feature) (f : Feature) (deepcopy_geo : bool) :
  nth_error (frames w) df = Some d ->
  nth_error (geos w) geojson = Some g ->
  df_col d df_key = Some keys ->
  features g = Some fs ->
  selected_columns d df_key columns <> [] ->
  In f fs ->
  (2 <= length (matching_rows (feature_key f geo_name_field) keys 0))%nat ->
  exists e,
    fst (enrich_geojson_with_dataframe df geojson geo_name_field df_key columns
           deepcopy_geo w) = inl e
    /\ (no_null_bag fs = true -> e = ambiguous).
Proof.
  intros Hd Hg K F NE I L.
  set (cs := selected_columns d df_key columns) in *.
  set (lk := lookup_of keys d df_key cs).
  assert (LI : lk_index lk = keys).
  { unfold lk, lookup_of. now destruct cs. }
  assert (E : exists e,
            fst (enrich_features lk cs geo_name_field fs) = Some e
            /\ (no_null_bag fs = true -> e = ambiguous)).
  { assert (E0 : exists e0, fst (enrich_feature lk cs geo_name_field f) = Some e0).
    { destruct (null_bag f) eqn:NBf.
      - exists none_has_no_get. unfold enrich_feature. now rewrite NBf.
      - exists ambiguous. unfold enrich_feature. rewrite NBf.
        fold (feature_key f geo_name_field). rewrite LI.
        destruct (matching_rows (feature_key f geo_name_field) keys 0)
          as [|r rows] eqn:M; [simpl in L; lia|].
        pose proof (@copy_cols_nonscalar lk (r :: rows) cs (feat_props f) L NE)
          as C.
        destruct (copy_cols lk (r :: rows) cs (feat_props f)). exact C. }
    destruct E0 as [e0 E0]. now apply enrich_features_raise with (f := f) (e0 := e0). }
  destruct E as [e [E A]]. exists e. split; [|exact A].
  rewrite enrich_unfold.
  assert (T : forall gj w1,
    nth_error (frames w1) df = Some d -> nth_error (geos w1) gj = Some g ->
    fst (bind (read_df df)
           (fun d0 =>
              bind (lift (set_index d0 df_key))
                (fun lk0 =>
                   bind (read_geo gj)
                     (fun g0 =>
                        match features g0 with
                        | None => ret gj
                        | Some fs0 =>
                            let (e, fs') :=
                              enrich_features
                                (lookup_of (lk_index lk0) d0 df_key
                                   (selected_columns d0 df_key columns))
                                (selected_columns d0 df_key columns)
                                geo_name_field fs0 in
                            bind (write_geo gj (mkGeo (Some fs')))
                              (fun _ => match e with
                                        | Some err => raise err
                                        | None => ret gj
                                        end)
                        end))) w1) = inl e).
  { intros gj w1 H1 H2.
    erewrite bind_ok by (apply read_df_run; exact H1).
    unfold set_index. rewrite K. cbn [lift].
    erewrite bind_ok by reflexivity.
    erewrite bind_ok by (unfold read_geo; rewrite H2; reflexivity).
    rewrite F. cbn [lk_index]. fold cs. fold lk.
    destruct (enrich_features lk cs geo_name_field fs) as [e1 fs'].
    simpl in E. inversion E; subst e1. reflexivity. }
  destruct deepcopy_geo.
  - erewrite bind_ok.
    2:{ unfold bind, read_geo, alloc_geo. rewrite Hg. reflexivity. }
    apply T; cbn [frames geos]; auto. apply nth_error_app_last.
  - erewrite bind_ok by reflexivity. now apply T.
Qed.

(** C10, as amended: when at least one column is selected for copying,
    [enrich_geojson_with_dataframe] does not complete as soon as some
    feature name matches two or more rows of the key column: the row lookup
    returns several rows and [_to_jsonable] rejects them with a
    [ValueError], unless a feature with a null property bag made the loop
    raise before.  A table with two rows for province A and a feature named
    A is such an input. *)
Theorem enrich_needs_unique_keys :
  (forall w df geojson d g geo_name_field df_key columns keys fs f deepcopy_geo,
      nth_error (frames w) df = Some d ->
      nth_error (geos w) geojson = Some g ->
      df_col d df_key = Some keys ->
      features g = Some fs ->
      selected_columns d df_key columns <> [] ->
      In f fs ->
      (2 <= length (matching_rows (feature_key f geo_name_field) keys 0))%nat ->
      exists e,
        fst (enrich_geojson_with_dataframe df geojson geo_name_field df_key
               columns deepcopy_geo w) = inl e
        /\ (no_null_bag fs = true -> e = ambiguous))
  /\ fst (enrich_geojson_with_dataframe 0%nat 0%nat "name" "provincia" None true
            world_dup) = inl ambiguous.
Proof.
  split.
  - intros. eapply enrich_raises; eauto.
  - vm_compute. reflexivity.
Qed.

(** ** Grouped sums read off plain data *)

Lemma string_leb_trans (a b c : string) :
  String.leb a b = true -> String.leb b c = true -> String.leb a c = true.
Proof.
  unfold String.leb.
  assert (T : forall a b c : string,
            String.compare a b <> Gt -> String.compare b c <> Gt ->
            String.compare a c <> Gt).
  { clear. induction a as [|x a IH]; intros [|y b] [|z c]; simpl; try congruence.
    unfold Ascii.compare.
    destruct (N.compare_spec (N_of_ascii x) (N_of_ascii y)) as [E1 | L1 | G1];
      destruct (N.compare_spec (N_of_ascii y) (N_of_ascii z)) as [E2 | L2 | G2];
      try congruence; intros H1 H2.
    - rewrite E1, E2, N.compare_refl. eauto.
    - rewrite E1. now rewrite (proj2 (N.compare_lt_iff _ _) L2).
    - rewrite <- E2. now rewrite (proj2 (N.compare_lt_iff _ _) L1).
    - now rewrite (proj2 (N.compare_lt_iff _ _) (N.lt_trans _ _ _ L1 L2)). }
  intros H1 H2.
  destruct (String.compare a b) eqn:E1; try discriminate;
    destruct (String.compare b c) eqn:E2; try discriminate;
    destruct (String.compare a c) eqn:E3; auto;
    exfalso; apply (T a b c); congruence.
Qed.

Lemma string_lt_of_leb (a b : string) :
  String.leb a b = true -> a <> b -> string_lt a b.
Proof.
  unfold String.leb, string_lt. intros L N.
  destruct (String.compare a b) eqn:E; auto; [|discriminate].
  apply String.compare_eq_iff in E. contradiction.
Qed.

Section LabelGroups.
Variables (K : Type) (inj : K -> cell) (eqb leb : K -> K -> bool).
Hypothesis inj_eqb : forall a b, cell_eqb (inj a) (inj b) = eqb a b.
Hypothesis inj_leb : forall a b, cell_leb (inj a) (inj b) = leb a b.
Hypothesis inj_na : forall a, isna (inj a) = false.
Hypothesis eqb_eq : forall a b, eqb a b = true <-> a = b.
Hypothesis leb_total : forall a b, leb a b = true \/ leb b a = true.
Hypothesis leb_trans :
  forall a b c, leb a b = true -> leb b c = true -> leb a c = true.

Lemma existsb_inj (a : K) (seen : list K) :
  existsb (cell_eqb (inj a)) (map inj seen) = true <-> In a seen.
Proof.
  induction seen as [|b seen IH]; simpl; [split; [discriminate | tauto]|].
  rewrite orb_true_iff, IH, inj_eqb, eqb_eq. split; intros [H | H]; auto.
Qed.

Lemma distinct_inj (ks : list (option K)) (seen : list K) :
  exists names,
    distinct (map (olift inj) ks) (map inj seen) = map inj names
    /\ NoDup names
    /\ (forall a, In a names <-> In (Some a) ks /\ ~ In a seen).
Proof.
  revert seen. induction ks as [|[a|] ks IH]; intros seen; simpl.
  - exists []. split; [reflexivity | split; [constructor|]].
    intros a; simpl; tauto.
  - rewrite inj_na. cbn [orb].
    destruct (existsb (cell_eqb (inj a)) (map inj seen)) eqn:E.
    + apply existsb_inj in E.
      destruct (IH seen) as [names [D [N M]]].
      exists names. split; [exact D | split; [exact N|]].
      intros b. rewrite M. split.
      * intros [I S]. auto.
      * intros [[X | I] S]; auto. inversion X; subst. contradiction.
    + assert (NI : ~ In a seen).
      { intros I. apply existsb_inj in I. congruence. }
      destruct (IH (a :: seen)) as [names [D [N M]]].
      exists (a :: names). split; [|split].
      * simpl in D. simpl. now rewrite D.
      * constructor; auto. intros I. apply M in I. simpl in I. tauto.
      * intros b. simpl. rewrite M. simpl. split.
        -- intros [<- | [I S]]; auto.
        -- intros [[X | I] S].
           ++ inversion X; auto.
           ++ destruct (eqb a b) eqn:AB.
              ** apply eqb_eq in AB. auto.
              ** right. split; auto. intros [X | X]; auto.
                 apply eqb_eq in X. congruence.
  - destruct (IH seen) as [names [D [N M]]].
    exists names. split; [exact D | split; [exact N|]].
    intros b. rewrite M. split.
    + intros [I S]. auto.
    + intros [[X | I] S]; auto. discriminate.
Qed.

Lemma insert_sorted_inj (a : K) (l : list K) :
  insert_sorted cell_leb (inj a) (map inj l) = map inj (insert_sorted leb a l).
Proof.
  induction l as [|b l IH]; simpl; auto.
  rewrite inj_leb. destruct (leb a b); simpl; auto. now rewrite IH.
Qed.

Lemma isort_inj (l : list K) :
  isort cell_leb (map inj l) = map inj (isort leb l).
Proof.
  induction l as [|a l IH]; simpl; auto.
  now rewrite IH, insert_sorted_inj.
Qed.

Lemma strict_of_sorted_NoDup (l : list K) :
  StronglySorted (fun a b => leb a b = true) l -> NoDup l ->
  StronglySorted (fun a b => leb a b = true /\ a <> b) l.
Proof.
  induction 1 as [|a l S IH F]; intros N; constructor.
  - inversion N; auto.
  - inversion N as [|? ? NI N']; subst. rewrite Forall_forall in *.
    intros b I. split; auto. intros ->. contradiction.
Qed.

(** The group labels of a column of labels: each label of the column
    once, in strictly ascending order. *)
Lemma group_keys_inj (ks : list (option K)) :
  exists names,
    group_keys (map (olift inj) ks) = map inj names
    /\ StronglySorted (fun a b => leb a b = true /\ a <> b) names
    /\ (forall a, In a names <-> In (Some a) ks).
Proof.
  destruct (distinct_inj ks []) as [names [D [N M]]]. simpl in D.
  exists (isort leb names). unfold group_keys. rewrite D, isort_inj.
  pose proof (isort_perm leb names) as P.
  split; [reflexivity | split].
  - apply strict_of_sorted_NoDup.
    + apply isort_strongly with (dom := fun _ => True); auto.
      * intros; eapply leb_trans; eauto.
      * apply Forall_forall; auto.
    + eapply Permutation_NoDup; eauto.
  - intros a. split.
    + intros I. apply (Permutation_in _ (Permutation_sym P)) in I.
      now apply M in I.
    + intros I. apply (Permutation_in _ P). apply M. split; auto.
Qed.

Lemma group_rows_from (k : cell) (s : Series) (off : nat) :
  Forall (fun i => (off <= i)%nat) (group_rows k s off).
Proof.
  revert off. induction s as [|c s IH]; intros off; simpl; [constructor|].
  assert (F : Forall (fun i => (off <= i)%nat) (group_rows k s (S off))).
  { eapply Forall_impl; [|apply IH]. simpl. intros; lia. }
  destruct (cell_eqb c k); auto.
Qed.

Lemma gsum_from (ks : list (option K)) (vals pre : list Z) (a : K) :
  fold_right Z.add 0
    (map (fun i => nth i (pre ++ vals) 0)
         (group_rows (inj a) (map (olift inj) ks) (length pre)))
  = sum_where eqb ks vals a.
Proof.
  revert vals pre. induction ks as [|o ks IH]; intros vals pre; simpl; auto.
  assert (Z0 : forall s off,
            fold_right Z.add 0
              (map (fun i => nth i (pre ++ []) 0)
                   (group_rows (inj a) s (length pre + off))) = 0).
  { intros s off. pose proof (group_rows_from (inj a) s (length pre + off)) as F.
    induction F as [|i l Hi F IHF]; simpl; auto.
    rewrite IHF, nth_overflow; auto. rewrite app_nil_r. lia. }
  assert (C : cell_eqb (olift inj o) (inj a)
              = match o with Some b => eqb b a | None => false end).
  { destruct o; simpl; auto. }
  rewrite C.
  destruct vals as [|v vals].
  - unfold sum_where. rewrite combine_nil. simpl.
    destruct (match o with Some b => eqb b a | None => false end); simpl.
    + rewrite nth_overflow by (rewrite app_nil_r; lia).
      replace (S (length pre)) with (length pre + 1)%nat by lia. now rewrite Z0.
    + replace (S (length pre)) with (length pre + 1)%nat by lia. now rewrite Z0.
  - assert (R : fold_right Z.add 0
                 (map (fun i => nth i (pre ++ v :: vals) 0)
                      (group_rows (inj a) (map (olift inj) ks) (S (length pre))))
               = sum_where eqb ks vals a).
    { specialize (IH vals (pre ++ [v])).
      rewrite <- app_assoc, length_app, Nat.add_1_r in IH. exact IH. }
    change (sum_where eqb (o :: ks) (v :: vals) a)
      with (match o with
            | Some k' => if eqb k' a then v else 0
            | None => 0
            end + sum_where eqb ks vals a).
    destruct o as [b|]; [destruct (eqb b a)|]; simpl; rewrite ?nth_middle, R;
      reflexivity.
Qed.

Lemma gsum_inj (ks : list (option K)) (vals : list Z) (a : K) :
  gsum (map (olift inj) ks) vals (inj a) = sum_where eqb ks vals a.
Proof. unfold gsum. exact (gsum_from ks vals [] a). Qed.
End LabelGroups.

Lemma group_keys_text (ns : list (option string)) :
  exists names,
    group_keys (map olabel ns) = map CStr names
    /\ StronglySorted string_lt names
    /\ (forall a, In a names <-> In (Some a) ns).
Proof.
  destruct (@group_keys_inj string CStr String.eqb String.leb) with (ks := ns)
    as [names [G [S M]]]; auto.
  - apply String.eqb_eq.
  - apply String.leb_total.
  - apply string_leb_trans.
  - exists names. split; [exact G | split; [|exact M]].
    clear - S. induction S as [|a l S IH F]; constructor; auto.
    eapply Forall_impl; [|exact F]. intros b [L N]. now apply string_lt_of_leb.
Qed.

Lemma group_keys_ints (ys : list (option Z)) :
  exists years,
    group_keys (map oint ys) = ints years
    /\ StronglySorted Z.lt years
    /\ (forall y, In y years <-> In (Some y) ys).
Proof.
  destruct (@group_keys_inj Z (fun z => CNum (Int z)) Z.eqb Z.leb) with (ks := ys)
    as [years [G [S M]]]; auto.
  - apply Z.eqb_eq.
  - intros a b. rewrite !Z.leb_le. lia.
  - intros a b c. rewrite !Z.leb_le. lia.
  - exists years. split; [exact G | split; [|exact M]].
    clear - S. induction S as [|a l S IH F]; constructor; auto.
    eapply Forall_impl; [|exact F]. intros b [L N]. apply Z.leb_le in L. lia.
Qed.

Lemma gsum_text (ns : list (option string)) (vals : list Z) (a : string) :
  gsum (map olabel ns) vals (CStr a) = sum_where String.eqb ns vals a.
Proof. apply (@gsum_inj string CStr String.eqb). reflexivity. Qed.

Lemma gsum_ints (ys : list (option Z)) (vals : list Z) (y : Z) :
  gsum (map oint ys) vals (CNum (Int y)) = sum_where Z.eqb ys vals y.
Proof. apply (@gsum_inj Z (fun z => CNum (Int z)) Z.eqb). reflexivity. Qed.









(** * Further properties of the code *)

(** ** cleaning.py: column selection *)

Lemma df_take_col (d : DataFrame) (present : list string) (c : string) :
  df_col (df_take d present) c
  = if str_mem c present then df_col d c else None.
Proof.
  unfold df_take, df_col at 1; simpl.
  induction present as [|x rest IH]; simpl; auto.
  destruct (String.eqb_spec c x).
  - subst x. simpl.
    destruct (df_col d c) as [s|] eqn:E; simpl.
    + now rewrite String.eqb_refl.
    + rewrite IH. now destruct (str_mem c rest).
  - simpl. destruct (df_col d x) as [s|]; simpl; auto.
    destruct (String.eqb_spec c x); [contradiction|]. exact IH.
Qed.

Lemma df_take_columns (d : DataFrame) (present : list string) :
  Forall (fun c => df_has d c = true) present ->
  df_columns (df_take d present) = present.
Proof.
  unfold df_take, df_columns, assoc_keys; simpl.
  induction 1 as [|c rest H _ IH]; simpl; auto.
  rewrite df_has_col in H. destruct (df_col d c); [|discriminate].
  simpl. now rewrite IH.
Qed.

Lemma select_columns_run (w : world) (df : loc) (d : DataFrame)
    (columns : option (list string)) :
  nth_error (frames w) df = Some d ->
  let cols := match columns with Some l => l | None => DEFAULT_COLUMNS end in
  let sel := df_take d (filter (df_has d) cols) in
  select_columns df columns w
  = (inr (S (length (frames w))), mkWorld (frames w ++ [sel; sel]) (geos w)).
Proof.
  intros Hd cols sel. unfold select_columns.
  erewrite bind_ok by (apply read_df_run; eauto).
  erewrite bind_ok by reflexivity.
  unfold copy. erewrite bind_ok.
  2:{ apply read_df_run. cbn [frames]. apply nth_error_app_last. }
  unfold alloc_df. cbn [frames geos].
  rewrite length_app, <- app_assoc. cbn [length app].
  now rewrite Nat.add_1_r.
Qed.

(** X1: [select_columns] never raises on a table.  It returns a new table
    with the same rows whose columns are the requested columns that the
    table has, in the order of the request, each with the values it had;
    requested columns the table lacks are dropped silently, and so is every
    column that was not requested. *)
Theorem select_columns_keeps_present (w : world) (df : loc) (d : DataFrame)
    (columns : option (list string)) :
  nth_error (frames w) df = Some d ->
  let cols := match columns with Some l => l | None => DEFAULT_COLUMNS end in
  exists sel,
    select_columns df columns w
    = (inr (S (length (frames w))), mkWorld (frames w ++ [sel; sel]) (geos w))
    /\ nrows sel = nrows d
    /\ df_columns sel = filter (df_has d) cols
    /\ (forall c, In c cols -> df_col sel c = df_col d c)
    /\ (forall c, ~ In c cols -> df_col sel c = None).
Proof.
  intros Hd cols. exists (df_take d (filter (df_has d) cols)).
  split; [now apply select_columns_run|]. split; [reflexivity|].
  split; [|split].
  - apply df_take_columns. apply Forall_forall. intros c I.
    apply filter_In in I. now destruct I.
  - intros c I. rewrite df_take_col.
    destruct (str_mem c (filter (df_has d) cols)) eqn:M; auto.
    destruct (df_col d c) eqn:E; auto.
    assert (In c (filter (df_has d) cols)).
    { apply filter_In. split; auto. now rewrite df_has_col, E. }
    apply str_mem_In in H. congruence.
  - intros c NI. rewrite df_take_col.
    destruct (str_mem c (filter (df_has d) cols)) eqn:M; auto.
    apply str_mem_In, filter_In in M. destruct M as [I _]. contradiction.
Qed.

(** ** cleaning.py: the burned-area alias *)

Lemma add_hectareas_alias_run (w : world) (df : loc) (d : DataFrame)
    (source target : string) :
  nth_error (frames w) df = Some d -> df_wf d ->
  let alias := match df_col d source with
               | Some s => map (fillna (CNum (Int 0))) s
               | None => repeat (CNum (Int 0)) (nrows d)
               end in
  add_hectareas_alias df source target w
  = (inr (length (frames w)),
     mkWorld (frames w ++ [df_with d target alias]) (geos w)).
Proof.
  intros Hd W alias. unfold add_hectareas_alias.
  erewrite bind_ok by (apply copy_run; eauto).
  erewrite bind_ok by apply has_column_last.
  rewrite df_has_col. subst alias.
  destruct (df_col d source) as [s|] eqn:E.
  - erewrite bind_ok; [reflexivity|].
    erewrite bind_ok by (apply getitem_last; eauto).
    apply setitem_last. rewrite length_map. eapply df_wf_col; eauto.
  - erewrite bind_ok by apply setitem_scalar_last. reflexivity.
Qed.

(** X2: [add_hectareas_alias] returns a copy with the column [target]
    set, one value per row and none of them missing: the value of [source]
    where it is present, 0 where it is missing, and 0 on every row when the
    table has no [source] column.  It never raises. *)
Theorem add_hectareas_alias_fills (w : world) (df : loc) (d : DataFrame)
    (source target : string) :
  nth_error (frames w) df = Some d -> df_wf d ->
  exists alias,
    add_hectareas_alias df source target w
    = (inr (length (frames w)),
       mkWorld (frames w ++ [df_with d target alias]) (geos w))
    /\ length alias = nrows d
    /\ (df_col d source = None -> alias = repeat (CNum (Int 0)) (nrows d))
    /\ (forall s, df_col d source = Some s ->
        forall i c, nth_error s i = Some c ->
          nth_error alias i = Some (if isna c then CNum (Int 0) else c))
    /\ (forall c, In c alias -> isna c = false).
Proof.
  intros Hd W. eexists. split; [now apply add_hectareas_alias_run|].
  destruct (df_col d source) as [s|] eqn:E.
  - repeat split.
    + rewrite length_map. eapply df_wf_col; eauto.
    + discriminate.
    + intros s' [= <-] i c Hi. now rewrite nth_error_map, Hi.
    + intros c I. apply in_map_iff in I. destruct I as [x [<- _]].
      unfold fillna. destruct (isna x) eqn:N; auto.
  - repeat split.
    + apply repeat_length.
    + discriminate.
    + intros c I. apply repeat_spec in I. now subst.
Qed.

(** ** cleaning.py: more on type coercion *)

Lemma assoc_set_same {V} (k : string) (v : V) (l : list (string * V)) :
  assoc_get String.eqb k l = Some v -> assoc_set String.eqb k v l = l.
Proof.
  induction l as [|[k' v'] l IH]; simpl; [discriminate|].
  destruct (String.eqb_spec k k').
  - intros [= ->]. reflexivity.
  - intros H. now rewrite IH.
Qed.

Lemma upd_fixed (d : DataFrame) (c : string) (f : Series -> Series) :
  (forall s, df_col d c = Some s -> f s = s) -> upd d c f = d.
Proof.
  intros H. unfold upd. destruct (df_col d c) as [s|] eqn:E; auto.
  rewrite (H s eq_refl). unfold df_with. destruct d as [n cs]; simpl in *.
  f_equal. now apply assoc_set_same.
Qed.

Lemma coerce_id_values_twice (s : Series) :
  coerce_id_values (coerce_id_values s) = coerce_id_values s.
Proof. unfold coerce_id_values. rewrite map_map. reflexivity. Qed.

Lemma coerce_resource_twice (s : Series) :
  coerce_resource (coerce_resource s) = coerce_resource s.
Proof. unfold coerce_resource. rewrite map_map. reflexivity. Qed.

Lemma to_numeric_twice (s : Series) :
  map of_num (to_numeric (map of_num (to_numeric s))) = map of_num (to_numeric s).
Proof.
  unfold to_numeric. rewrite !map_map. apply map_ext. intros c.
  now destruct (to_numeric1 c).
Qed.

Lemma coerce_types_frame_twice (d : DataFrame) :
  coerce_types_frame (coerce_types_frame d) = coerce_types_frame d.
Proof.
  set (d' := coerce_types_frame d).
  assert (C : forall c, df_col d' c
    = if String.eqb c "idpeligro" then option_map coerce_id_values (df_col d c)
      else if String.eqb c "idprovincia" then option_map coerce_id_values (df_col d c)
      else if String.eqb c "perdidassuperficiales"
           then option_map (fun s => map of_num (to_numeric s)) (df_col d c)
      else if String.eqb c "numeromediospersonal"
           then option_map coerce_resource (df_col d c)
      else if String.eqb c "numeromediospesados"
           then option_map coerce_resource (df_col d c)
      else if String.eqb c "numeromediosaereos"
           then option_map coerce_resource (df_col d c)
      else df_col d c).
  { intros c. unfold d', coerce_types_frame. cbn [fold_left].
    repeat match goal with
           | |- context [String.eqb c ?k] =>
               destruct (String.eqb_spec c k);
               [subst c; col_simpl; reflexivity|]
           end.
    now rewrite !df_col_upd_other by assumption. }
  unfold coerce_types_frame at 1. fold d'. cbn [fold_left].
  rewrite (@upd_fixed d' "idpeligro").
  2:{ intros s E. rewrite C in E. cbn in E.
      destruct (df_col d "idpeligro"); inversion E. apply coerce_id_values_twice. }
  rewrite (@upd_fixed d' "idprovincia").
  2:{ intros s E. rewrite C in E. cbn in E.
      destruct (df_col d "idprovincia"); inversion E. apply coerce_id_values_twice. }
  rewrite (@upd_fixed d' "perdidassuperficiales").
  2:{ intros s E. rewrite C in E. cbn in E.
      destruct (df_col d "perdidassuperficiales"); inversion E.
      apply to_numeric_twice. }
  rewrite (@upd_fixed d' "numeromediospersonal").
  2:{ intros s E. rewrite C in E. cbn in E.
      destruct (df_col d "numeromediospersonal"); inversion E.
      apply coerce_resource_twice. }
  rewrite (@upd_fixed d' "numeromediospesados").
  2:{ intros s E. rewrite C in E. cbn in E.
      destruct (df_col d "numeromediospesados"); inversion E.
      apply coerce_resource_twice. }
  rewrite (@upd_fixed d' "numeromediosaereos").
  2:{ intros s E. rewrite C in E. cbn in E.
      destruct (df_col d "numeromediosaereos"); inversion E.
      apply coerce_resource_twice. }
  reflexivity.
Qed.

Lemma coerce_types_frame_wf (d : DataFrame) : df_wf d -> df_wf (coerce_types_frame d).
Proof.
  intros W. unfold coerce_types_frame. cbn [fold_left].
  repeat apply df_wf_upd; auto; intros s; unfold coerce_id_values, coerce_resource,
    to_numeric; now rewrite ?length_map.
Qed.

Lemma coerce_types_frame_ids (d : DataFrame) (c : string) (s : Series) :
  c = "idpeligro" \/ c = "idprovincia" ->
  df_col (coerce_types_frame d) c = Some s ->
  forallb is_int_cell s = true.
Proof.
  unfold coerce_types_frame. cbn [fold_left].
  intros [-> | ->]; col_simpl;
    (match goal with
     | |- option_map _ ?o = _ -> _ => destruct o as [s0|]; simpl; [|discriminate]
     end);
    intros [= <-]; unfold coerce_id_values; apply forallb_forall;
    intros x I; apply in_map_iff in I; destruct I as [y [<- _]]; reflexivity.
Qed.

Lemma int_cells_finite (s : Series) :
  forallb is_int_cell s = true -> forallb (fun x => negb (is_infinite x)) s = true.
Proof.
  rewrite !forallb_forall. intros H x I. specialize (H x I).
  destruct x as [[z|q|b]| | | |]; simpl in *; try discriminate; reflexivity.
Qed.

(** X3: [coerce_types] establishes the column types the aggregations rely
    on.  When it returns, every [idpeligro] and [idprovincia] value is an
    integer, every resource count is a number (never missing, never text),
    and every [perdidassuperficiales] value is a number or NaN. *)
Theorem coerce_types_column_types (w : world) (df : loc) (d : DataFrame) :
  nth_error (frames w) df = Some d -> df_wf d ->
  finite_column d "idpeligro" -> finite_column d "idprovincia" ->
  exists d',
    coerce_types df w
    = (inr (length (frames w)), mkWorld (frames w ++ [d']) (geos w))
    /\ df_wf d' /\ nrows d' = nrows d
    /\ (forall c s, c = "idpeligro" \/ c = "idprovincia" ->
        df_col d' c = Some s -> forallb is_int_cell s = true)
    /\ (forall c s, In c RESOURCE_COLUMNS ->
        df_col d' c = Some s -> forallb is_num_cell s = true)
    /\ (forall s, df_col d' "perdidassuperficiales" = Some s ->
        forallb (fun x => is_num_cell x || match x with CNaN => true | _ => false end)
                s = true).
Proof.
  intros Hd W F1 F2. exists (coerce_types_frame d).
  split; [now apply coerce_types_run|].
  split; [now apply coerce_types_frame_wf|].
  split.
  { unfold coerce_types_frame. cbn [fold_left]. now rewrite !nrows_upd. }
  split; [intros c s H; now apply coerce_types_frame_ids|].
  unfold coerce_types_frame. cbn [fold_left]. split.
  - intros c s [<- | [<- | [<- | []]]]; col_simpl;
      (match goal with
       | |- option_map _ ?o = _ -> _ => destruct o as [s0|]; simpl; [|discriminate]
       end);
      intros [= <-]; unfold coerce_resource; apply forallb_forall;
      intros x I; apply in_map_iff in I; destruct I as [y [<- _]]; reflexivity.
  - intros s. col_simpl.
    destruct (df_col d "perdidassuperficiales") as [s0|]; simpl; [|discriminate].
    intros [= <-]. unfold to_numeric. apply forallb_forall.
    intros x I. rewrite map_map in I. apply in_map_iff in I.
    destruct I as [y [<- _]]. now destruct (to_numeric1 y).
Qed.

(** X4: [coerce_types] is idempotent: applied to its own result it returns
    a table equal to that result. *)
Theorem coerce_types_idempotent (w : world) (df : loc) (d : DataFrame) :
  nth_error (frames w) df = Some d -> df_wf d ->
  finite_column d "idpeligro" -> finite_column d "idprovincia" ->
  exists d',
    coerce_types df w
    = (inr (length (frames w)), mkWorld (frames w ++ [d']) (geos w))
    /\ coerce_types (length (frames w)) (mkWorld (frames w ++ [d']) (geos w))
       = (inr (S (length (frames w))), mkWorld (frames w ++ [d'; d']) (geos w)).
Proof.
  intros Hd W F1 F2. exists (coerce_types_frame d).
  split; [now apply coerce_types_run|].
  set (d' := coerce_types_frame d).
  pose proof (@coerce_types_run (mkWorld (frames w ++ [d']) (geos w))
                (length (frames w)) d') as R.
  cbn [frames geos] in R. rewrite R.
  - unfold d'. rewrite coerce_types_frame_twice.
    rewrite length_app, <- app_assoc. cbn [length app].
    now rewrite Nat.add_1_r.
  - apply nth_error_app_last.
  - now apply coerce_types_frame_wf.
  - intros s E. apply int_cells_finite.
    apply (@coerce_types_frame_ids d "idpeligro"); auto.
  - intros s E. apply int_cells_finite.
    apply (@coerce_types_frame_ids d "idprovincia"); auto.
Qed.

Lemma coerce_id_infinite (s : Series) :
  forallb (fun x => negb (is_infinite x)) s = false ->
  coerce_id s = inl non_finite.
Proof.
  unfold coerce_id. induction s as [|c s IH]; simpl; [discriminate|].
  intros H. apply andb_false_iff in H.
  unfold is_infinite in *.
  destruct (to_numeric1 c) as [[z|q|b]|] eqn:T; simpl in *;
    try reflexivity;
    (destruct H as [H|H]; [discriminate|]; now rewrite (IH H)).
Qed.

Lemma block_lift_raises {B} (fs : list DataFrame) (g : list GeoJSON)
    (d : DataFrame) (c : string) (f : Series -> result Series) (k : unit -> M B)
    (s : Series) (e : exn) :
  df_col d c = Some s -> f s = inl e ->
  bind (has_column (length fs) c)
       (fun has => bind (if has
                         then bind (getitem (length fs) c)
                                   (fun s => bind (lift (f s))
                                                  (fun s' => setitem (length fs) c s'))
                         else ret tt) k)
       (mkWorld (fs ++ [d]) g)
  = (inl e, mkWorld (fs ++ [d]) g).
Proof.
  intros C F. erewrite bind_ok by apply has_column_last.
  rewrite df_has_col, C. apply bind_err.
  erewrite bind_ok by (apply getitem_last; eauto).
  rewrite F. reflexivity.
Qed.

(** X5: the only way [coerce_types] raises on a table is an infinite value
    in [idpeligro] or [idprovincia]: it returns exactly when both columns are
    free of infinities, and otherwise raises the [ValueError] of
    [astype(int)]. *)
Theorem coerce_types_raises_iff (w : world) (df : loc) (d : DataFrame) :
  nth_error (frames w) df = Some d -> df_wf d ->
  fst (coerce_types df w)
  = if column_finite d "idpeligro" && column_finite d "idprovincia"
    then inr (length (frames w))
    else inl non_finite.
Proof.
  intros Hd W.
  assert (OK : finite_column d "idpeligro" -> finite_column d "idprovincia" ->
               fst (coerce_types df w) = inr (length (frames w))).
  { intros F1 F2. now rewrite coerce_types_run with (d := d). }
  assert (L : forall s, length (coerce_id_values s) = length s)
    by (intros; apply length_map).
  unfold column_finite.
  destruct (df_col d "idpeligro") as [s1|] eqn:E1.
  - destruct (forallb (fun x => negb (is_infinite x)) s1) eqn:F1; cbn [andb].
    + destruct (df_col d "idprovincia") as [s2|] eqn:E2.
      * destruct (forallb (fun x => negb (is_infinite x)) s2) eqn:F2.
        -- apply OK; intros s E; congruence.
        -- unfold coerce_types.
           erewrite bind_ok by (apply copy_run; eauto).
           rewrite block_lift with (f' := coerce_id_values); auto.
           2:{ intros s E. apply coerce_id_total. congruence. }
           rewrite block_lift_raises with (s := s2) (e := non_finite); auto.
           ++ now rewrite df_col_upd_other by (intro; discriminate).
           ++ now apply coerce_id_infinite.
      * apply OK; intros s E; congruence.
    + unfold coerce_types.
      erewrite bind_ok by (apply copy_run; eauto).
      rewrite block_lift_raises with (s := s1) (e := non_finite); auto.
      now apply coerce_id_infinite.
  - cbn [andb]. destruct (df_col d "idprovincia") as [s2|] eqn:E2.
    + destruct (forallb (fun x => negb (is_infinite x)) s2) eqn:F2.
      * apply OK; intros s E; congruence.
      * unfold coerce_types.
        erewrite bind_ok by (apply copy_run; eauto).
        rewrite block_lift with (f' := coerce_id_values); auto.
        2:{ intros s E. congruence. }
        rewrite block_lift_raises with (s := s2) (e := non_finite); auto.
        -- now rewrite df_col_upd_other by (intro; discriminate).
        -- now apply coerce_id_infinite.
    + apply OK; intros s E; congruence.
Qed.

(** ** cleaning.py: more on the intent flag *)

Lemma traverse_ge_text (bound : Z) (s : Series) :
  existsb is_text s = true -> traverse (cell_ge bound) s = inl text_vs_int.
Proof.
  induction s as [|c s IH]; simpl; [discriminate|].
  destruct c; simpl; intros H; try reflexivity; now rewrite IH.
Qed.

Lemma between_values (s : Series) (lower upper : Z) :
  forallb (fun c => negb (is_text c)) s = true ->
  between s lower upper = inr (map (in_year lower upper) s).
Proof.
  intros H. unfold between.
  rewrite traverse_map with (h := fun c => match cell_ge lower c with
                                           | inr b => b | inl _ => false end).
  2:{ intros c I. rewrite forallb_forall in H. specialize (H c I).
      destruct c; simpl in *; try discriminate; reflexivity. }
  rewrite traverse_map with (h := fun c => match cell_le upper c with
                                           | inr b => b | inl _ => false end).
  2:{ intros c I. rewrite forallb_forall in H. specialize (H c I).
      destruct c; simpl in *; try discriminate; reflexivity. }
  f_equal. rewrite forallb_forall in H.
  induction s as [|c s IH]; simpl; auto.
  rewrite IH by (intros; apply H; simpl; auto). f_equal.
  assert (Hc := H c (or_introl eq_refl)).
  destruct c; simpl in *; try discriminate; reflexivity.
Qed.

Lemma flag_intentional_run (w : world) (df : loc) (d : DataFrame)
    (causa_col out_col : string) (lower upper : Z) :
  nth_error (frames w) df = Some d -> df_wf d ->
  (forall s, df_col d causa_col = Some s ->
             forallb (fun c => negb (is_text c)) s = true) ->
  let flags := match df_col d causa_col with
               | Some s => map (fun c => CBool (in_year lower upper c)) s
               | None => repeat (CBool false) (nrows d)
               end in
  flag_intentional df causa_col out_col lower upper w
  = (inr (length (frames w)),
     mkWorld (frames w ++ [df_with d out_col flags]) (geos w)).
Proof.
  intros Hd W NT flags. unfold flag_intentional. subst flags.
  erewrite bind_ok by (apply copy_run; eauto).
  erewrite bind_ok by apply has_column_last.
  rewrite df_has_col. destruct (df_col d causa_col) as [s|] eqn:C.
  - erewrite bind_ok; [reflexivity|].
    erewrite bind_ok by (apply getitem_last; eauto).
    rewrite between_values by auto. cbn [lift].
    erewrite bind_ok by reflexivity. rewrite map_map.
    apply setitem_last. rewrite length_map. eapply df_wf_col; eauto.
  - erewrite bind_ok by apply setitem_scalar_last. reflexivity.
Qed.

(** X6: [flag_intentional] raises exactly on text.  When the cause-code
    column holds a text value the range comparison raises [TypeError] and
    nothing but the private copy was made; no flag column is produced. *)
Theorem flag_intentional_raises_on_text (w : world) (df : loc) (d : DataFrame)
    (causa_col out_col : string) (lower upper : Z) (s : Series) :
  nth_error (frames w) df = Some d ->
  df_col d causa_col = Some s ->
  existsb is_text s = true ->
  flag_intentional df causa_col out_col lower upper w
  = (inl text_vs_int, mkWorld (frames w ++ [d]) (geos w)).
Proof.
  intros Hd C T. unfold flag_intentional.
  erewrite bind_ok by (apply copy_run; eauto).
  erewrite bind_ok by apply has_column_last.
  rewrite df_has_col, C. apply bind_err.
  erewrite bind_ok by (apply getitem_last; eauto).
  unfold between. now rewrite traverse_ge_text.
Qed.

(** X7: the bounds of [flag_intentional] are inclusive at both ends, for
    any [lower] and [upper]: an integer cause code [z] is flagged exactly
    when [lower <= z <= upper], and a missing cause code is never flagged. *)
Theorem flag_intentional_bounds_inclusive (w : world) (df : loc) (d : DataFrame)
    (causa_col out_col : string) (lower upper : Z) (s : Series) :
  nth_error (frames w) df = Some d -> df_wf d ->
  df_col d causa_col = Some s ->
  forallb (fun c => negb (is_text c)) s = true ->
  exists flags,
    flag_intentional df causa_col out_col lower upper w
    = (inr (length (frames w)),
       mkWorld (frames w ++ [df_with d out_col flags]) (geos w))
    /\ (forall i z, nth_error s i = Some (CNum (Int z)) ->
        nth_error flags i = Some (CBool ((lower <=? z) && (z <=? upper))))
    /\ (forall i c, nth_error s i = Some c -> isna c = true ->
        nth_error flags i = Some (CBool false)).
Proof.
  intros Hd W C NT.
  pose proof (@flag_intentional_run w df d causa_col out_col lower upper Hd W) as R.
  cbv zeta in R. rewrite C in R. eexists. split.
  - apply R. intros s' E. congruence.
  - split.
    + intros i z Hi. now rewrite nth_error_map, Hi.
    + intros i c Hi N. rewrite nth_error_map, Hi.
      destruct c; simpl in *; try discriminate; reflexivity.
Qed.

(** ** cleaning.py: the preparation pipeline *)

Lemma df_take_wf (d : DataFrame) (present : list string) :
  df_wf d -> df_wf (df_take d present).
Proof.
  intros W. unfold df_wf, df_take; simpl.
  induction present as [|c rest IH]; simpl; [constructor|].
  destruct (df_col d c) as [s|] eqn:E; simpl; auto.
  constructor; auto. simpl. eapply df_wf_col; eauto.
Qed.

Lemma str_mem_filter_out (c : string) (p : string -> bool) (l : list string) :
  ~ In c l -> str_mem c (filter p l) = false.
Proof.
  intros N. destruct (str_mem c (filter p l)) eqn:M; auto.
  apply str_mem_In, filter_In in M. destruct M. contradiction.
Qed.

Lemma selected_col (d : DataFrame) (c : string) :
  In c DEFAULT_COLUMNS -> df_col (selected d) c = df_col d c.
Proof.
  intros I. unfold selected. rewrite df_take_col.
  destruct (str_mem c (filter (df_has d) DEFAULT_COLUMNS)) eqn:M; auto.
  destruct (df_col d c) eqn:E; auto.
  assert (In c (filter (df_has d) DEFAULT_COLUMNS)).
  { apply filter_In. split; auto. now rewrite df_has_col, E. }
  apply str_mem_In in H. congruence.
Qed.

Lemma selected_col_other (d : DataFrame) (c : string) :
  ~ In c DEFAULT_COLUMNS -> df_col (selected d) c = None.
Proof.
  intros N. unfold selected. rewrite df_take_col.
  now rewrite str_mem_filter_out.
Qed.

Lemma df_columns_with (d : DataFrame) (c : string) (s : Series) :
  df_columns (df_with d c s)
  = if df_has d c then df_columns d else df_columns d ++ [c].
Proof.
  unfold df_columns, df_with, df_has, assoc_mem, assoc_keys; simpl.
  induction (cols d) as [|[k v] l IH]; simpl.
  - reflexivity.
  - destruct (String.eqb c k); simpl; auto.
    rewrite IH. now destruct (assoc_get String.eqb c l).
Qed.

Lemma df_columns_upd (d : DataFrame) (c : string) (f : Series -> Series) :
  df_columns (upd d c f) = df_columns d.
Proof.
  unfold upd. destruct (df_col d c) eqn:E; auto.
  rewrite df_columns_with, df_has_col. now rewrite E.
Qed.

Lemma coerce_types_frame_columns (d : DataFrame) :
  df_columns (coerce_types_frame d) = df_columns d.
Proof.
  unfold coerce_types_frame. cbn [fold_left]. now rewrite !df_columns_upd.
Qed.

Lemma coerce_types_frame_other (d : DataFrame) (c : string) :
  ~ In c ["idpeligro"; "idprovincia"; "perdidassuperficiales";
          "numeromediospersonal"; "numeromediospesados"; "numeromediosaereos"] ->
  df_col (coerce_types_frame d) c = df_col d c.
Proof.
  intros N. unfold coerce_types_frame. cbn [fold_left].
  rewrite !df_col_upd_other; auto; intros ->; apply N; simpl; auto 10.
Qed.

Lemma prepare_wildfires_run (w : world) (df_raw : loc) (d : DataFrame) :
  nth_error (frames w) df_raw = Some d -> df_wf d ->
  (forall s, df_col d "idcausa" = Some s ->
             forallb (fun c => negb (is_text c)) s = true) ->
  finite_column d "idpeligro" -> finite_column d "idprovincia" ->
  prepare_wildfires df_raw None w
  = (inr (length (frames w) + 4)%nat,
     mkWorld (frames w ++ [selected d; selected d; flagged d;
                           coerce_types_frame (flagged d); prepared d])
             (geos w)).
Proof.
  intros Hd W NT F1 F2. unfold prepare_wildfires.
  assert (WS : df_wf (selected d)) by (now apply df_take_wf).
  erewrite bind_ok.
  2:{ apply (@select_columns_run w df_raw d None Hd). }
  fold (selected d).
  set (w1 := mkWorld (frames w ++ [selected d; selected d]) (geos w)).
  assert (H1 : nth_error (frames w1) (S (length (frames w))) = Some (selected d)).
  { unfold w1; cbn [frames].
    replace (frames w ++ [selected d; selected d])
      with ((frames w ++ [selected d]) ++ [selected d])
      by (now rewrite <- app_assoc).
    replace (S (length (frames w))) with (length (frames w ++ [selected d]))
      by (rewrite length_app; simpl; lia).
    apply nth_error_app_last. }
  erewrite bind_ok.
  2:{ apply (@flag_intentional_run w1 _ (selected d) "idcausa" "intencionado"
               400 499 H1 WS).
      intros s E. rewrite selected_col in E by (simpl; auto 10). now apply NT. }
  fold (flagged d).
  set (w2 := mkWorld (frames w1 ++ [flagged d]) (geos w1)).
  assert (WF : df_wf (flagged d)).
  { unfold flagged. apply df_wf_with; auto.
    destruct (df_col (selected d) "idcausa") as [s|] eqn:E.
    - rewrite length_map. eapply df_wf_col; eauto.
    - apply repeat_length. }
  assert (FC : forall c, c = "idpeligro" \/ c = "idprovincia" ->
                         df_col (flagged d) c = df_col d c).
  { intros c [-> | ->]; unfold flagged;
      rewrite df_col_with_other by (intro; discriminate);
      apply selected_col; simpl; auto 10. }
  erewrite bind_ok.
  2:{ apply (@coerce_types_run w2 (length (frames w1)) (flagged d)); auto.
      - apply nth_error_app_last.
      - intros s E. rewrite FC in E by auto. now apply F1.
      - intros s E. rewrite FC in E by auto. now apply F2. }
  set (c := coerce_types_frame (flagged d)).
  set (w3 := mkWorld (frames w2 ++ [c]) (geos w2)).
  erewrite bind_ok.
  2:{ apply (@add_hectareas_alias_run w3 (length (frames w2)) c
               "perdidassuperficiales" "hectareas_quemadas").
      - apply nth_error_app_last.
      - now apply coerce_types_frame_wf. }
  unfold ret, w3, w2, w1. cbn [frames geos].
  rewrite !length_app. cbn [length]. rewrite <- !app_assoc. cbn [app].
  f_equal. f_equal. lia.
Qed.

Lemma selected_columns_of (d : DataFrame) :
  df_columns (selected d) = filter (df_has d) DEFAULT_COLUMNS.
Proof.
  unfold selected. apply df_take_columns, Forall_forall.
  intros c I. apply filter_In in I. now destruct I.
Qed.

(** X8: on a raw table whose cause codes hold no text and whose identifiers
    hold no infinity, [prepare_wildfires] with the default columns returns
    a table with the same number of rows whose columns are the default
    columns the raw table has, in the default order, followed by
    [intencionado] and [hectareas_quemadas].  The flag is computed from the
    raw cause codes, and [hectareas_quemadas] has no missing value. *)
Theorem prepare_wildfires_output (w : world) (df_raw : loc) (d : DataFrame) :
  nth_error (frames w) df_raw = Some d -> df_wf d ->
  (forall s, df_col d "idcausa" = Some s ->
             forallb (fun c => negb (is_text c)) s = true) ->
  finite_column d "idpeligro" -> finite_column d "idprovincia" ->
  exists p flags area,
    result_frame (prepare_wildfires df_raw None w) = inr p
    /\ nrows p = nrows d /\ df_wf p
    /\ df_columns p
       = filter (df_has d) DEFAULT_COLUMNS ++ ["intencionado"; "hectareas_quemadas"]
    /\ df_col p "intencionado" = Some flags
    /\ (forall s, df_col d "idcausa" = Some s ->
                  flags = map (fun c => CBool (in_year 400 499 c)) s)
    /\ (df_col d "idcausa" = None -> flags = repeat (CBool false) (nrows d))
    /\ df_col p "hectareas_quemadas" = Some area
    /\ (forall c, In c area -> isna c = false).
Proof.
  intros Hd W NT F1 F2.
  set (fl := match df_col (selected d) "idcausa" with
             | Some s => map (fun c => CBool (in_year 400 499 c)) s
             | None => repeat (CBool false) (nrows (selected d))
             end).
  set (c := coerce_types_frame (flagged d)).
  set (ar := match df_col c "perdidassuperficiales" with
             | Some s => map (fillna (CNum (Int 0))) s
             | None => repeat (CNum (Int 0)) (nrows c)
             end).
  assert (WS : df_wf (selected d)) by (now apply df_take_wf).
  assert (LF : length fl = nrows d).
  { unfold fl. destruct (df_col (selected d) "idcausa") as [s|] eqn:E.
    - rewrite length_map. apply (df_wf_col _ WS E).
    - apply repeat_length. }
  assert (WF : df_wf (flagged d)) by (now apply df_wf_with).
  assert (WC : df_wf c) by (now apply coerce_types_frame_wf).
  assert (NC : nrows c = nrows d).
  { unfold c, coerce_types_frame. cbn [fold_left]. now rewrite !nrows_upd. }
  assert (LA : length ar = nrows c).
  { unfold ar. destruct (df_col c "perdidassuperficiales") as [s|] eqn:E.
    - rewrite length_map. apply (df_wf_col _ WC E).
    - apply repeat_length. }
  exists (prepared d), fl, ar.
  split.
  { rewrite prepare_wildfires_run with (d := d); auto.
    unfold result_frame.
    replace (frames w ++ [selected d; selected d; flagged d;
                          coerce_types_frame (flagged d); prepared d])
      with ((frames w ++ [selected d; selected d; flagged d;
                          coerce_types_frame (flagged d)]) ++ [prepared d])
      by (now rewrite <- app_assoc).
    replace (length (frames w) + 4)%nat
      with (length (frames w ++ [selected d; selected d; flagged d;
                                 coerce_types_frame (flagged d)]))
      by (rewrite length_app; simpl; lia).
    cbn [frames]. now rewrite nth_error_app_last. }
  split; [exact NC|].
  split; [apply df_wf_with; auto|].
  split.
  { unfold prepared. fold c. rewrite df_columns_with, df_has_col.
    unfold c at 1. rewrite coerce_types_frame_other by (not_in).
    unfold flagged at 1. rewrite df_col_with_other by (intro; discriminate).
    rewrite selected_col_other by (not_in).
    unfold c. rewrite coerce_types_frame_columns. unfold flagged.
    rewrite df_columns_with, df_has_col.
    rewrite selected_col_other by (not_in).
    rewrite selected_columns_of, <- app_assoc. reflexivity. }
  split.
  { unfold prepared. fold c. rewrite df_col_with_other by (intro; discriminate).
    unfold c. rewrite coerce_types_frame_other by (not_in).
    unfold flagged. apply df_col_with_same. }
  split.
  { intros s E. unfold fl. rewrite selected_col by (simpl; auto 10).
    now rewrite E. }
  split.
  { intros E. unfold fl. rewrite selected_col by (simpl; auto 10).
    now rewrite E. }
  split.
  { unfold prepared. fold c. apply df_col_with_same. }
  intros x I. unfold ar in I.
  destruct (df_col c "perdidassuperficiales") as [s|].
  - apply in_map_iff in I. destruct I as [y [<- _]].
    unfold fillna. destruct (isna y) eqn:N; auto.
  - apply repeat_spec in I. now subst.
Qed.

(** ** aggregates.py: totals *)

Lemma missing_none_cols (d : DataFrame) :
  missing_columns d RESOURCE_COLUMNS = [] ->
  exists a b c,
    df_col d "numeromediospersonal" = Some a
    /\ df_col d "numeromediospesados" = Some b
    /\ df_col d "numeromediosaereos" = Some c.
Proof.
  unfold missing_columns, RESOURCE_COLUMNS. cbn [filter].
  rewrite !str_mem_columns, !df_has_col.
  destruct (df_col d "numeromediospersonal"); cbn [negb]; [|discriminate].
  destruct (df_col d "numeromediospesados"); cbn [negb]; [|discriminate].
  destruct (df_col d "numeromediosaereos"); cbn [negb]; [|discriminate].
  intros _. eexists _, _, _. repeat split.
Qed.

Lemma cols_missing_some (d : DataFrame) :
  (df_col d "numeromediospersonal" = None
   \/ df_col d "numeromediospesados" = None
   \/ df_col d "numeromediosaereos" = None) ->
  missing_columns d RESOURCE_COLUMNS <> [].
Proof.
  intros H E. destruct (missing_none_cols d E) as [a [b [c [A [B C]]]]].
  destruct H as [H | [H | H]]; congruence.
Qed.

Lemma series_add_length (a b r : Series) :
  series_add a b = inr r -> length a = length b -> length r = length a.
Proof.
  revert b r; induction a as [|x a IH]; intros [|y b] r; simpl; intros H L;
    try discriminate; try (now inversion H).
  destruct (cell_add x y); try discriminate.
  destruct (series_add a b) eqn:E; try discriminate.
  inversion H; subst. simpl. f_equal. apply (IH b); auto.
Qed.

Lemma add_total_resources_run (w : world) (df : loc) (d : DataFrame) :
  nth_error (frames w) df = Some d -> df_wf d ->
  add_total_resources df w
  = match total_medios_of d with
    | inl e => (inl e, mkWorld (frames w ++ [d]) (geos w))
    | inr t =>
        (inr (length (frames w)),
         mkWorld (frames w ++ [df_with d "total_medios" t]) (geos w))
    end.
Proof.
  intros Hd W.
  destruct (missing_columns d RESOURCE_COLUMNS) as [|m ms] eqn:M.
  - destruct (missing_none_cols d M) as [a [b [c [A [B C]]]]].
    unfold add_total_resources, total_medios_of.
    erewrite bind_ok by (apply copy_run; eauto).
    erewrite bind_ok by apply read_df_last.
    cbv zeta. rewrite M, A, B, C. cbn [is_empty negb].
    erewrite bind_ok by (apply getitem_last; eauto).
    erewrite bind_ok by (apply getitem_last; eauto).
    destruct (series_add a b) as [e|ab] eqn:AB; cbn [lift].
    + erewrite bind_err by reflexivity. reflexivity.
    + erewrite bind_ok by reflexivity.
      erewrite bind_ok by (apply getitem_last; eauto).
      destruct (series_add ab c) as [e|abc] eqn:ABC; cbn [lift].
      * erewrite bind_err by reflexivity. reflexivity.
      * erewrite bind_ok by reflexivity.
        erewrite bind_ok; [reflexivity|].
        apply setitem_last.
        pose proof (df_wf_col _ W A). pose proof (df_wf_col _ W B).
        pose proof (df_wf_col _ W C).
        pose proof (series_add_length _ _ AB ltac:(congruence)).
        pose proof (series_add_length _ _ ABC ltac:(congruence)). congruence.
  - rewrite add_total_resources_missing with (d := d); auto; [|congruence].
    unfold total_medios_of.
    destruct (df_col d "numeromediospersonal") as [a|] eqn:A;
      [|now rewrite M].
    destruct (df_col d "numeromediospesados") as [b|] eqn:B;
      [|now rewrite M].
    destruct (df_col d "numeromediosaereos") as [c|] eqn:C;
      [|now rewrite M].
    exfalso. unfold missing_columns, RESOURCE_COLUMNS in M. cbn [filter] in M.
    rewrite !str_mem_columns, !df_has_col, A, B, C in M. discriminate.
Qed.

Lemma group_by_province_run (w : world) (df : loc) (d : DataFrame)
    (province_col : string) :
  nth_error (frames w) df = Some d -> df_wf d ->
  result_frame (group_by_province_for_map df province_col w)
  = if df_has d "total_medios" then province_aggregate d province_col
    else match total_medios_of d with
         | inl e => inl e
         | inr t => province_aggregate (df_with d "total_medios" t) province_col
         end.
Proof.
  intros Hd W.
  assert (G : forall fs g d1 l,
    nth_error fs l = Some d1 ->
    result_frame
      (bind (read_df l)
         (fun d0 =>
            let missing := missing_columns d0 RESOURCE_COLUMNS in
            if negb (is_empty missing)
            then raise (KeyError "Faltan columnas de recursos para agregar por provincia: " missing)
            else
              bind (lift (groupby_sum d0 province_col
                            [ ("total_medios", "total_medios");
                              ("numeromediospersonal", "numeromediospersonal");
                              ("numeromediospesados", "numeromediospesados");
                              ("numeromediosaereos", "numeromediosaereos") ]))
                   (fun agg => alloc_df agg)) (mkWorld fs g))
    = province_aggregate d1 province_col).
  { intros fs g d1 l H. erewrite bind_ok by (apply read_df_run; exact H).
    cbv zeta. unfold province_aggregate.
    destruct (negb (is_empty (missing_columns d1 RESOURCE_COLUMNS))); [reflexivity|].
    destruct (groupby_sum d1 province_col _) as [e|agg]; cbn [lift].
    - erewrite bind_err by reflexivity. reflexivity.
    - erewrite bind_ok by reflexivity. apply result_frame_alloc. }
  unfold group_by_province_for_map.
  erewrite bind_ok by (apply copy_run; eauto).
  erewrite bind_ok by apply has_column_last.
  destruct (df_has d "total_medios");
    [change (negb true) with false | change (negb false) with true]; cbv iota.
  - erewrite bind_ok by reflexivity. apply G. apply nth_error_app_last.
  - pose proof (@add_total_resources_run (mkWorld (frames w ++ [d]) (geos w))
                  (length (frames w)) d (nth_error_app_last _ _) W) as R.
    cbn [frames geos] in R.
    destruct (total_medios_of d) as [e|t].
    + erewrite bind_err by exact R. reflexivity.
    + erewrite bind_ok by exact R. apply G.
      rewrite length_app. cbn [length]. rewrite Nat.add_1_r.
      replace (S (length (frames w))) with (length (frames w ++ [d]))
        by (rewrite length_app; simpl; lia).
      apply nth_error_app_last.
Qed.

Lemma total_medios_length (d : DataFrame) (t : Series) :
  df_wf d -> total_medios_of d = inr t -> length t = nrows d.
Proof.
  intros W. unfold total_medios_of.
  destruct (df_col d "numeromediospersonal") as [a|] eqn:A; [|discriminate].
  destruct (df_col d "numeromediospesados") as [b|] eqn:B; [|discriminate].
  destruct (df_col d "numeromediosaereos") as [c|] eqn:C; [|discriminate].
  destruct (series_add a b) as [e|ab] eqn:AB; [discriminate|].
  intros ABC.
  pose proof (df_wf_col _ W A). pose proof (df_wf_col _ W B).
  pose proof (df_wf_col _ W C).
  pose proof (series_add_length _ _ AB ltac:(congruence)).
  pose proof (series_add_length _ _ ABC ltac:(congruence)). congruence.
Qed.

(** X9: the dashboard's [map_aggregation_cached] and [Incendios.for_map]
    call [group_by_province_for_map(add_total_resources(df))].  On a table
    that has no [total_medios] column this is the same as calling
    [group_by_province_for_map(df)]: both return equal tables, or raise the
    same exception. *)
Theorem map_aggregation_same_as_direct (w : world) (df : loc) (d : DataFrame) :
  nth_error (frames w) df = Some d -> df_wf d ->
  df_has d "total_medios" = false ->
  result_frame (map_aggregation_cached df w)
  = result_frame (group_by_province_for_map df "provincia" w).
Proof.
  intros Hd W NT.
  rewrite (@group_by_province_run w df d "provincia" Hd W), NT.
  unfold map_aggregation_cached.
  pose proof (@add_total_resources_run w df d Hd W) as R.
  destruct (total_medios_of d) as [e|t] eqn:T.
  - erewrite bind_err by exact R. reflexivity.
  - erewrite bind_ok by exact R.
    rewrite (@group_by_province_run _ _ (df_with d "total_medios" t) "provincia").
    + now rewrite df_has_col, df_col_with_same.
    + apply nth_error_app_last.
    + apply df_wf_with; auto. now apply total_medios_length.
Qed.

(** ** aggregates.py: the map totals and their breakdown *)

Lemma series_add_ints (xs ys : list Z) :
  series_add (ints xs) (ints ys) = inr (ints (zip_add xs ys)).
Proof.
  revert ys; induction xs as [|x xs IH]; intros [|y ys]; simpl; auto.
  now rewrite IH.
Qed.

Lemma zip_add_nth (xs ys : list Z) (i : nat) :
  length xs = length ys ->
  nth i (zip_add xs ys) 0 = nth i xs 0 + nth i ys 0.
Proof.
  revert ys i; induction xs as [|x xs IH]; intros [|y ys] [|i]; simpl;
    intros L; try discriminate; auto.
Qed.

Lemma zip_add_length (xs ys : list Z) :
  length xs = length ys -> length (zip_add xs ys) = length xs.
Proof.
  revert ys; induction xs as [|x xs IH]; intros [|y ys]; simpl; intros L;
    try discriminate; auto.
Qed.

Lemma sum_from_ints (l : list Z) (idx : list nat) (a : Z) :
  sum_from (Some (Int a)) (take_rows (ints l) idx)
  = inr (Some (Int (a + fold_right Z.add 0 (map (fun i => nth i l 0) idx)))).
Proof.
  unfold take_rows. revert a; induction idx as [|i idx IH]; intros a; simpl.
  - now rewrite Z.add_0_r.
  - destruct (nth_error l i) as [z|] eqn:N.
    + assert (E : nth i (ints l) CNaN = CNum (Int z)).
      { apply nth_error_nth. unfold ints. now rewrite nth_error_map, N. }
      rewrite E, (nth_error_nth _ _ 0 N). simpl. rewrite IH. do 3 f_equal. lia.
    + apply nth_error_None in N.
      rewrite (nth_overflow (ints l)) by (unfold ints; now rewrite length_map).
      rewrite (nth_overflow l) by auto. simpl. now rewrite IH.
Qed.

Lemma group_total_ints (keycol : Series) (l : list Z) (k : cell) :
  sum_cells (take_rows (ints l) (group_rows k keycol 0))
  = inr (CNum (Int (gsum keycol l k))).
Proof. unfold sum_cells, gsum. now rewrite sum_from_ints. Qed.

Lemma sum_groups_ints (keycol : Series) (keys : list cell) (l : list Z) :
  sum_groups keycol keys (ints l) = inr (ints (map (gsum keycol l) keys)).
Proof.
  unfold sum_groups, ints. rewrite map_map.
  apply traverse_map. intros k _. apply group_total_ints.
Qed.

Lemma gsum_zip_add (keycol : Series) (xs ys : list Z) (k : cell) :
  length xs = length ys ->
  gsum keycol (zip_add xs ys) k = gsum keycol xs k + gsum keycol ys k.
Proof.
  intros L. unfold gsum.
  induction (group_rows k keycol 0) as [|i idx IH]; simpl; auto.
  rewrite IH, zip_add_nth by auto. lia.
Qed.

(** The map totals of integer columns, through the labels of the model. *)
Lemma group_by_province_ints (w : world) (df : loc) (d : DataFrame)
    (pcol : Series) (xs ys zs : list Z) :
  nth_error (frames w) df = Some d -> df_wf d ->
  df_has d "total_medios" = false ->
  df_col d "provincia" = Some pcol ->
  df_col d "numeromediospersonal" = Some (ints xs) ->
  df_col d "numeromediospesados" = Some (ints ys) ->
  df_col d "numeromediosaereos" = Some (ints zs) ->
  let keys := group_keys pcol in
  result_frame (group_by_province_for_map df "provincia" w)
  = inr (mkDF (length keys)
           [ ("provincia", keys);
             ("total_medios",
              ints (map (fun k => gsum pcol xs k + gsum pcol ys k + gsum pcol zs k)
                        keys));
             ("numeromediospersonal", ints (map (gsum pcol xs) keys));
             ("numeromediospesados", ints (map (gsum pcol ys) keys));
             ("numeromediosaereos", ints (map (gsum pcol zs) keys)) ]).
Proof.
  intros Hd W NT P X Y Z keys.
  assert (LX : length xs = nrows d).
  { rewrite <- (df_wf_col _ W X). unfold ints. now rewrite length_map. }
  assert (LY : length ys = nrows d).
  { rewrite <- (df_wf_col _ W Y). unfold ints. now rewrite length_map. }
  assert (LZ : length zs = nrows d).
  { rewrite <- (df_wf_col _ W Z). unfold ints. now rewrite length_map. }
  rewrite (@group_by_province_run w df d "provincia" Hd W), NT.
  unfold total_medios_of. rewrite X, Y, Z, !series_add_ints.
  set (t := zip_add (zip_add xs ys) zs).
  set (d1 := df_with d "total_medios" (ints t)).
  assert (C : forall c, c <> "total_medios" -> df_col d1 c = df_col d c).
  { intros c N. unfold d1. now apply df_col_with_other. }
  assert (T : df_col d1 "total_medios" = Some (ints t)) by apply df_col_with_same.
  unfold province_aggregate, missing_columns, RESOURCE_COLUMNS. cbn [filter].
  rewrite !str_mem_columns, !df_has_col.
  rewrite !C by (intro; discriminate). rewrite X, Y, Z. cbn [negb is_empty].
  unfold groupby_sum. rewrite C by (intro; discriminate). rewrite P.
  fold keys. cbn [sum_columns]. rewrite T.
  rewrite !C by (intro; discriminate). rewrite X, Y, Z.
  rewrite !sum_groups_ints.
  change (str_mem "provincia"
            (map fst [("total_medios", "total_medios");
                      ("numeromediospersonal", "numeromediospersonal");
                      ("numeromediospesados", "numeromediospesados");
                      ("numeromediosaereos", "numeromediosaereos")]))
    with false.
  cbv iota. do 4 f_equal. f_equal. f_equal. apply map_ext. intros k.
  unfold t. rewrite !gsum_zip_add; auto.
  - congruence.
  - rewrite zip_add_length; congruence.
Qed.

(** X10: on a table without [total_medios] whose province labels are text
    or missing and whose three resource columns hold integers, with
    [exact_sums], [group_by_province_for_map] returns one row per distinct
    province name, the names in strictly ascending order.  Each resource
    column of a row holds the sum of that resource over the rows of the
    province, and [total_medios] is the sum of the three.  Rows without a
    province belong to no row. *)
Theorem map_totals_sum_of_breakdown (w : world) (df : loc) (d : DataFrame)
    (ns : list (option string)) (xs ys zs : list Z) :
  nth_error (frames w) df = Some d -> df_wf d ->
  df_has d "total_medios" = false ->
  df_col d "provincia" = Some (map olabel ns) ->
  df_col d "numeromediospersonal" = Some (ints xs) ->
  df_col d "numeromediospesados" = Some (ints ys) ->
  df_col d "numeromediosaereos" = Some (ints zs) ->
  exact_sums (xs ++ ys ++ zs) ->
  exists names : list string,
    StronglySorted string_lt names
    /\ (forall a, In a names <-> In (Some a) ns)
    /\ result_frame (group_by_province_for_map df "provincia" w)
       = inr (mkDF (length names)
                [ ("provincia", map CStr names);
                  ("total_medios",
                   ints (map (fun a => sum_where String.eqb ns xs a
                                       + sum_where String.eqb ns ys a
                                       + sum_where String.eqb ns zs a)
                             names));
                  ("numeromediospersonal",
                   ints (map (sum_where String.eqb ns xs) names));
                  ("numeromediospesados",
                   ints (map (sum_where String.eqb ns ys) names));
                  ("numeromediosaereos",
                   ints (map (sum_where String.eqb ns zs) names)) ]).
Proof.
  intros Hd W NT P X Y Zs _.
  destruct (group_keys_text ns) as [names [G [S M]]].
  exists names. split; [exact S | split; [exact M|]].
  rewrite (@group_by_province_ints w df d _ xs ys zs Hd W NT P X Y Zs). cbv zeta.
  rewrite G, length_map, !map_map.
  repeat first [ reflexivity
               | apply map_ext; intros a; rewrite ?gsum_text; reflexivity
               | f_equal ].
Qed.

(** ** Group labels *)

Lemma num_eqb_Q (x y : num) :
  finite x -> finite y -> (num_eqb x y = true <-> (to_Q x == to_Q y)%Q).
Proof.
  destruct x, y; simpl; intros Fx Fy; try contradiction; unfold to_Q; simpl.
  - rewrite Z.eqb_eq. now rewrite inject_Z_injective.
  - apply Qeq_bool_iff.
  - apply Qeq_bool_iff.
  - apply Qeq_bool_iff.
Qed.

Lemma cell_eqb_sym (a b : cell) :
  finite_cell a -> finite_cell b -> cell_eqb a b = cell_eqb b a.
Proof.
  destruct a as [x| | | |], b as [y| | | |]; simpl; intros Fa Fb; try contradiction.
  destruct (num_eqb x y) eqn:E1, (num_eqb y x) eqn:E2; auto.
  - apply num_eqb_Q in E1; auto. symmetry in E1. apply num_eqb_Q in E1; auto.
    congruence.
  - apply num_eqb_Q in E2; auto. symmetry in E2. apply num_eqb_Q in E2; auto.
    congruence.
Qed.

Lemma cell_eqb_refl (a : cell) : finite_cell a -> cell_eqb a a = true.
Proof.
  destruct a as [x| | | |]; simpl; intros Fa; try contradiction.
  apply num_eqb_Q; auto. reflexivity.
Qed.

Lemma ForallOrdPairs_perm {A} (R : A -> A -> Prop) (l l' : list A) :
  (forall a b, R a b -> R b a) ->
  Permutation l l' -> ForallOrdPairs R l -> ForallOrdPairs R l'.
Proof.
  intros S P. induction P as [|x l l' P IH|x y l|l l' l'' P1 IH1 P2 IH2];
    intros F; auto.
  - inversion F; subst. constructor; auto.
    eapply Permutation_Forall; eauto.
  - inversion F as [|? ? Fy F']; subst. inversion F' as [|? ? Fx F'']; subst.
    inversion Fy; subst. repeat constructor; auto.
Qed.

(** [distinct] returns pairwise different labels of the column, none of
    them missing or already seen, and misses none. *)
Lemma distinct_spec (s : Series) (seen : list cell) :
  Forall year_ok s -> Forall finite_cell seen ->
  Forall finite_cell (distinct s seen)
  /\ Forall (fun k => In k s /\ Forall (fun x => cell_eqb k x = false) seen)
            (distinct s seen)
  /\ ForallOrdPairs (fun a b => cell_eqb a b = false) (distinct s seen)
  /\ (forall c, In c s -> isna c = false ->
      existsb (cell_eqb c) seen = true
      \/ exists k, In k (distinct s seen) /\ cell_eqb c k = true).
Proof.
  intros Hs. revert seen. induction Hs as [|c s Hc Hs IH]; intros seen Fs; simpl.
  - split; [constructor | split; [constructor | split; [constructor | intros x []]]].
  - assert (Skip : forall (l : list cell),
        Forall (fun k => In k s /\ Forall (fun x => cell_eqb k x = false) seen) l ->
        Forall (fun k => (c = k \/ In k s)
                         /\ Forall (fun x => cell_eqb k x = false) seen) l).
    { intros l B. eapply Forall_impl; [|exact B]. intros k [I F]. split; auto. }
    destruct (isna c) eqn:N; cbn [orb].
    + destruct (IH seen Fs) as [A [B [C D]]].
      split; [exact A | split; [now apply Skip | split; [exact C|]]].
      intros x [<- | I] NX; [congruence|]. now apply D.
    + assert (Fc : finite_cell c).
      { destruct Hc as [F | F]; auto. congruence. }
      destruct (existsb (cell_eqb c) seen) eqn:E.
      * destruct (IH seen Fs) as [A [B [C D]]].
        split; [exact A | split; [now apply Skip | split; [exact C|]]].
        intros x [<- | I] NX; [now left|]. now apply D.
      * destruct (IH (c :: seen) (Forall_cons _ Fc Fs)) as [A [B [C D]]].
        split; [|split; [|split]].
        -- constructor; auto.
        -- constructor.
           ++ split; [now left|]. apply Forall_forall. intros x I.
              destruct (cell_eqb c x) eqn:X; auto.
              assert (existsb (cell_eqb c) seen = true)
                by (apply existsb_exists; eauto). congruence.
           ++ eapply Forall_impl; [|exact B]. intros k [I F]. split; [now right|].
              now inversion F.
        -- constructor; auto.
           clear - A B Fc. rewrite Forall_forall in *. intros k I.
           destruct (B k I) as [_ F]. inversion F; subst.
           rewrite cell_eqb_sym; auto.
        -- intros x [<- | I] NX.
           ++ right. exists c. split; [now left|]. now apply cell_eqb_refl.
           ++ destruct (D x I NX) as [H | [k [Ik Ek]]].
              ** simpl in H. apply orb_true_iff in H. destruct H as [H | H].
                 --- right. exists c. split; [now left|]. exact H.
                 --- now left.
              ** right. exists k. split; [now right|]. exact Ek.
Qed.

Lemma strict_of_sorted_distinct (l : list cell) :
  Forall finite_cell l ->
  StronglySorted (fun a b => cell_leb a b = true) l ->
  ForallOrdPairs (fun a b => finite_cell a -> finite_cell b -> cell_eqb a b = false) l ->
  StronglySorted cell_lt l.
Proof.
  intros F S. induction S as [|a l S IH H]; intros P; constructor.
  - inversion F; inversion P; subst. auto.
  - inversion P as [|? ? Pa P']; inversion F as [|? ? Fa Fl]; subst.
    rewrite Forall_forall in *.
    intros x I. split; auto.
Qed.

(** The group labels of a column of years: strictly ascending, each a
    value of the column, none of the column's values left out. *)
Lemma group_keys_years (s : Series) :
  Forall year_ok s ->
  StronglySorted cell_lt (group_keys s)
  /\ (forall k, In k (group_keys s) -> In k s /\ isna k = false)
  /\ (forall c, In c s -> isna c = false ->
      exists k, In k (group_keys s) /\ cell_eqb c k = true).
Proof.
  intros H. destruct (distinct_spec H (Forall_nil _)) as [A [B [C D]]].
  unfold group_keys.
  pose proof (isort_perm cell_leb (distinct s [])) as P.
  assert (FA : Forall finite_cell (isort cell_leb (distinct s [])))
    by (eapply Permutation_Forall; eauto).
  split; [|split].
  - apply strict_of_sorted_distinct; auto.
    + apply isort_strongly with (dom := finite_cell); auto.
      * apply cell_leb_total.
      * intros a b c; apply cell_leb_trans.
    + apply ForallOrdPairs_perm with (l := distinct s []); auto.
      * intros a b R Fb Fa. rewrite cell_eqb_sym; auto.
      * clear - C. induction C as [|a l Fa C IH]; constructor; auto.
        eapply Forall_impl; [|exact Fa]. auto.
  - intros k I. apply (Permutation_in _ (Permutation_sym P)) in I.
    rewrite Forall_forall in A, B. split; [now apply B|].
    specialize (A k I). destruct k; simpl in *; try contradiction; reflexivity.
  - intros c I N. destruct (D c I N) as [X | [k [Ik Ek]]]; [discriminate|].
    exists k. split; auto. now apply (Permutation_in _ P).
Qed.

(** ** aggregates.py: sums by year *)

Lemma sum_groups_ok (keycol : Series) (keys : list cell) (s : Series) :
  forallb area_ok s = true ->
  sum_groups keycol keys s = inr (map (group_total keycol s) keys).
Proof.
  intros H. unfold sum_groups. apply traverse_map.
  intros k _. now apply group_total_finite.
Qed.

(** The sums by year of integer columns, through the labels of the
    model. *)
Lemma aggregate_resources_ints (w : world) (df : loc) (d : DataFrame)
    (ycol : Series) (a b c : list Z) :
  nth_error (frames w) df = Some d ->
  df_col d "anio" = Some ycol ->
  df_col d "numeromediospersonal" = Some (ints a) ->
  df_col d "numeromediospesados" = Some (ints b) ->
  df_col d "numeromediosaereos" = Some (ints c) ->
  let years := group_keys ycol in
  result_frame (aggregate_resources_by_year df "anio" RESOURCE_COLUMNS w)
  = inr (mkDF (length years)
           [ ("anio", years);
             ("numeromediospersonal", ints (map (gsum ycol a) years));
             ("numeromediospesados", ints (map (gsum ycol b) years));
             ("numeromediosaereos", ints (map (gsum ycol c) years)) ]).
Proof.
  intros Hd Y A B C years.
  unfold aggregate_resources_by_year.
  erewrite bind_ok by (apply copy_run; eauto).
  erewrite bind_ok by apply read_df_last.
  cbv zeta. unfold missing_columns, RESOURCE_COLUMNS. cbn [filter].
  rewrite !str_mem_columns, !df_has_col, A, B, C. cbn [negb is_empty].
  unfold groupby_sum. rewrite Y. fold years. cbn [map sum_columns].
  rewrite A, B, C, !sum_groups_ints.
  change (str_mem "anio" (map fst [("numeromediospersonal", "numeromediospersonal");
                                   ("numeromediospesados", "numeromediospesados");
                                   ("numeromediosaereos", "numeromediosaereos")]))
    with false.
  cbv iota. cbn [lift]. erewrite bind_ok by reflexivity.
  apply result_frame_alloc.
Qed.

(** X11: on a table whose years are integers or missing and whose three
    resource columns hold integers, with [exact_sums],
    [aggregate_resources_by_year] returns one row per distinct year, the
    years in strictly ascending order, with the sum of each resource over
    the rows of that year.  Rows without a year belong to no row. *)
Theorem aggregate_resources_by_year_rows (w : world) (df : loc) (d : DataFrame)
    (ys : list (option Z)) (a b c : list Z) :
  nth_error (frames w) df = Some d ->
  df_col d "anio" = Some (map oint ys) ->
  df_col d "numeromediospersonal" = Some (ints a) ->
  df_col d "numeromediospesados" = Some (ints b) ->
  df_col d "numeromediosaereos" = Some (ints c) ->
  exact_sums (a ++ b ++ c) ->
  exists years : list Z,
    StronglySorted Z.lt years
    /\ (forall y, In y years <-> In (Some y) ys)
    /\ result_frame (aggregate_resources_by_year df "anio" RESOURCE_COLUMNS w)
       = inr (mkDF (length years)
                [ ("anio", ints years);
                  ("numeromediospersonal",
                   ints (map (sum_where Z.eqb ys a) years));
                  ("numeromediospesados",
                   ints (map (sum_where Z.eqb ys b) years));
                  ("numeromediosaereos",
                   ints (map (sum_where Z.eqb ys c) years)) ]).
Proof.
  intros Hd Y A B C _.
  destruct (group_keys_ints ys) as [years [G [S M]]].
  exists years. split; [exact S | split; [exact M|]].
  rewrite (@aggregate_resources_ints w df d _ a b c Hd Y A B C). cbv zeta.
  assert (E : forall vals,
            map (gsum (map oint ys) vals) (ints years)
            = map (sum_where Z.eqb ys vals) years).
  { intros vals. unfold ints. rewrite map_map. apply map_ext.
    intros y. apply gsum_ints. }
  assert (L : length (ints years) = length years) by apply length_map.
  now rewrite G, !E, L.
Qed.

(** X12: [aggregate_burned_area_by_year] sums the alias column
    [hectareas_quemadas] when the table has it and [perdidassuperficiales]
    otherwise, and names the result [hectareas_quemadas] in both cases; when
    the table has neither it raises a [KeyError] naming both. *)
Theorem aggregate_burned_area_alias_or_fallback (w : world) (df : loc)
    (d : DataFrame) :
  nth_error (frames w) df = Some d ->
  (area_column d = None ->
   fst (aggregate_burned_area_by_year df "anio" "hectareas_quemadas"
          "perdidassuperficiales" w)
   = inl (KeyError "No se encontró columna de área quemada: "
                   ["hectareas_quemadas"; "perdidassuperficiales"]))
  /\ (forall ycol acol,
      df_col d "anio" = Some ycol -> area_column d = Some acol ->
      forallb area_ok acol = true ->
      result_frame (aggregate_burned_area_by_year df "anio" "hectareas_quemadas"
                      "perdidassuperficiales" w)
      = inr (mkDF (length (group_keys ycol))
               [ ("anio", group_keys ycol);
                 ("hectareas_quemadas",
                  map (group_total ycol acol) (group_keys ycol)) ])).
Proof.
  intros Hd. unfold area_column. split.
  - intros N. unfold aggregate_burned_area_by_year.
    erewrite bind_ok by (apply copy_run; eauto).
    erewrite bind_ok by apply read_df_last.
    cbv zeta. rewrite !df_has_col.
    destruct (df_col d "hectareas_quemadas"); [discriminate|].
    now rewrite N.
  - intros ycol acol Y A OK. unfold aggregate_burned_area_by_year.
    erewrite bind_ok by (apply copy_run; eauto).
    erewrite bind_ok by apply read_df_last.
    cbv zeta. rewrite !df_has_col.
    destruct (df_col d "hectareas_quemadas") as [s|] eqn:H1.
    + inversion A; subst s. rewrite H1. cbn [negb].
      rewrite (@groupby_sum_one d "anio" "hectareas_quemadas" ycol acol)
        by (auto; intro; discriminate).
      cbn [lift]. erewrite bind_ok by reflexivity.
      rewrite df_rename_two by (intro; discriminate).
      apply result_frame_alloc.
    + rewrite A. cbn [negb].
      rewrite (@groupby_sum_one d "anio" "perdidassuperficiales" ycol acol)
        by (auto; intro; discriminate).
      cbn [lift]. erewrite bind_ok by reflexivity.
      rewrite df_rename_two by (intro; discriminate).
      apply result_frame_alloc.
Qed.

(** ** geo.py: more on the province lookup *)

Lemma assoc_set_keys_Z {V} (k : Z) (v : V) (l : list (Z * V)) :
  map fst (assoc_set Z.eqb k v l)
  = if existsb (Z.eqb k) (map fst l) then map fst l else map fst l ++ [k].
Proof.
  induction l as [|[k' v'] l IH]; simpl; auto.
  destruct (Z.eqb k k'); simpl; auto.
  rewrite IH. now destruct (existsb (Z.eqb k) (map fst l)).
Qed.

Lemma assoc_set_NoDup_Z {V} (k : Z) (v : V) (l : list (Z * V)) :
  NoDup (map fst l) -> NoDup (map fst (assoc_set Z.eqb k v l)).
Proof.
  intros N. rewrite assoc_set_keys_Z.
  destruct (existsb (Z.eqb k) (map fst l)) eqn:E; auto.
  apply NoDup_app; auto.
  - repeat constructor. intros [].
  - intros x I [X | []]. subst x.
    assert (existsb (Z.eqb k) (map fst l) = true).
    { apply existsb_exists. exists k. split; auto. apply Z.eqb_refl. }
    congruence.
Qed.

Lemma build_from_NoDup (feats : list Feature) (code_key name_key : string)
    (acc pm : provinces_map) :
  NoDup (map fst acc) ->
  build_from feats code_key name_key acc = inr pm -> NoDup (map fst pm).
Proof.
  revert acc; induction feats as [|f rest IH]; intros acc N; simpl.
  - now intros [= <-].
  - destruct (null_bag f); [discriminate|].
    destruct (assoc_mem String.eqb code_key (feat_props f)
              && assoc_mem String.eqb name_key (feat_props f)).
    + destruct (assoc_get String.eqb code_key (feat_props f)) as [c|];
        [|discriminate].
      destruct (assoc_get String.eqb name_key (feat_props f)) as [n|];
        [|discriminate].
      destruct (py_int c) as [e|k]; [discriminate|].
      apply IH. now apply assoc_set_NoDup_Z.
    + now apply IH.
Qed.

Lemma build_from_raises (feats : list Feature) (code_key name_key : string)
    (acc : provinces_map) :
  codes_convert feats code_key name_key = false ->
  exists e, build_from feats code_key name_key acc = inl e.
Proof.
  revert acc; induction feats as [|f rest IH]; intros acc; simpl; [discriminate|].
  destruct (null_bag f); cbn [negb andb]; [eauto|].
  unfold assoc_mem.
  destruct (assoc_get String.eqb code_key (feat_props f)) as [c|];
    [destruct (assoc_get String.eqb name_key (feat_props f)) as [n|]|];
    cbn [andb]; auto.
  destruct (py_int c) as [e|k]; cbn [andb]; eauto.
Qed.

(** X13: [build_provinces_map] reads the collection without changing it.
    It returns exactly when no feature has a null property bag and every
    feature that has both keys has a code [int()] accepts, and raises
    otherwise.  The lookup it returns has no duplicate code, maps each code
    to the name of the last feature carrying it, and has no entry for a
    code no feature with both keys carries;
    features lacking either key are skipped, and a collection without
    [features] gives the empty lookup. *)
Theorem build_provinces_map_behaviour (w : world) (geo : loc) (g : GeoJSON)
    (code_key name_key : string) :
  nth_error (geos w) geo = Some g ->
  snd (build_provinces_map geo code_key name_key w) = w
  /\ (codes_convert (geo_features g) code_key name_key = true ->
      exists pm,
        fst (build_provinces_map geo code_key name_key w) = inr pm
        /\ NoDup (map fst pm)
        /\ forall z, assoc_get Z.eqb z pm
                     = last_name (geo_features g) code_key name_key z)
  /\ (codes_convert (geo_features g) code_key name_key = false ->
      exists e, fst (build_provinces_map geo code_key name_key w) = inl e)
  /\ (features g = None ->
      fst (build_provinces_map geo code_key name_key w) = inr []).
Proof.
  intros Hg. unfold build_provinces_map, bind, read_geo. rewrite Hg.
  split; [|split; [|split]].
  - now destruct (build_from (geo_features g) code_key name_key []).
  - intros CC.
    destruct (@build_from_spec (geo_features g) code_key name_key [] CC)
      as [pm [B G]].
    exists pm. rewrite B. split; [reflexivity|]. split.
    + eapply build_from_NoDup; eauto. constructor.
    + intros z. rewrite G.
      now destruct (last_name (geo_features g) code_key name_key z).
  - intros CC.
    destruct (@build_from_raises (geo_features g) code_key name_key [] CC)
      as [e B].
    exists e. now rewrite B.
  - intros N. unfold geo_features. now rewrite N.
Qed.

(** ** geo.py: more on resolving province names *)

Lemma traverse_coerce_code_raises (ids : Series) :
  forallb integral ids = false -> traverse coerce_code ids = inl unsafe_cast.
Proof.
  induction ids as [|c ids IH]; simpl; [discriminate|].
  unfold integral at 1. unfold coerce_code at 1 2.
  destruct (to_numeric1 c) as [[z|q|b]|]; simpl; intros H;
    try (now rewrite (IH H)); try reflexivity.
  destruct (Q_is_integer q); simpl in *; [now rewrite (IH H) | reflexivity].
Qed.

(** X14: when the table has [id_col] and one of its values is a number
    that is not an integer (or is infinite), [map_province_names] raises the
    [TypeError] of the cast to the nullable integer type, whatever the lookup
    and the name column; only its private copy was made. *)
Theorem map_province_names_raises_on_fraction (w : world) (df : loc)
    (d : DataFrame) (pm : provinces_map) (id_col name_col : string) (ids : Series) :
  nth_error (frames w) df = Some d ->
  df_col d id_col = Some ids ->
  forallb integral ids = false ->
  map_province_names df pm id_col name_col w
  = (inl unsafe_cast, mkWorld (frames w ++ [d]) (geos w)).
Proof.
  intros Hd I NI. unfold map_province_names.
  erewrite bind_ok by (apply copy_run; eauto).
  erewrite bind_ok by apply has_column_last.
  rewrite df_has_col, I. apply bind_err.
  erewrite bind_ok by (apply getitem_last; eauto).
  now rewrite traverse_coerce_code_raises.
Qed.

Lemma code_of_int (z : Z) : code_of (CNum (Int z)) = z.
Proof. reflexivity. Qed.

Lemma int_cells_integral (s : Series) :
  forallb is_int_cell s = true -> forallb integral s = true.
Proof.
  rewrite !forallb_forall. intros H x I. specialize (H x I).
  destruct x as [[z|q|b]| | | |]; simpl in *; try discriminate; reflexivity.
Qed.

Lemma int_cells_fixed (s : Series) :
  forallb is_int_cell s = true ->
  map (fun z => CNum (Int z)) (map code_of s) = s.
Proof.
  intros H. rewrite map_map. rewrite forallb_forall in H.
  induction s as [|c s IH]; simpl; auto.
  rewrite IH by (intros; apply H; simpl; auto). f_equal.
  assert (Hc := H c (or_introl eq_refl)).
  destruct c as [[z|q|b]| | | |]; simpl in *; try discriminate; reflexivity.
Qed.

(** X15: on a table whose identifiers are already integers, as
    [coerce_types] leaves them, [map_province_names] returns a copy that
    differs from the input in the name column only: a row whose code is in
    the lookup with a non-null name takes that name, every other row keeps
    its name. *)
Theorem map_province_names_on_integer_ids (w : world) (df : loc) (d : DataFrame)
    (pm : provinces_map) (id_col name_col : string) (ids old : Series) :
  nth_error (frames w) df = Some d -> df_wf d ->
  df_col d id_col = Some ids -> df_col d name_col = Some old ->
  id_col <> name_col ->
  forallb is_int_cell ids = true ->
  exists names,
    map_province_names df pm id_col name_col w
    = (inr (length (frames w)),
       mkWorld (frames w ++ [df_with d name_col names]) (geos w))
    /\ length names = nrows d
    /\ forall i z o, nth_error ids i = Some (CNum (Int z)) ->
                     nth_error old i = Some o ->
         nth_error names i
         = Some (match assoc_get Z.eqb z pm with
                 | Some JNull | None => o
                 | Some j => cell_of_json j
                 end).
Proof.
  intros Hd W I O NE OK.
  pose proof (@map_province_names_present w df d pm id_col name_col ids old
                Hd W I O NE (int_cells_integral _ OK)) as R.
  cbv zeta in R. rewrite (int_cells_fixed _ OK) in R.
  assert (E : df_with d id_col ids = d).
  { unfold df_with. destruct d as [n cs]; simpl in *. f_equal.
    now apply assoc_set_same. }
  rewrite E in R. eexists. split; [exact R|]. split.
  - rewrite fillna_from_length, length_map. eapply df_wf_col; eauto.
  - intros i z o Hi Ho.
    erewrite fillna_from_nth; [|rewrite nth_error_map, Hi; reflexivity|exact Ho].
    simpl. destruct (assoc_get Z.eqb z pm) as [[|n|s|b]|]; reflexivity.
Qed.

(** ** geo.py: more on the enrichment *)

Lemma list_set_same {A} (l : list A) (i : nat) (a : A) :
  nth_error l i = Some a -> list_set l i a = l.
Proof.
  revert i; induction l as [|x l IH]; intros [|i]; simpl; try discriminate.
  - now intros [= ->].
  - intros H. now rewrite IH.
Qed.

(** What the loop over the features leaves in the collection, and the
    exception it ends with, if any. *)
Lemma enrich_outcome (w : world) (df geojson : loc) (d : DataFrame) (g : GeoJSON)
    (geo_name_field df_key : string) (columns : option (list string))
    (deepcopy_geo : bool) :
  nth_error (frames w) df = Some d ->
  nth_error (geos w) geojson = Some g ->
  let cs := selected_columns d df_key columns in
  let out :=
    match df_col d df_key, features g with
    | None, _ => (Some (KeyError "None of the keys are in the columns" [df_key]), g)
    | Some keys, None => (None, g)
    | Some keys, Some fs =>
        let (e, fs') := enrich_features (lookup_of keys d df_key cs) cs
                          geo_name_field fs in
        (e, mkGeo (Some fs'))
    end in
  enrich_geojson_with_dataframe df geojson geo_name_field df_key columns
    deepcopy_geo w
  = (match fst out with
     | Some e => inl e
     | None => inr (if deepcopy_geo then length (geos w) else geojson)
     end,
     mkWorld (frames w)
             (if deepcopy_geo then geos w ++ [snd out]
              else list_set (geos w) geojson (snd out))).
Proof.
  intros Hd Hg cs out. rewrite enrich_unfold.
  assert (T : forall gj w1,
    nth_error (frames w1) df = Some d -> nth_error (geos w1) gj = Some g ->
    bind (read_df df)
      (fun d0 =>
         bind (lift (set_index d0 df_key))
           (fun lk0 =>
              bind (read_geo gj)
                (fun g0 =>
                   match features g0 with
                   | None => ret gj
                   | Some fs0 =>
                       let (e, fs') :=
                         enrich_features
                           (lookup_of (lk_index lk0) d0 df_key
                              (selected_columns d0 df_key columns))
                           (selected_columns d0 df_key columns)
                           geo_name_field fs0 in
                       bind (write_geo gj (mkGeo (Some fs')))
                         (fun _ => match e with
                                   | Some err => raise err
                                   | None => ret gj
                                   end)
                   end))) w1
    = (match fst out with Some e => inl e | None => inr gj end,
       mkWorld (frames w1) (list_set (geos w1) gj (snd out)))).
  { intros gj w1 H1 H2.
    assert (W1 : w1 = mkWorld (frames w1) (list_set (geos w1) gj g)).
    { rewrite (list_set_same _ _ H2). now destruct w1. }
    erewrite bind_ok by (apply read_df_run; exact H1).
    unfold set_index, out. fold cs.
    destruct (df_col d df_key) as [keys|]; cbn [lift fst snd].
    - erewrite bind_ok by reflexivity.
      erewrite bind_ok by (unfold read_geo; rewrite H2; reflexivity).
      destruct (features g) as [fs|]; cbn [lk_index fst snd].
      + destruct (enrich_features (lookup_of keys d df_key cs) cs geo_name_field fs)
          as [e fs'].
        unfold bind, write_geo. cbn [fst snd]. now destruct e.
      + unfold ret. now rewrite <- W1.
    - erewrite bind_err by reflexivity. now rewrite <- W1. }
  destruct deepcopy_geo.
  - erewrite bind_ok.
    2:{ unfold bind, read_geo, alloc_geo. rewrite Hg. reflexivity. }
    rewrite T; cbn [frames geos]; auto.
    + now rewrite list_set_app_last.
    + apply nth_error_app_last.
  - erewrite bind_ok by reflexivity. now apply T.
Qed.

(** X17: [deepcopy_geo] decides where [enrich_geojson_with_dataframe]
    writes and nothing else.  With [False] the result is the caller's own
    collection, updated in place; with [True] it is a new collection and the
    caller's is left alone.  The enriched contents are the same in both cases,
    and so is the exception when one is raised. *)
Theorem enrich_deepcopy_only_aliasing (w : world) (df geojson : loc)
    (d : DataFrame) (g : GeoJSON) (geo_name_field df_key : string)
    (columns : option (list string)) :
  nth_error (frames w) df = Some d ->
  nth_error (geos w) geojson = Some g ->
  exists g',
    snd (enrich_geojson_with_dataframe df geojson geo_name_field df_key columns
           true w)
    = mkWorld (frames w) (geos w ++ [g'])
    /\ snd (enrich_geojson_with_dataframe df geojson geo_name_field df_key columns
              false w)
       = mkWorld (frames w) (list_set (geos w) geojson g')
    /\ ((fst (enrich_geojson_with_dataframe df geojson geo_name_field df_key
                columns true w) = inr (length (geos w))
         /\ fst (enrich_geojson_with_dataframe df geojson geo_name_field df_key
                   columns false w) = inr geojson)
        \/ exists e,
             fst (enrich_geojson_with_dataframe df geojson geo_name_field df_key
                    columns true w) = inl e
             /\ fst (enrich_geojson_with_dataframe df geojson geo_name_field df_key
                       columns false w) = inl e).
Proof.
  intros Hd Hg.
  pose proof (@enrich_outcome w df geojson d g geo_name_field df_key columns
                true Hd Hg) as R1.
  pose proof (@enrich_outcome w df geojson d g geo_name_field df_key columns
                false Hd Hg) as R2.
  cbv zeta in R1, R2. rewrite R1, R2. cbn [fst snd].
  eexists. split; [reflexivity|]. split; [reflexivity|].
  match goal with
  | |- context [match fst ?o with _ => _ end] => destruct (fst o) as [e|]
  end.
  - right. eauto.
  - left. auto.
Qed.

(** X18: when the table has no [df_key] column the enrichment raises a
    [KeyError] naming it, before any feature is touched: the caller's
    collection is unchanged even with [deepcopy_geo=False]. *)
Theorem enrich_missing_key_column (w : world) (df geojson : loc)
    (d : DataFrame) (g : GeoJSON) (geo_name_field df_key : string)
    (columns : option (list string)) (deepcopy_geo : bool) :
  nth_error (frames w) df = Some d ->
  nth_error (geos w) geojson = Some g ->
  df_col d df_key = None ->
  let out := enrich_geojson_with_dataframe df geojson geo_name_field df_key
               columns deepcopy_geo w in
  fst out = inl (KeyError "None of the keys are in the columns" [df_key])
  /\ nth_error (geos (snd out)) geojson = Some g.
Proof.
  intros Hd Hg N out. subst out.
  rewrite (@enrich_outcome w df geojson d g geo_name_field df_key columns
             deepcopy_geo Hd Hg).
  cbv zeta. rewrite N. cbn [fst snd geos]. split; auto.
  destruct deepcopy_geo.
  - now apply nth_error_app_old.
  - now rewrite (list_set_same _ _ Hg).
Qed.

Lemma copy_cols_other (lk : Lookup) (rows : list nat) (cols_to_copy : list string)
    (p : props) (k : string) :
  str_mem k cols_to_copy = false ->
  assoc_get String.eqb k (snd (copy_cols lk rows cols_to_copy p))
  = assoc_get String.eqb k p.
Proof.
  revert p; induction cols_to_copy as [|c rest IH]; intros p M; cbn [copy_cols].
  - reflexivity.
  - unfold str_mem in M. cbn [existsb] in M.
    apply orb_false_iff in M. destruct M as [Kc Mr].
    destruct (_to_jsonable (pick lk rows c)) as [e|v]; [reflexivity|].
    rewrite IH by assumption. rewrite assoc_get_set_str.
    now rewrite Kc.
Qed.

Lemma same_but_refl (cols_to_copy : list string) (f : Feature) :
  same_but cols_to_copy f f.
Proof. split; auto. Qed.

Lemma enrich_feature_same_but (lk : Lookup) (cols_to_copy : list string)
    (geo_name_field : string) (f : Feature) :
  same_but cols_to_copy f (snd (enrich_feature lk cols_to_copy geo_name_field f)).
Proof.
  unfold enrich_feature.
  destruct (null_bag f); [apply same_but_refl|].
  destruct (matching_rows _ (lk_index lk) 0) as [|r rows].
  - split; [reflexivity|]. intros k M. cbn [snd feat_props properties].
    now rewrite null_cols_get, M.
  - pose proof (@copy_cols_other lk (r :: rows) cols_to_copy (feat_props f)) as C.
    destruct (copy_cols lk (r :: rows) cols_to_copy (feat_props f)) as [e p'].
    split; [reflexivity|]. intros k M. cbn [snd feat_props properties].
    now apply C.
Qed.

Lemma enrich_features_same_but (lk : Lookup) (cols_to_copy : list string)
    (geo_name_field : string) (fs : list Feature) :
  Forall2 (same_but cols_to_copy) fs
    (snd (enrich_features lk cols_to_copy geo_name_field fs)).
Proof.
  induction fs as [|f fs IH]; cbn [enrich_features snd]; [constructor|].
  pose proof (@enrich_feature_same_but lk cols_to_copy geo_name_field f) as F.
  destruct (enrich_feature lk cols_to_copy geo_name_field f) as [[e|] f'].
  - constructor; [exact F|].
    clear. induction fs; constructor; auto using same_but_refl.
  - destruct (enrich_features lk cols_to_copy geo_name_field fs) as [e rest'].
    constructor; [exact F | exact IH].
Qed.

Lemma nth_error_list_set_same {A} (l : list A) (i : nat) (a : A) :
  (i < length l)%nat -> nth_error (list_set l i a) i = Some a.
Proof.
  revert i; induction l as [|x l IH]; intros [|i]; simpl; try lia; auto.
  intros H. apply IH. lia.
Qed.

Lemma Forall2_nth {A B} (R : A -> B -> Prop) (l : list A) (l' : list B) :
  Forall2 R l l' ->
  length l' = length l
  /\ forall i a, nth_error l i = Some a ->
       exists b, nth_error l' i = Some b /\ R a b.
Proof.
  induction 1 as [|a b l l' Rab _ [L IH]]; split; auto.
  - intros [|i] a; discriminate.
  - simpl. now rewrite L.
  - intros [|i] x; simpl.
    + intros [= <-]. eauto.
    + apply IH.
Qed.

(** X19: whatever the table holds, and whether or not the enrichment ends in
    an exception, the collection it leaves behind (the copy, or the caller's
    own with [deepcopy_geo=False]) has the same features in the same order
    with their geometry, and every property outside the selected columns
    keeps its value: the loop only ever writes the selected columns. *)
Theorem enrich_writes_only_selected (w : world) (df geojson : loc)
    (d : DataFrame) (g : GeoJSON) (geo_name_field df_key : string)
    (columns : option (list string)) (deepcopy_geo : bool) (fs : list Feature) :
  nth_error (frames w) df = Some d ->
  nth_error (geos w) geojson = Some g ->
  features g = Some fs ->
  let out := enrich_geojson_with_dataframe df geojson geo_name_field df_key
               columns deepcopy_geo w in
  exists fs',
    nth_error (geos (snd out)) (if deepcopy_geo then length (geos w) else geojson)
    = Some (mkGeo (Some fs'))
    /\ length fs' = length fs
    /\ forall i f, nth_error fs i = Some f ->
       exists f',
         nth_error fs' i = Some f'
         /\ geometry f' = geometry f
         /\ forall k, str_mem k (selected_columns d df_key columns) = false ->
              assoc_get String.eqb k (feat_props f')
              = assoc_get String.eqb k (feat_props f).
Proof.
  intros Hd Hg F out. subst out.
  rewrite (@enrich_outcome w df geojson d g geo_name_field df_key columns
             deepcopy_geo Hd Hg).
  cbv zeta. rewrite F.
  set (cs := selected_columns d df_key columns).
  assert (S : exists fs',
    snd (match df_col d df_key with
         | Some keys =>
             let (e, fs') := enrich_features (lookup_of keys d df_key cs) cs
                               geo_name_field fs in
             (e, mkGeo (Some fs'))
         | None => (Some (KeyError "None of the keys are in the columns" [df_key]), g)
         end) = mkGeo (Some fs')
    /\ Forall2 (same_but cs) fs fs').
  { destruct (df_col d df_key) as [keys|].
    - pose proof (@enrich_features_same_but (lookup_of keys d df_key cs) cs
                    geo_name_field fs) as E.
      destruct (enrich_features (lookup_of keys d df_key cs) cs geo_name_field fs)
        as [e fs'].
      exists fs'. split; auto.
    - exists fs. split.
      + cbn [snd]. destruct g as [o]. cbn in F. now subst o.
      + clear. induction fs; constructor; auto using same_but_refl. }
  destruct S as [fs' [E R]]. exists fs'.
  destruct (Forall2_nth R) as [L N].
  split; [|split; [exact L|]].
  - cbn [snd geos]. rewrite E. destruct deepcopy_geo.
    + apply nth_error_app_last.
    + apply nth_error_list_set_same. apply nth_error_Some. congruence.
  - intros i f Hi. destruct (N i f Hi) as [f' [Hf' [G P]]].
    exists f'. auto.
Qed.

(** ** Frame conditions for the remaining transformations *)

Lemma add_total_resources_frame (w0 w : world) (df : loc) :
  frames_grow w0 w -> wp (add_total_resources df) (returns_fresh w0) w.
Proof. intros G. unfold add_total_resources. frame_auto w0. Qed.

Lemma group_by_province_for_map_frame (w0 w : world) (df : loc)
    (province_col : string) :
  frames_grow w0 w ->
  wp (group_by_province_for_map df province_col) (returns_fresh w0) w.
Proof.
  intros G. unfold group_by_province_for_map.
  apply wp_bind. apply wp_copy with (w0 := w0); [assumption | intros e | intros l w1 G1 F1].
  { split; [assumption | discriminate]. }
  apply wp_bind. apply wp_has_column. intros [e|has].
  { split; [assumption | discriminate]. }
  apply wp_bind.
  eapply wp_conseq with (Q := returns_fresh w0).
  { destruct (negb has).
    - now apply add_total_resources_frame.
    - apply wp_ret. split; auto. now intros ? [= <-]. }
  intros [e|l2] w2 [G2 F2]; [now split|].
  frame_auto w0.
Qed.

Lemma aggregate_burned_area_by_year_frame (w0 w : world) (df : loc)
    (year_col area_col fallback_area_col : string) :
  frames_grow w0 w ->
  wp (aggregate_burned_area_by_year df year_col area_col fallback_area_col)
     (returns_fresh w0) w.
Proof. intros G. unfold aggregate_burned_area_by_year. frame_auto w0. Qed.

Lemma aggregate_resources_by_year_frame (w0 w : world) (df : loc)
    (year_col : string) (resource_cols : list string) :
  frames_grow w0 w ->
  wp (aggregate_resources_by_year df year_col resource_cols) (returns_fresh w0) w.
Proof. intros G. unfold aggregate_resources_by_year. frame_auto w0. Qed.

Lemma top_provinces_by_burned_area_frame (w0 w : world) (df : loc) (n : Z)
    (province_col area_col fallback_area_col : string) (ascending : bool) :
  frames_grow w0 w ->
  wp (top_provinces_by_burned_area df n province_col area_col fallback_area_col
        ascending) (returns_fresh w0) w.
Proof. intros G. unfold top_provinces_by_burned_area. frame_auto w0. Qed.

Lemma map_province_names_frame (w0 w : world) (df : loc) (pm : provinces_map)
    (id_col name_col : string) :
  frames_grow w0 w ->
  wp (map_province_names df pm id_col name_col) (returns_fresh w0) w.
Proof. intros G. unfold map_province_names. frame_auto w0. Qed.

Lemma year_mask_frame (w : world) (df : loc) (y0 y1 : Z)
    (Q : result (list bool) -> world -> Prop) :
  (forall r, Q r w) -> wp (year_mask df y0 y1) Q w.
Proof.
  intros H. unfold year_mask.
  apply wp_bind, wp_getitem. intros [e|a]; [apply H|].
  apply wp_bind, wp_lift. destruct (traverse (cell_ge y0) a) as [e|ge]; [apply H|].
  apply wp_bind, wp_getitem. intros [e|a']; [apply H|].
  apply wp_bind, wp_lift. destruct (traverse (cell_le y1) a') as [e|le]; [apply H|].
  apply wp_ret, H.
Qed.

Lemma select_mask_frame (w0 w : world) (df : loc) (mask : list bool) :
  frames_grow w0 w -> wp (select_mask df mask) (returns_fresh w0) w.
Proof. intros G. unfold select_mask. frame_auto w0. Qed.

Lemma filter_by_year_and_intent_frame (w0 w : world) (df : loc)
    (year_range : Z * Z) (show_intentional show_non_intentional : bool) :
  frames_grow w0 w ->
  wp (filter_by_year_and_intent df year_range show_intentional
        show_non_intentional) (returns_fresh w0) w.
Proof.
  intros G. unfold filter_by_year_and_intent. destruct year_range as [y0 y1].
  apply wp_bind, year_mask_frame. intros [e|m].
  { split; [assumption | discriminate]. }
  destruct (show_intentional && show_non_intentional);
    [now apply select_mask_frame|].
  destruct show_intentional;
    (apply wp_bind, wp_getitem; intros [e|i];
     [split; [assumption | discriminate] | now apply select_mask_frame]).
Qed.

(** X20: none of the aggregations of aggregates.py changes the table it is
    given, or any other object of the store, whether it returns or raises;
    the frame each one returns is a new one. *)
Theorem aggregations_do_not_mutate :
  (forall w df,
      let out := add_total_resources df w in
      unchanged w (snd out) /\ forall l, fst out = inr l -> fresh_df w l)
  /\ (forall w df province_col,
      let out := group_by_province_for_map df province_col w in
      unchanged w (snd out) /\ forall l, fst out = inr l -> fresh_df w l)
  /\ (forall w df year_col area_col fallback_area_col,
      let out := aggregate_burned_area_by_year df year_col area_col
                   fallback_area_col w in
      unchanged w (snd out) /\ forall l, fst out = inr l -> fresh_df w l)
  /\ (forall w df year_col resource_cols,
      let out := aggregate_resources_by_year df year_col resource_cols w in
      unchanged w (snd out) /\ forall l, fst out = inr l -> fresh_df w l)
  /\ (forall w df n province_col area_col fallback_area_col ascending,
      let out := top_provinces_by_burned_area df n province_col area_col
                   fallback_area_col ascending w in
      unchanged w (snd out) /\ forall l, fst out = inr l -> fresh_df w l).
Proof.
  assert (U : forall (m : M loc) (w : world),
             wp m (returns_fresh w) w ->
             unchanged w (snd (m w)) /\ forall l, fst (m w) = inr l -> fresh_df w l).
  { intros m w [G F]. split; auto. now apply frames_grow_unchanged. }
  repeat apply conj; intros; subst out.
  - apply U, add_total_resources_frame, frames_grow_refl.
  - apply U, group_by_province_for_map_frame, frames_grow_refl.
  - apply U, aggregate_burned_area_by_year_frame, frames_grow_refl.
  - apply U, aggregate_resources_by_year_frame, frames_grow_refl.
  - apply U, top_provinces_by_burned_area_frame, frames_grow_refl.
Qed.

(** X21: [map_province_names] and the dashboard's
    [filter_by_year_and_intent] leave their argument and every other object
    of the store as they were and return a new frame; [build_provinces_map]
    only reads: the store after it is the store before it. *)
Theorem geo_and_filter_do_not_mutate :
  (forall w df pm id_col name_col,
      let out := map_province_names df pm id_col name_col w in
      unchanged w (snd out) /\ forall l, fst out = inr l -> fresh_df w l)
  /\ (forall w df year_range show_intentional show_non_intentional,
      let out := filter_by_year_and_intent df year_range show_intentional
                   show_non_intentional w in
      unchanged w (snd out) /\ forall l, fst out = inr l -> fresh_df w l)
  /\ (forall w geojson code_key name_key,
      snd (build_provinces_map geojson code_key name_key w) = w).
Proof.
  assert (U : forall (m : M loc) (w : world),
             wp m (returns_fresh w) w ->
             unchanged w (snd (m w)) /\ forall l, fst (m w) = inr l -> fresh_df w l).
  { intros m w [G F]. split; auto. now apply frames_grow_unchanged. }
  repeat apply conj; intros; try subst out.
  - apply U, map_province_names_frame, frames_grow_refl.
  - apply U, filter_by_year_and_intent_frame, frames_grow_refl.
  - unfold build_provinces_map, bind, read_geo, lift.
    destruct (nth_error (geos w) geojson); cbn [fst snd]; auto.
    now destruct (build_from _ _ _ _).
Qed.

(** ** incendios.py: the years of the dataset *)

Lemma unique_Z_spec (l seen : list Z) :
  NoDup (unique_Z l seen)
  /\ forall z, In z (unique_Z l seen) <-> In z l /\ ~ In z seen.
Proof.
  revert seen; induction l as [|x l IH]; intros seen; simpl.
  - split; [constructor|]. intros z. split; [contradiction | intros [[] _]].
  - assert (Mem : existsb (Z.eqb x) seen = true <-> In x seen).
    { rewrite existsb_exists. split.
      - intros [y [I E]]. apply Z.eqb_eq in E. now subst.
      - intros I. exists x. split; auto. apply Z.eqb_refl. }
    destruct (existsb (Z.eqb x) seen) eqn:E.
    + destruct (IH seen) as [N S]. split; auto.
      intros z. rewrite S. split.
      * intros [I NI]. auto.
      * intros [[-> | I] NI]; [|auto].
        exfalso. apply NI. now apply Mem.
    + assert (NX : ~ In x seen) by (intros I; apply Mem in I; discriminate).
      destruct (IH (x :: seen)) as [N S]. split.
      * constructor; auto. rewrite S. simpl. intros [_ NI]. apply NI. now left.
      * intros z. simpl. rewrite S. simpl. split.
        -- intros [-> | [I NI]]; auto.
        -- intros [[-> | I] NI]; auto.
           destruct (Z.eq_dec x z) as [-> | D]; auto.
           right. split; auto. intros [? | ?]; auto.
Qed.

Lemma sorted_nodup_strict (l : list Z) :
  StronglySorted (fun a b => Z.leb a b = true) l -> NoDup l ->
  StronglySorted Z.lt l.
Proof.
  induction 1 as [|a l S IH F]; intros N; constructor;
    inversion N as [|? ? NI N']; subst; auto.
  rewrite Forall_forall in *. intros b I.
  specialize (F b I). apply Z.leb_le in F.
  assert (a <> b) by (intros ->; contradiction). lia.
Qed.

Lemma sorted_app_lt (l1 l2 : list Z) :
  StronglySorted Z.lt (l1 ++ l2) ->
  forall x y, In x l1 -> In y l2 -> x < y.
Proof.
  induction l1 as [|a l1 IH]; simpl; intros S x y I1 I2; [contradiction|].
  inversion S as [|? ? S' F]; subst.
  destruct I1 as [-> | I1].
  - rewrite Forall_forall in F. apply F. apply in_or_app. now right.
  - now apply IH.
Qed.

Lemma strict_first_last (l : list Z) :
  StronglySorted Z.lt l ->
  match hd_error l, hd_error (rev l) with
  | Some lo, Some hi =>
      In lo l /\ In hi l /\ forall y, In y l -> lo <= y <= hi
  | None, None => l = []
  | _, _ => False
  end.
Proof.
  intros S. destruct l as [|a t]; [reflexivity|].
  cbn [hd_error].
  destruct (rev (a :: t)) as [|hi r] eqn:R.
  - apply (f_equal (@length Z)) in R. rewrite length_rev in R. discriminate.
  - cbn [hd_error].
    assert (E : a :: t = rev r ++ [hi]).
    { rewrite <- (rev_involutive (a :: t)), R. reflexivity. }
    split; [now left|]. split.
    + rewrite E. apply in_or_app. right. now left.
    + intros y I. split.
      * inversion S as [|? ? _ F]; subst. destruct I as [-> | I]; [lia|].
        rewrite Forall_forall in F. specialize (F y I). lia.
      * rewrite E in I, S. apply in_app_or in I. destruct I as [I | [-> | []]]; [|lia].
        assert (y < hi); [|lia].
        apply (sorted_app_lt _ _ S); auto. now left.
Qed.

Lemma traverse_In {A B} (f : A -> result B) (l : list A) (r : list B) :
  traverse f l = inr r ->
  forall b, In b r <-> exists a, In a l /\ f a = inr b.
Proof.
  revert r; induction l as [|x l IH]; simpl; intros r H b.
  - inversion H; subst. split; [contradiction | intros [a [[] _]]].
  - destruct (f x) as [e|y] eqn:Fx; try discriminate.
    destruct (traverse f l) as [e|r'] eqn:T; try discriminate.
    inversion H; subst. simpl. rewrite (IH r' eq_refl b). split.
    + intros [<- | [a [I E]]]; eauto.
    + intros [a [[<- | I] E]]; [left; congruence | right; eauto].
Qed.

Lemma years_of_sorted (anio : Series) (ys : list Z) :
  years_of anio = inr ys -> StronglySorted Z.lt ys.
Proof.
  unfold years_of.
  destruct (traverse astype_int_cell (filter (fun c => negb (isna c)) anio))
    as [e|zs] eqn:T; [discriminate|].
  intros [= <-].
  destruct (unique_Z_spec zs []) as [N U].
  apply sorted_nodup_strict.
  - apply isort_strongly with (dom := fun _ => True).
    + intros a b _ _. destruct (Z.leb_spec a b); auto.
      right. apply Z.leb_le. lia.
    + intros a b c _ _ _ H1 H2. apply Z.leb_le in H1, H2. apply Z.leb_le. lia.
    + apply Forall_forall. auto.
  - apply (Permutation_NoDup (isort_perm Z.leb (unique_Z zs [])) N).
Qed.

(** X22: when it returns, the list of years [Incendios.__init__] computes
    from the [anio] column is strictly ascending (so free of duplicates) and
    holds exactly the integers the non-missing cells of the column convert
    to. *)
Theorem years_of_strictly_ascending (anio : Series) (ys : list Z) :
  years_of anio = inr ys ->
  StronglySorted Z.lt ys
  /\ forall y, In y ys <->
       exists c, In c anio /\ isna c = false /\ astype_int_cell c = inr y.
Proof.
  unfold years_of.
  destruct (traverse astype_int_cell (filter (fun c => negb (isna c)) anio))
    as [e|zs] eqn:T; [discriminate|].
  intros [= <-].
  destruct (unique_Z_spec zs []) as [N U].
  pose proof (isort_perm Z.leb (unique_Z zs [])) as P.
  split.
  - apply years_of_sorted with (anio := anio). unfold years_of. now rewrite T.
  - intros y. split.
    + intros I. apply (Permutation_in _ (Permutation_sym P)) in I.
      apply U in I. destruct I as [I _].
      apply (traverse_In _ _ T) in I. destruct I as [c [Ic E]].
      apply filter_In in Ic. destruct Ic as [Ic Na].
      exists c. repeat split; auto. now destruct (isna c).
    + intros [c [Ic [Na E]]].
      apply (Permutation_in _ P). apply U. split; [|auto].
      apply (traverse_In _ _ T). exists c. split; auto.
      apply filter_In. split; auto. now rewrite Na.
Qed.

Lemma wp_bind_any {A B} (m : M A) (f : A -> M B)
    (Q : result B -> world -> Prop) (w : world) :
  (forall e w', Q (inl e) w') ->
  (forall a w', wp (f a) Q w') ->
  wp (bind m f) Q w.
Proof.
  intros He Ha. apply wp_bind. unfold wp at 1.
  destruct (fst (m w)); auto.
Qed.

Lemma Incendios_init_years (df_raw geojson : loc) (w : world) :
  wp (Incendios_init df_raw geojson)
     (fun r _ => match r with
                 | inl _ => True
                 | inr ds =>
                     StronglySorted Z.lt (inc_years ds)
                     /\ inc_min_year ds = hd_error (inc_years ds)
                     /\ inc_max_year ds = hd_error (rev (inc_years ds))
                 end) w.
Proof.
  unfold Incendios_init.
  apply wp_bind_any; [auto | intros df_prepared w1].
  apply wp_bind_any; [auto | intros pm w2].
  apply wp_bind_any; [auto | intros df w3].
  apply wp_bind_any; [auto | intros d w4].
  destruct (df_has d "anio" && negb (df_empty d)).
  - apply wp_bind_any; [auto | intros anio w5].
    apply wp_bind, wp_lift.
    destruct (years_of anio) as [e|years] eqn:Y; [exact I|].
    apply wp_ret. cbn [inc_years inc_min_year inc_max_year].
    split; auto. now apply (@years_of_sorted anio years).
  - apply wp_ret. cbn [inc_years inc_min_year inc_max_year].
    split; auto. constructor.
Qed.

(** X23: for every dataset [Incendios.__init__] builds, the years are
    strictly ascending, [min_year] and [max_year] are its smallest and
    largest year, and the dashboard's year slider is well formed: its range
    is [min_year .. max_year] and its initial selection starts at [min_year]
    and ends at [min(min_year + 10, max_year)], inside the range.  The
    dashboard stops for lack of years exactly when the list is empty. *)
Theorem Incendios_year_range (df_raw geojson : loc) (w w' : world)
    (ds : Incendios) :
  Incendios_init df_raw geojson w = (inr ds, w') ->
  StronglySorted Z.lt (inc_years ds)
  /\ match year_slider ds with
     | Some (lo, hi, (a, b)) =>
         inc_min_year ds = Some lo /\ inc_max_year ds = Some hi
         /\ In lo (inc_years ds) /\ In hi (inc_years ds)
         /\ (forall y, In y (inc_years ds) -> lo <= y <= hi)
         /\ a = lo /\ b = Z.min (lo + 10) hi /\ lo <= b <= hi
     | None => inc_years ds = []
     end.
Proof.
  intros R. pose proof (Incendios_init_years df_raw geojson w) as H.
  unfold wp in H. rewrite R in H. cbn [fst snd] in H.
  destruct H as [S [Lo Hi]]. split; auto.
  pose proof (strict_first_last S) as B.
  unfold year_slider. rewrite Lo, Hi.
  destruct (hd_error (inc_years ds)) as [lo|], (hd_error (rev (inc_years ds))) as [hi|];
    try contradiction; auto.
  destruct B as [I1 [I2 Bd]].
  repeat (split; auto); specialize (Bd lo I1); lia.
Qed.

(** ** plots.py: the figures show what the aggregations return *)

Lemma sum_columns_names (d : DataFrame) (keycol : Series) (keys : list cell)
    (specs : list (string * string)) (cs : list (string * Series)) :
  sum_columns d keycol keys specs = inr cs -> map fst cs = map fst specs.
Proof.
  revert cs; induction specs as [|[o i] specs IH]; simpl; intros cs H.
  - now inversion H.
  - destruct (df_col d i); try discriminate.
    destruct (sum_groups keycol keys s); try discriminate.
    destruct (sum_columns d keycol keys specs); try discriminate.
    inversion H; subst. simpl. f_equal. now apply IH.
Qed.

Lemma groupby_sum_shape (d : DataFrame) (key : string)
    (specs : list (string * string)) (grp : DataFrame) :
  groupby_sum d key specs = inr grp ->
  exists keys cs,
    grp = mkDF (length keys) ((key, keys) :: cs)
    /\ map fst cs = map fst specs
    /\ str_mem key (map fst specs) = false.
Proof.
  unfold groupby_sum. destruct (df_col d key) as [keycol|]; [|discriminate].
  destruct (sum_columns d keycol (group_keys keycol) specs) as [e|cs] eqn:S;
    [discriminate|].
  destruct (str_mem key (map fst specs)) eqn:M; [discriminate|].
  intros [= <-]. exists (group_keys keycol), cs.
  repeat split; auto. eapply sum_columns_names; eauto.
Qed.

Lemma assoc_get_in_keys {V} (c : string) (l : list (string * V)) :
  In c (map fst l) -> exists v, assoc_get String.eqb c l = Some v.
Proof.
  induction l as [|[k v] l IH]; simpl; [contradiction|].
  intros I. destruct (String.eqb_spec c k); eauto.
  destruct I as [-> | I]; [contradiction | auto].
Qed.

Lemma str_mem_false_neq (c : string) (l : list string) (x : string) :
  str_mem c l = false -> In x l -> x <> c.
Proof.
  intros M I ->. apply str_mem_In in I. congruence.
Qed.

Lemma aggregate_resources_by_year_run (w : world) (df : loc) (d : DataFrame)
    (year_col : string) (resource_cols : list string) :
  nth_error (frames w) df = Some d ->
  aggregate_resources_by_year df year_col resource_cols w
  = match (if negb (is_empty (missing_columns d resource_cols))
           then inl (KeyError "Faltan columnas de recursos para agregar por año: "
                       (missing_columns d resource_cols))
           else groupby_sum d year_col (map (fun c => (c, c)) resource_cols)) with
    | inl e => (inl e, mkWorld (frames w ++ [d]) (geos w))
    | inr grp => (inr (length (frames w ++ [d])),
                  mkWorld ((frames w ++ [d]) ++ [grp]) (geos w))
    end.
Proof.
  intros Hd. unfold aggregate_resources_by_year.
  erewrite bind_ok by (apply copy_run; eauto).
  erewrite bind_ok by apply read_df_last.
  cbv zeta. destruct (negb (is_empty (missing_columns d resource_cols))).
  - reflexivity.
  - destruct (groupby_sum d year_col (map (fun c => (c, c)) resource_cols)).
    + reflexivity.
    + cbn [lift]. erewrite bind_ok by reflexivity.
      reflexivity.
Qed.

Lemma resource_traces_ok (grp : DataFrame) (year_col : string)
    (resource_cols : list string) (rename_map : option (list (string * string)))
    (x : Series) :
  df_col grp year_col = Some x ->
  (forall c, In c resource_cols -> exists y, df_col grp c = Some y) ->
  exists ts,
    resource_traces grp year_col resource_cols rename_map = inr ts
    /\ length ts = length resource_cols
    /\ forall i c, nth_error resource_cols i = Some c ->
       exists t, nth_error ts i = Some t
                 /\ tr_kind t = Bar /\ tr_x t = x /\ df_col grp c = Some (tr_y t).
Proof.
  intros X. induction resource_cols as [|c rest IH]; intros H.
  - exists []. repeat split; auto. intros [|i] c; discriminate.
  - destruct (H c) as [y Y]; [now left|].
    destruct IH as [ts [R [L N]]]; [intros; apply H; now right|].
    cbn [resource_traces]. rewrite X, Y, R.
    eexists. split; [reflexivity|]. split; [simpl; now rewrite L|].
    intros [|i] c'; simpl.
    + intros [= <-]. eexists. repeat split; auto.
    + apply N.
Qed.

(** X24: [stacked_resources_by_year] draws what
    [aggregate_resources_by_year] computes.  Whenever the aggregation
    returns a frame for a list of distinct resource columns, the figure has
    one bar trace per resource column, in the order of the list, whose x is
    the year column of that frame and whose y is the frame's column of the
    same name; the bars are stacked, and the store is not touched. *)
Theorem stacked_resources_plots_the_aggregate (w : world) (df : loc)
    (d grp : DataFrame) (year_col : string) (resource_cols : list string)
    (rename_map : option (list (string * string))) (title : option string) :
  nth_error (frames w) df = Some d ->
  NoDup resource_cols ->
  result_frame (aggregate_resources_by_year df year_col resource_cols w) = inr grp ->
  exists x fig,
    stacked_resources_by_year df year_col resource_cols rename_map title w
    = (inr fig, w)
    /\ df_col grp year_col = Some x
    /\ fig_barmode fig = Some "stack"
    /\ length (fig_data fig) = length resource_cols
    /\ forall i c, nth_error resource_cols i = Some c ->
       exists t, nth_error (fig_data fig) i = Some t
                 /\ tr_kind t = Bar /\ tr_x t = x /\ df_col grp c = Some (tr_y t).
Proof.
  intros Hd _ R.
  rewrite (@aggregate_resources_by_year_run w df d year_col resource_cols Hd) in R.
  unfold stacked_resources_by_year.
  erewrite bind_ok by (apply read_df_run; exact Hd). cbv zeta.
  destruct (negb (is_empty (missing_columns d resource_cols))); [discriminate|].
  destruct (groupby_sum d year_col (map (fun c => (c, c)) resource_cols))
    as [e|g0] eqn:G; [discriminate|].
  assert (g0 = grp) as ->.
  { rewrite result_frame_alloc in R. congruence. }
  destruct (groupby_sum_shape _ _ _ G) as [keys [cs [E [Nm M]]]].
  rewrite map_map in Nm, M. cbn [fst] in Nm, M. rewrite map_id in Nm, M.
  assert (X : df_col grp year_col = Some keys).
  { rewrite E. unfold df_col. cbn [cols assoc_get]. now rewrite String.eqb_refl. }
  destruct (@resource_traces_ok grp year_col resource_cols rename_map keys X)
    as [ts [T [L N]]].
  { intros c I. rewrite E. unfold df_col. cbn [cols assoc_get].
    pose proof (@str_mem_false_neq year_col resource_cols c M I) as D.
    destruct (String.eqb_spec c year_col); [contradiction|].
    rewrite <- Nm in I. exact (@assoc_get_in_keys _ c cs I). }
  cbn [lift]. erewrite bind_ok by reflexivity.
  rewrite T. cbn [lift]. erewrite bind_ok by reflexivity.
  unfold ret. eexists keys, _. split; [reflexivity|].
  cbn [fig_barmode fig_data]. auto.
Qed.

Lemma aggregate_burned_area_by_year_run (w : world) (df : loc) (d : DataFrame)
    (year_col area_col fallback_area_col : string) :
  nth_error (frames w) df = Some d ->
  let col := if df_has d area_col then area_col else fallback_area_col in
  aggregate_burned_area_by_year df year_col area_col fallback_area_col w
  = match (if negb (df_has d col)
           then inl (KeyError "No se encontró columna de área quemada: "
                       [area_col; fallback_area_col])
           else groupby_sum d year_col [(col, col)]) with
    | inl e => (inl e, mkWorld (frames w ++ [d]) (geos w))
    | inr serie => (inr (length (frames w ++ [d])),
                    mkWorld ((frames w ++ [d])
                             ++ [df_rename serie col "hectareas_quemadas"]) (geos w))
    end.
Proof.
  intros Hd col. unfold aggregate_burned_area_by_year.
  erewrite bind_ok by (apply copy_run; eauto).
  erewrite bind_ok by apply read_df_last.
  cbv zeta. fold col. destruct (negb (df_has d col)).
  - reflexivity.
  - destruct (groupby_sum d year_col [(col, col)]).
    + reflexivity.
    + cbn [lift]. erewrite bind_ok by reflexivity.
      reflexivity.
Qed.

(** X25: [line_hectares_by_year] draws what [aggregate_burned_area_by_year]
    computes, for a year column not itself called [hectareas_quemadas].
    When the aggregation returns a frame, the figure has a single line
    trace whose x is the frame's year column and whose y is its
    [hectareas_quemadas] column; when the aggregation raises, the plot
    raises the same exception.  The plot never touches the store. *)
Theorem line_hectares_plots_the_aggregate (w : world) (df : loc) (d : DataFrame)
    (year_col area_col fallback_area_col : string) (title : option string) :
  nth_error (frames w) df = Some d ->
  year_col <> "hectareas_quemadas" ->
  snd (line_hectares_by_year df year_col area_col fallback_area_col title w) = w
  /\ match result_frame (aggregate_burned_area_by_year df year_col area_col
                           fallback_area_col w) with
     | inl e =>
         fst (line_hectares_by_year df year_col area_col fallback_area_col title w)
         = inl e
     | inr agg =>
         exists fig t,
           fst (line_hectares_by_year df year_col area_col fallback_area_col
                  title w) = inr fig
           /\ fig_data fig = [t]
           /\ tr_kind t = Scatter
           /\ df_col agg year_col = Some (tr_x t)
           /\ df_col agg "hectareas_quemadas" = Some (tr_y t)
     end.
Proof.
  intros Hd NY.
  rewrite (@aggregate_burned_area_by_year_run w df d year_col area_col
             fallback_area_col Hd).
  cbv zeta. unfold line_hectares_by_year.
  erewrite bind_ok by (apply read_df_run; exact Hd). cbv zeta.
  set (col := if df_has d area_col then area_col else fallback_area_col).
  destruct (negb (df_has d col)); [split; reflexivity|].
  destruct (groupby_sum d year_col [(col, col)]) as [e|serie] eqn:G;
    [split; reflexivity|].
  destruct (groupby_sum_shape _ _ _ G) as [keys [cs [E [Nm M]]]].
  destruct cs as [|[c1 sums] [|? ?]]; try discriminate.
  cbn in Nm. injection Nm as ->.
  unfold str_mem in M. cbn [map fst existsb] in M. rewrite orb_false_r in M.
  assert (CY : String.eqb col year_col = false) by (now rewrite String.eqb_sym).
  assert (HY : String.eqb "hectareas_quemadas" year_col = false).
  { apply String.eqb_neq. congruence. }
  cbn [lift]. erewrite bind_ok by reflexivity.
  subst serie. unfold df_col. cbn [cols assoc_get].
  rewrite String.eqb_refl, CY, String.eqb_refl.
  cbn [lift]. erewrite bind_ok by reflexivity.
  erewrite bind_ok by reflexivity.
  unfold ret. cbn [fst snd]. split; [reflexivity|].
  rewrite result_frame_alloc.
  eexists _, _. split; [reflexivity|]. split; [reflexivity|].
  split; [reflexivity|].
  unfold df_rename, df_col. cbn [cols map fst snd assoc_get].
  rewrite M, String.eqb_refl, String.eqb_refl, HY. auto.
Qed.

Lemma argsort_asc_rows (keys sums : Series) :
  length keys = length sums -> Forall finite_cell sums ->
  exists rows,
    take_rows keys (argsort sums true) = map fst rows
    /\ take_rows sums (argsort sums true) = map snd rows
    /\ Permutation rows (combine keys sums)
    /\ StronglySorted (fun a b : cell * cell => cell_leb (snd a) (snd b) = true) rows.
Proof.
  intros L F.
  set (indexed := combine sums (seq 0 (length sums))).
  set (leb := fun p q : cell * nat => cell_leb (fst p) (fst q)).
  set (g := fun p : cell * nat => (nth (snd p) keys CNaN, fst p)).
  assert (D : Forall (fun p : cell * nat => finite_cell (fst p)) indexed).
  { apply Forall_forall. intros [v i] I. apply in_combine_l in I.
    rewrite Forall_forall in F. now apply F. }
  assert (NA : Forall (fun p : cell * nat => isna (fst p) = false) indexed).
  { eapply Forall_impl; [|exact D]. intros [v i]; simpl.
    destruct v; simpl; intros Fv; (contradiction || reflexivity). }
  assert (E : argsort sums true = map snd (isort leb indexed)).
  { unfold argsort. fold indexed.
    rewrite filter_all, filter_none, app_nil_r; auto.
    eapply Forall_impl; [|exact NA]. simpl. now intros p ->. }
  exists (map g (isort leb indexed)). rewrite E. unfold take_rows.
  repeat split.
  - rewrite !map_map. reflexivity.
  - rewrite !map_map. apply map_ext_in. intros p I. simpl.
    apply (Permutation_in _ (Permutation_sym (isort_perm leb indexed))) in I.
    apply combine_seq_nth in I. destruct I as [_ N].
    rewrite Nat.sub_0_r in N. now apply nth_error_nth.
  - eapply perm_trans.
    + apply Permutation_map. apply Permutation_sym, isort_perm.
    + unfold indexed, g.
      rewrite <- (@combine_seq_rows keys sums 0 [] L eq_refl). reflexivity.
  - apply StronglySorted_map with (R := fun a b => leb a b = true).
    + intros a b H. exact H.
    + apply isort_strongly with (dom := fun p : cell * nat => finite_cell (fst p));
        auto; unfold leb.
      * intros a b Da Db. destruct (cell_leb_total (fst a) (fst b)); auto.
      * intros a b c Da Db Dc H1 H2.
        apply cell_leb_trans with (b := fst b); auto.
Qed.

Lemma combine_fst_snd {A B} (l : list (A * B)) :
  combine (map fst l) (map snd l) = l.
Proof. induction l as [|[a b] l IH]; simpl; congruence. Qed.

Lemma groupby_sum_named (d : DataFrame) (c : string) (keycol s : Series) :
  df_col d "provincia" = Some keycol -> df_col d c = Some s ->
  forallb area_ok s = true ->
  groupby_sum d "provincia" [("hectareas_quemadas", c)]
  = inr (mkDF (length (group_keys keycol))
              [ ("provincia", group_keys keycol);
                ("hectareas_quemadas",
                 map (group_total keycol s) (group_keys keycol)) ]).
Proof.
  intros K C OK. unfold groupby_sum. rewrite K. cbn [sum_columns]. rewrite C.
  unfold sum_groups.
  rewrite traverse_map with (h := group_total keycol s).
  2:{ intros k _. now apply group_total_finite. }
  reflexivity.
Qed.

(** X26: [horizontal_top_provinces] draws the rows
    [top_provinces_by_burned_area] returns, in the opposite order.  On a
    table with a province column and a summable burned-area column, and for
    [n >= 0], the single horizontal bar trace holds exactly the rows of the
    frame the aggregation returns for the same [n] (province on y, hectares
    on x), reordered so that the hectares ascend.  The plot does not touch
    the store. *)
Theorem horizontal_top_provinces_reorders_top (w : world) (df : loc)
    (d : DataFrame) (n : Z) (pcol acol : Series) (title : option string) :
  nth_error (frames w) df = Some d ->
  df_col d "provincia" = Some pcol ->
  area_column d = Some acol ->
  forallb area_ok acol = true ->
  0 <= n ->
  exists top bars fig t,
    result_frame (top_provinces_by_burned_area df n "provincia"
                    "hectareas_quemadas" "perdidassuperficiales" false w)
    = inr (top_frame top)
    /\ horizontal_top_provinces df n "provincia" "hectareas_quemadas"
         "perdidassuperficiales" title w = (inr fig, w)
    /\ fig_data fig = [t]
    /\ tr_kind t = Bar /\ tr_orientation t = Some "h"
    /\ tr_y t = map fst bars /\ tr_x t = map snd bars
    /\ Permutation bars top
    /\ StronglySorted (fun a b : cell * cell => cell_leb (snd a) (snd b) = true) bars.
Proof.
  intros Hd P A OK N.
  destruct (@top_provinces_run w df d n pcol acol Hd P A OK N)
    as [rows [Pm [Sd R]]].
  set (top := firstn (Z.to_nat n) rows).
  (* the frame the aggregation holds before [head] *)
  assert (X : exists c, df_col d c = Some acol /\ "provincia" <> c
              /\ (if df_has d "hectareas_quemadas" then "hectareas_quemadas"
                  else "perdidassuperficiales") = c
              /\ df_has d c = true).
  { unfold area_column in A. rewrite !df_has_col.
    destruct (df_col d "hectareas_quemadas") as [s|] eqn:H1.
    - exists "hectareas_quemadas". rewrite !df_has_col, H1.
      repeat split; auto; discriminate.
    - exists "perdidassuperficiales". rewrite !df_has_col, A.
      repeat split; auto; discriminate. }
  destruct X as [c [C [NE [Ec Hc]]]].
  set (keys := group_keys pcol) in *.
  set (sums := map (group_total pcol acol) keys) in *.
  assert (H : head (mkDF (length (argsort sums false))
                      [ ("provincia", take_rows keys (argsort sums false));
                        ("hectareas_quemadas",
                         take_rows sums (argsort sums false)) ]) n
              = top_frame top).
  { revert R. unfold top_provinces_by_burned_area.
    erewrite bind_ok by (apply copy_run; eauto).
    erewrite bind_ok by apply read_df_last.
    cbv zeta. rewrite Ec, Hc. cbn [negb].
    rewrite (groupby_sum_one d P C OK NE). cbn [lift].
    erewrite bind_ok by reflexivity.
    rewrite df_rename_two by auto. fold keys sums.
    rewrite sort_values_two. cbn [lift].
    erewrite bind_ok by reflexivity.
    unfold alloc_df. cbn [frames geos]. intros [= _ E].
    replace (frames w ++ [d; top_frame (firstn (Z.to_nat n) rows)])
      with ((frames w ++ [d]) ++ [top_frame top]) in E
      by (now rewrite <- app_assoc).
    now apply app_inj_tail in E. }
  assert (LT : length (map fst top) = length (map snd top))
    by (now rewrite !length_map).
  assert (FT : Forall finite_cell (map snd top)).
  { apply Forall_map, Forall_forall. intros r I.
    unfold top in I. rewrite <- (firstn_skipn (Z.to_nat n) rows) in Pm.
    assert (I' : In r (firstn (Z.to_nat n) rows ++ skipn (Z.to_nat n) rows))
      by (apply in_or_app; now left).
    clear I. rename I' into I.
    apply (Permutation_in _ Pm) in I. unfold group_sum_rows in I.
    apply in_map_iff in I. destruct I as [k [<- _]]. cbn [snd].
    now apply group_total_finite. }
  destruct (argsort_asc_rows (map fst top) LT FT) as [bars [Tk [Ts [Pb Sb]]]].
  rewrite combine_fst_snd in Pb.
  exists top, bars. eexists _, _.
  split.
  { rewrite R.
    replace (frames w ++ [d; top_frame (firstn (Z.to_nat n) rows)])
      with ((frames w ++ [d]) ++ [top_frame top])
      by (now rewrite <- app_assoc).
    replace (S (length (frames w))) with (length (frames w ++ [d]))
      by (rewrite length_app; simpl; lia).
    apply result_frame_alloc. }
  split.
  - unfold horizontal_top_provinces.
    erewrite bind_ok by (apply read_df_run; exact Hd).
    cbv zeta. rewrite Ec, Hc. cbn [negb].
    rewrite (@groupby_sum_named d c pcol acol P C OK). cbn [lift].
    erewrite bind_ok by reflexivity.
    fold keys sums. rewrite sort_values_two. cbn [lift].
    erewrite bind_ok by reflexivity.
    rewrite H. unfold top_frame at 1. rewrite sort_values_two. cbn [lift].
    erewrite bind_ok by reflexivity.
    unfold df_col. cbn [cols assoc_get].
    change (String.eqb "hectareas_quemadas" "provincia") with false.
    cbv iota. rewrite !String.eqb_refl. cbn [lift].
    erewrite bind_ok by reflexivity.
    erewrite bind_ok by reflexivity.
    rewrite Tk, Ts. reflexivity.
  - cbn [fig_data tr_kind tr_orientation tr_y tr_x]. repeat split; auto.
Qed.

(** ** The dashboard's map: grouped provinces never match twice *)

Lemma num_eqb_sym (x y : num) : num_eqb x y = num_eqb y x.
Proof.
  assert (Q : forall p q, Qeq_bool p q = Qeq_bool q p).
  { intros p q. destruct (Qeq_bool p q) eqn:E1, (Qeq_bool q p) eqn:E2; auto.
    - apply Qeq_bool_iff in E1. symmetry in E1. apply Qeq_bool_iff in E1. congruence.
    - apply Qeq_bool_iff in E2. symmetry in E2. apply Qeq_bool_iff in E2. congruence. }
  destruct x as [a|p|a], y as [b|q|b]; simpl; auto.
  - apply Z.eqb_sym.
  - now destruct a, b.
Qed.

Lemma cell_eqb_symmetric (a b : cell) : cell_eqb a b = cell_eqb b a.
Proof.
  destruct a as [x| | |s|u], b as [y| | |t|v]; simpl; auto.
  - apply num_eqb_sym.
  - apply String.eqb_sym.
  - now destruct u, v.
Qed.

Lemma num_eqb_joint (n x y : num) :
  num_eqb n x = true -> num_eqb n y = true -> num_eqb x y = true.
Proof.
  destruct n as [a|p|a], x as [b|q|b], y as [c|r|c]; simpl; try discriminate;
    intros H1 H2;
    try (destruct a, b, c; simpl in *; congruence);
    repeat match goal with
           | H : (_ =? _) = true |- _ => apply Z.eqb_eq in H
           | H : Qeq_bool _ _ = true |- _ => apply Qeq_bool_iff in H
           end;
    match goal with
    | |- Qeq_bool _ _ = true => apply Qeq_bool_iff
    | |- (_ =? _) = true => apply Z.eqb_eq
    end;
    first [ congruence
          | subst; assumption
          | subst; symmetry; assumption
          | apply inject_Z_injective; rewrite <- H1; exact H2
          | rewrite <- H1; exact H2 ].
Qed.

(** Two labels equal to the same property value are equal to each other. *)
Lemma json_cell_eqb_joint (j : json) (a b : cell) :
  isna a = false ->
  json_cell_eqb j a = true -> json_cell_eqb j b = true -> cell_eqb a b = true.
Proof.
  destruct j as [|n|s|u], a as [x| | |t|v], b as [y| | |t'|v']; simpl;
    try discriminate; intros _ H1 H2.
  - now apply num_eqb_joint with (n := n).
  - apply String.eqb_eq in H1, H2. subst. apply String.eqb_refl.
  - destruct u, v, v'; simpl in *; congruence.
Qed.

Lemma distinct_pairwise (s : Series) (seen : list cell) :
  ForallOrdPairs (fun a b => cell_eqb a b = false) (distinct s seen)
  /\ Forall (fun k => isna k = false
                      /\ Forall (fun x => cell_eqb k x = false) seen)
            (distinct s seen).
Proof.
  revert seen; induction s as [|c s IH]; intros seen; simpl.
  - split; constructor.
  - destruct (isna c) eqn:N; cbn [orb]; [apply IH|].
    destruct (existsb (cell_eqb c) seen) eqn:E; [apply IH|].
    destruct (IH (c :: seen)) as [P F]. split.
    + constructor; auto. eapply Forall_impl; [|exact F].
      intros k [_ K]. inversion K; subst. now rewrite cell_eqb_symmetric.
    + constructor.
      * split; auto. apply Forall_forall. intros x I.
        destruct (cell_eqb c x) eqn:X; auto.
        assert (existsb (cell_eqb c) seen = true)
          by (apply existsb_exists; eauto). congruence.
      * eapply Forall_impl; [|exact F]. intros k [Nk K]. split; auto.
        now inversion K.
Qed.

Lemma group_keys_pairwise (s : Series) :
  ForallOrdPairs (fun a b => cell_eqb a b = false) (group_keys s)
  /\ Forall (fun k => isna k = false) (group_keys s).
Proof.
  destruct (distinct_pairwise s []) as [P F]. unfold group_keys.
  pose proof (isort_perm cell_leb (distinct s [])) as Pm. split.
  - apply ForallOrdPairs_perm with (l := distinct s []); auto.
    intros a b H. now rewrite cell_eqb_symmetric.
  - apply (Permutation_Forall Pm). eapply Forall_impl; [|exact F]. now intros k [].
Qed.

Lemma matching_rows_none (j : json) (l : Series) (i : nat) :
  Forall (fun b => json_cell_eqb j b = false) l -> matching_rows j l i = [].
Proof.
  intros F; revert i; induction F as [|b l H _ IH]; intros i; simpl; auto.
  now rewrite H.
Qed.

Lemma matching_rows_pairwise (j : json) (l : Series) (i : nat) :
  ForallOrdPairs (fun a b => cell_eqb a b = false) l ->
  Forall (fun k => isna k = false) l ->
  (length (matching_rows j l i) <= 1)%nat.
Proof.
  intros P; revert i; induction P as [|a l Fa P IH]; intros i N; simpl; auto.
  inversion N as [|? ? Na Nl]; subst.
  destruct (json_cell_eqb j a) eqn:E; [|now apply IH].
  rewrite matching_rows_none; [simpl; lia|].
  rewrite Forall_forall in *. intros b I.
  destruct (json_cell_eqb j b) eqn:Eb; auto.
  specialize (Fa b I). cbv beta in Fa.
  rewrite (json_cell_eqb_joint j a b Na E Eb) in Fa. discriminate.
Qed.

Lemma unique_matches_group_keys (fs : list Feature) (geo_name_field : string)
    (s : Series) :
  unique_matches fs geo_name_field (group_keys s).
Proof.
  intros f _. destruct (group_keys_pairwise s) as [P N].
  now apply matching_rows_pairwise.
Qed.

Lemma groupby_sum_keys (d : DataFrame) (key : string)
    (specs : list (string * string)) (grp : DataFrame) :
  groupby_sum d key specs = inr grp ->
  exists keycol cs,
    grp = mkDF (length (group_keys keycol)) ((key, group_keys keycol) :: cs)
    /\ map fst cs = map fst specs.
Proof.
  unfold groupby_sum. destruct (df_col d key) as [keycol|]; [|discriminate].
  destruct (sum_columns d keycol (group_keys keycol) specs) as [e|cs] eqn:S;
    [discriminate|].
  destruct (str_mem key (map fst specs)); [discriminate|].
  intros [= <-]. exists keycol, cs. split; auto.
  eapply sum_columns_names; eauto.
Qed.

(** A frame [group_by_province_for_map] returns is the result of a grouped
    sum with the four named aggregations. *)
Lemma group_by_province_for_map_result (w : world) (df : loc)
    (province_col : string) :
  wp (group_by_province_for_map df province_col)
     (fun r w' =>
        forall l, r = inr l ->
        exists d1 grouped,
          nth_error (frames w') l = Some grouped
          /\ groupby_sum d1 province_col
               [ ("total_medios", "total_medios");
                 ("numeromediospersonal", "numeromediospersonal");
                 ("numeromediospesados", "numeromediospesados");
                 ("numeromediosaereos", "numeromediosaereos") ] = inr grouped) w.
Proof.
  unfold group_by_province_for_map.
  apply wp_bind_any; [discriminate | intros out w1].
  apply wp_bind_any; [discriminate | intros has w2].
  apply wp_bind_any; [discriminate | intros out' w3].
  apply wp_bind_any; [discriminate | intros d w4].
  cbv zeta. destruct (negb (is_empty (missing_columns d RESOURCE_COLUMNS))).
  - apply wp_raise. discriminate.
  - apply wp_bind, wp_lift.
    destruct (groupby_sum d province_col _) as [e|agg] eqn:G; [discriminate|].
    unfold wp, alloc_df. cbn [fst snd frames]. intros l [= <-].
    exists d, agg. split; auto. apply nth_error_app_last.
Qed.

(** Without ambiguous lookups the loop can only stop at a null property
    bag. *)
Lemma enrich_features_unique (lk : Lookup) (cols_to_copy : list string)
    (geo_name_field : string) (fs : list Feature) :
  (forall f, In f fs -> forall col, In col cols_to_copy ->
     matching_rows (feature_key f geo_name_field) (lk_index lk) 0 <> [] ->
     exists c, pick lk (matching_rows (feature_key f geo_name_field)
                          (lk_index lk) 0) col = Scalar c) ->
  fst (enrich_features lk cols_to_copy geo_name_field fs)
  = if no_null_bag fs then None else Some none_has_no_get.
Proof.
  induction fs as [|f fs IH]; intros P; cbn [enrich_features no_null_bag forallb].
  - reflexivity.
  - destruct (null_bag f) eqn:NB; cbn [negb andb].
    + unfold enrich_feature. now rewrite NB.
    + destruct (@enrich_feature_ok lk cols_to_copy geo_name_field f NB)
        as [p' [R _]].
      { intros col Ic NE. apply P; auto. now left. }
      rewrite R. fold (no_null_bag fs).
      rewrite <- IH by (intros x I; apply P; now right).
      now destruct (enrich_features lk cols_to_copy geo_name_field fs).
Qed.

(** The outcome of the enrichment when no feature name matches two rows. *)
Lemma enrich_run_unique (w : world) (df geojson : loc) (d : DataFrame)
    (g : GeoJSON) (geo_name_field df_key : string)
    (columns : option (list string)) (keys : Series) :
  nth_error (frames w) df = Some d ->
  nth_error (geos w) geojson = Some g ->
  df_col d df_key = Some keys ->
  distinct_columns d df_key columns ->
  unique_matches (geo_features g) geo_name_field keys ->
  fst (enrich_geojson_with_dataframe df geojson geo_name_field df_key columns
         true w)
  = if no_null_bag (geo_features g) then inr (length (geos w))
    else inl none_has_no_get.
Proof.
  intros Hd Hg K ND U.
  rewrite (@enrich_outcome w df geojson d g geo_name_field df_key columns
             true Hd Hg).
  cbv zeta. rewrite K. cbn [fst].
  unfold geo_features in *.
  destruct (features g) as [fs|]; [|reflexivity].
  set (cs := selected_columns d df_key columns).
  set (lk := lookup_of keys d df_key cs).
  assert (LI : lk_index lk = keys).
  { unfold lk, lookup_of. now destruct cs. }
  pose proof (@enrich_features_unique lk cs geo_name_field fs) as E.
  destruct (enrich_features lk cs geo_name_field fs) as [e fs'].
  cbn [fst] in *. rewrite E.
  - now destruct (no_null_bag fs).
  - intros f I col Ic NE. rewrite LI in *. specialize (U f I).
    destruct (matching_rows (feature_key f geo_name_field) keys 0)
      as [|r [|r' rest]]; simpl in U; try congruence; try lia.
    destruct (selected_columns_In _ _ _ _ Ic) as [_ [s C]].
    exists (nth r s CNaN). now apply pick_scalar.
Qed.

(** X27: the map of the dashboard never meets the ambiguous-lookup error.
    Whatever table [group_by_province_for_map] was given,
    [enrich_geojson_cached] applied to the frame it returned and to a
    collection whose property values are scalars or null completes and
    returns a new collection, unless a feature has a null property bag, in
    which case it raises the [AttributeError] of [None.get].  The province
    labels of a grouped frame are pairwise different, so no feature name
    matches two rows, and the frame has the five distinct columns the
    dashboard selects. *)
Theorem dashboard_map_enrichment_succeeds (w0 w : world) (df grouped geojson : loc)
    (g : GeoJSON) :
  group_by_province_for_map df "provincia" w0 = (inr grouped, w) ->
  nth_error (geos w) geojson = Some g ->
  fst (enrich_geojson_cached grouped geojson w)
  = if no_null_bag (geo_features g) then inr (length (geos w))
    else inl none_has_no_get.
Proof.
  intros R Hg.
  pose proof (@group_by_province_for_map_result w0 df "provincia") as H.
  unfold wp in H. rewrite R in H. cbn [fst snd] in H.
  destruct (H grouped eq_refl) as [d1 [gd [Hgd G]]].
  destruct (groupby_sum_keys _ _ _ G) as [keycol [cs [E Nm]]].
  cbn [map fst] in Nm.
  destruct cs as [|[n1 s1] [|[n2 s2] [|[n3 s3] [|[n4 s4] [|? ?]]]]];
    try discriminate.
  cbn [map fst] in Nm. injection Nm as -> -> -> ->.
  set (keys := group_keys keycol) in *.
  set (sel := mkDF (length keys)
                [ ("provincia", keys); ("total_medios", s1);
                  ("numeromediospersonal", s2); ("numeromediospesados", s3);
                  ("numeromediosaereos", s4) ]).
  unfold enrich_geojson_cached.
  erewrite bind_ok with (a := length (frames w))
                        (w' := mkWorld (frames w ++ [sel]) (geos w)).
  2:{ unfold getitems. erewrite bind_ok by (apply read_df_run; exact Hgd).
      cbv zeta. subst gd. reflexivity. }
  apply (@enrich_run_unique (mkWorld (frames w ++ [sel]) (geos w)))
    with (d := sel) (g := g) (keys := keys).
  - cbn [frames]. apply nth_error_app_last.
  - exact Hg.
  - reflexivity.
  - split.
    + unfold sel, df_columns, assoc_keys. cbn [cols map fst].
      repeat (constructor; [not_in|]). constructor.
    + unfold selected_columns, MAP_COLUMNS, sel. cbn.
      repeat (constructor; [not_in|]). constructor.
  - apply unique_matches_group_keys.
Qed.

End Pipeline.

(** * Instances on sample stores *)

Ltac wf_solve := unfold df_wf; simpl; repeat constructor.

(** C1 at a table with cause codes 450, 500 and a missing one: the flags are
    true, false, false. *)
Lemma flag_intentional_spec_witness :
  exists flags,
    flag_intentional 0%nat "idcausa" "intencionado" 400 499
      (mkWorld [frame_causes] [])
    = (inr 1%nat,
       mkWorld ([frame_causes] ++ [df_with frame_causes "intencionado" flags]) [])
    /\ flags = [CBool true; CBool false; CBool false].
Proof.
  destruct (@flag_intentional_spec (mkWorld [frame_causes] []) 0%nat frame_causes
              "idcausa" "intencionado") as [flags [R [L [P A]]]].
  - reflexivity.
  - wf_solve.
  - intros s E. vm_compute in E. inversion E. reflexivity.
  - exists flags. split; [exact R|].
    vm_compute in R. inversion R. reflexivity.
Defined.

(** The claim C1 as stated fails on a cause-code column that holds text:
    the range comparison raises and no flag column is produced. *)
Lemma flag_intentional_text_raises :
  fst (flag_intentional 0%nat "idcausa" "intencionado" 400 499
         (mkWorld [frame_text_cause] []))
  = inl (TypeError "'>=' not supported between instances of 'str' and 'int'").
Proof. vm_compute. reflexivity. Qed.

(** C8 at a table with danger ids "abc" and "7": they become -1 and 7. *)
Lemma coerce_types_degrades_witness :
  exists d',
    coerce_types parse_decimal 0%nat (mkWorld [frame_raw] [])
    = (inr 1%nat, mkWorld ([frame_raw] ++ [d']) [])
    /\ df_col d' "idpeligro" = Some [CNum (Int (-1)); CNum (Int 7)]
    /\ df_col d' "numeromediospersonal" = Some [CNum (Int 0); CNum (Int 3)]
    /\ df_col d' "perdidassuperficiales" = Some [CNaN; CNum (Int 5)].
Proof.
  destruct (@coerce_types_degrades parse_decimal (mkWorld [frame_raw] []) 0%nat
              frame_raw) as [d' [R _]].
  - reflexivity.
  - wf_solve.
  - intros s E. vm_compute in E. inversion E. reflexivity.
  - intros s E. vm_compute in E. inversion E. reflexivity.
  - exists d'. split; [exact R|].
    vm_compute in R. inversion R. repeat split.
Defined.

(** The claim C8 as stated fails on a table with an infinite danger
    identifier: the value parses, is not replaced by -1, and the conversion
    to integer raises; the identifier "abc" beside it does not become -1. *)
Lemma coerce_types_infinite_raises :
  fst (coerce_types parse_decimal 0%nat (mkWorld [frame_infinite_id] []))
  = inl (ValueError "Cannot convert non-finite values (NA or inf) to integer").
Proof. vm_compute. reflexivity. Qed.

(** C2 at a table without [numeromediosaereos]. *)
Lemma missing_resource_columns_raise_witness :
  fst (add_total_resources 0%nat (mkWorld [frame_no_aereos] []))
  = inl (KeyError "Faltan columnas de recursos: " ["numeromediosaereos"])
  /\ fst (group_by_province_for_map 0%nat "provincia" (mkWorld [frame_no_aereos] []))
     = inl (KeyError "Faltan columnas de recursos: " ["numeromediosaereos"])
  /\ fst (aggregate_resources_by_year 0%nat "anio" RESOURCE_COLUMNS
            (mkWorld [frame_no_aereos] []))
     = inl (KeyError "Faltan columnas de recursos para agregar por año: "
                     ["numeromediosaereos"]).
Proof.
  destruct (@missing_resource_columns_raise (mkWorld [frame_no_aereos] []) 0%nat
              frame_no_aereos "provincia" "anio") as [_ [A [B C]]].
  - reflexivity.
  - vm_compute. discriminate.
  - split; [exact A | split; [exact B | exact C]].
Defined.

(** C3 at a collection with Madrid under code "1" and a table with codes 1
    and 9: the first row is named Madrid, the second keeps its name. *)
Lemma province_round_trip_witness :
  exists pm d',
    build_provinces_map decimal_literal 0%nat "cod_prov" "name"
      (mkWorld [frame_provinces] [geo_madrid])
    = (inr pm, mkWorld [frame_provinces] [geo_madrid])
    /\ map_province_names parse_decimal fillna_none_raises 0%nat pm "idprovincia" "provincia"
         (mkWorld [frame_provinces] [geo_madrid])
       = (inr 1%nat, mkWorld ([frame_provinces] ++ [d']) [geo_madrid])
    /\ df_col d' "provincia" = Some [CStr "Madrid"; CStr "y"].
Proof.
  destruct (@province_round_trip parse_decimal decimal_literal fillna_none_raises
              (mkWorld [frame_provinces] [geo_madrid]) 0%nat 0%nat geo_madrid
              frame_provinces "cod_prov" "name" "idprovincia" "provincia"
              [CNum (Int 1); CNum (Int 9)] [CStr "x"; CStr "y"])
    as [pm [d' [names [B [R [C _]]]]]].
  - reflexivity.
  - reflexivity.
  - wf_solve.
  - reflexivity.
  - reflexivity.
  - reflexivity.
  - reflexivity.
  - exists pm, d'. split; [exact B|]. split; [exact R|].
    vm_compute in B. inversion B; subst pm.
    vm_compute in R. inversion R; subst d'. reflexivity.
Defined.

(** The claim C3 as stated fails on each of these inputs, in which every
    province code of the table is the code of a feature: a collection with
    one more feature whose code [int()] rejects, or with a feature whose
    property bag is null (the lookup is not built); a code 7.5 in both the
    collection and the table ([int()] truncates it, the table's conversion
    raises); a feature whose name is null (the row keeps its own name). *)
Lemma province_round_trip_fails :
  fst (build_provinces_map decimal_literal 0%nat "cod_prov" "name"
         (mkWorld [frame_one_code] [geo_bad_code]))
  = inl (ValueError "invalid literal for int() with base 10")
  /\ fst (build_provinces_map decimal_literal 0%nat "cod_prov" "name"
            (mkWorld [frame_one_code] [geo_null_bag]))
     = inl (TypeError "argument of type 'NoneType' is not iterable")
  /\ (fst (build_provinces_map decimal_literal 0%nat "cod_prov" "name"
             (mkWorld [frame_half_code] [geo_half_code]))
      = inr [(7, JStr "Burgos")]
      /\ fst (map_province_names parse_decimal fillna_none_raises 0%nat
                [(7, JStr "Burgos")] "idprovincia" "provincia"
                (mkWorld [frame_half_code] [geo_half_code]))
         = inl (TypeError "cannot safely cast non-equivalent float64 to int64"))
  /\ (fst (build_provinces_map decimal_literal 0%nat "cod_prov" "name"
             (mkWorld [frame_one_code] [geo_null_name]))
      = inr [(1, JNull)]
      /\ result_frame
           (map_province_names parse_decimal fillna_none_raises 0%nat
              [(1, JNull)] "idprovincia" "provincia"
              (mkWorld [frame_one_code] [geo_null_name]))
         = inr (mkDF 1 [ ("idprovincia", [CNum (Int 1)]);
                         ("provincia", [CStr "x"]) ])).
Proof. repeat split; vm_compute; reflexivity. Qed.

(** When two features carry one code the lookup keeps the last one, as the
    data model of the specification has it: the row with code 1 is named
    after the second feature. *)
Example province_lookup_last_feature_wins :
  build_provinces_map decimal_literal 0%nat "cod_prov" "name"
    (mkWorld [frame_one_code] [geo_two_names])
  = (inr [(1, JStr "B")], mkWorld [frame_one_code] [geo_two_names])
  /\ result_frame
       (map_province_names parse_decimal fillna_none_raises 0%nat [(1, JStr "B")]
          "idprovincia" "provincia" (mkWorld [frame_one_code] [geo_two_names]))
     = inr (mkDF 1 [ ("idprovincia", [CNum (Int 1)]); ("provincia", [CStr "B"]) ]).
Proof. split; vm_compute; reflexivity. Qed.






(** C9 at a table of three years, keeping 2020-2021 and the intentional
    fires only: one row is kept, by either order of filtering. *)
Lemma filter_is_conjunction_witness :
  let w := mkWorld [frame_years] [] in
  let r := mkDF 1 [ ("anio", [CNum (Int 2020)]); ("intencionado", [CBool true]) ] in
  result_frame (filter_by_year_and_intent 0%nat (2020, 2021) true false w) = inr r
  /\ result_frame (bind (filter_year 0%nat 2020 2021)
                        (fun l => filter_intent l true false) w) = inr r
  /\ result_frame (bind (filter_intent 0%nat true false)
                        (fun l => filter_year l 2020 2021) w) = inr r
  /\ result_frame (filter_by_year_and_intent_cached 0%nat (2020, 2021) true false w)
     = inr r.
Proof.
  apply (@filter_is_conjunction (mkWorld [frame_years] []) 0%nat frame_years
           [CNum (Int 2019); CNum (Int 2020); CNum (Int 2021)] 2020 2021 true false).
  - reflexivity.
  - wf_solve.
  - reflexivity.
  - reflexivity.
  - right. reflexivity.
Defined.

(** The claim C9 as stated fails on a table whose second row has a text
    year and is not intentional: filtering by intent first drops that row
    and the year filter then returns the first row, while filtering by year
    first, like the dashboard filter itself, raises on the text.  On a
    table without the year column, or without the intent flag when a switch
    is off, the filter raises and there is no result set. *)
Lemma filter_orders_disagree :
  let w := mkWorld [frame_text_year] [] in
  result_frame (bind (filter_intent 0%nat true false)
                     (fun l => filter_year l 2020 2021) w)
  = inr (mkDF 1 [ ("anio", [CNum (Int 2020)]); ("intencionado", [CBool true]) ])
  /\ result_frame (bind (filter_year 0%nat 2020 2021)
                        (fun l => filter_intent l true false) w)
     = inl (TypeError "'>=' not supported between instances of 'str' and 'int'")
  /\ result_frame (filter_by_year_and_intent 0%nat (2020, 2021) true false w)
     = inl (TypeError "'>=' not supported between instances of 'str' and 'int'")
  /\ result_frame (filter_by_year_and_intent 0%nat (2020, 2021) true false
                     (mkWorld [frame_no_year] []))
     = inl (KeyError "anio" ["anio"])
  /\ result_frame (filter_by_year_and_intent 0%nat (2020, 2021) true false
                     (mkWorld [frame_no_flag] []))
     = inl (KeyError "intencionado" ["intencionado"]).
Proof. repeat split; vm_compute; reflexivity. Qed.

(** C10 at the table with two rows for province A. *)
Lemma enrich_needs_unique_keys_witness :
  fst (enrich_geojson_with_dataframe 0%nat 0%nat "name" "provincia" None false
         world_dup) = inl ambiguous.
Proof.
  destruct (proj1 enrich_needs_unique_keys world_dup 0%nat 0%nat
              (mkDF 2 [ ("provincia", [CStr "A"; CStr "A"]);
                        ("total_medios", [CNum (Int 1); CNum (Int 2)]) ])
              (mkGeo (Some [ mkFeature (Bag [("name", JStr "A")]) "polygon" ]))
              "name" "provincia" None [CStr "A"; CStr "A"]
              [ mkFeature (Bag [("name", JStr "A")]) "polygon" ]
              (mkFeature (Bag [("name", JStr "A")]) "polygon") false)
    as [e [R A]].
  - reflexivity.
  - reflexivity.
  - reflexivity.
  - reflexivity.
  - vm_compute. discriminate.
  - simpl. auto.
  - vm_compute. lia.
  - rewrite R, (A eq_refl). reflexivity.
Defined.

(** The claim C10 as stated fails when no column is selected for copying:
    the table holds the key column only, its two rows both match the feature
    named A, and the call completes. *)
Lemma enrich_duplicates_complete_without_columns :
  fst (enrich_geojson_with_dataframe 0%nat 0%nat "name" "provincia" None true
         world_dup_keys_only) = inr 1%nat
  /\ matching_rows (JStr "A") [CStr "A"; CStr "A"] 0 = [0%nat; 1%nat].
Proof. split; vm_compute; reflexivity. Qed.

(** With [deepcopy_geo=False] the caller's collection is the one the
    call writes to. *)
Example enrich_in_place_mutates :
  nth_error
    (geos (snd (enrich_geojson_with_dataframe 0%nat 0%nat "name" "provincia" None
                  false (mkWorld [frame_totals] [geo_AB])))) 0
  <> Some geo_AB.
Proof. vm_compute. discriminate. Qed.

(** On a table that has the identifier column but no name column,
    [out.get(name_col)] is [None] and [fillna(None)] raises (pandas 1.x and
    2.x): the call does not return. *)
Example map_province_names_without_name_column :
  fst (map_province_names parse_decimal fillna_none_raises 0%nat [(1, JStr "Madrid")]
         "idprovincia" "provincia"
         (mkWorld [mkDF 1 [("idprovincia", [CNum (Int 1)])]] []))
  = inl (ValueError "Must specify a fill 'value' or 'method'.").
Proof. vm_compute. reflexivity. Qed.

(** ** Instances of the further properties *)

(** X1 at the raw sample table, with the default columns. *)
Lemma select_columns_keeps_present_witness :
  exists sel,
    select_columns 0%nat None (mkWorld [frame_raw] [])
    = (inr 2%nat, mkWorld ([frame_raw] ++ [sel; sel]) [])
    /\ df_columns sel
       = [ "idpeligro"; "idprovincia"; "numeromediospersonal";
           "perdidassuperficiales" ].
Proof.
  destruct (@select_columns_keeps_present (mkWorld [frame_raw] []) 0%nat
              frame_raw None) as [sel [R [_ [C _]]]].
  - reflexivity.
  - exists sel. split; [exact R | exact C].
Defined.

(** X2 at the raw sample table: the missing area becomes 0. *)
Lemma add_hectareas_alias_fills_witness :
  exists alias,
    add_hectareas_alias 0%nat "perdidassuperficiales" "hectareas_quemadas"
      (mkWorld [frame_raw] [])
    = (inr 1%nat,
       mkWorld ([frame_raw] ++ [df_with frame_raw "hectareas_quemadas" alias]) [])
    /\ nth_error alias 0 = Some (CNum (Int 0))
    /\ nth_error alias 1 = Some (CNum (Int 5)).
Proof.
  destruct (@add_hectareas_alias_fills (mkWorld [frame_raw] []) 0%nat frame_raw
              "perdidassuperficiales" "hectareas_quemadas")
    as [alias [R [_ [_ [V _]]]]].
  - reflexivity.
  - wf_solve.
  - exists alias. split; [exact R|]. split.
    + apply (V [CNaN; CNum (Int 5)] eq_refl 0%nat CNaN eq_refl).
    + apply (V [CNaN; CNum (Int 5)] eq_refl 1%nat (CNum (Int 5)) eq_refl).
Defined.

(** X3 at the raw sample table. *)
Lemma coerce_types_column_types_witness :
  exists d',
    coerce_types parse_decimal 0%nat (mkWorld [frame_raw] [])
    = (inr 1%nat, mkWorld ([frame_raw] ++ [d']) [])
    /\ df_wf d'.
Proof.
  destruct (@coerce_types_column_types parse_decimal (mkWorld [frame_raw] [])
              0%nat frame_raw) as [d' [R [W _]]].
  - reflexivity.
  - wf_solve.
  - intros s E. vm_compute in E. inversion E. reflexivity.
  - intros s E. vm_compute in E. inversion E. reflexivity.
  - exists d'. split; [exact R | exact W].
Defined.

(** X4 at the raw sample table. *)
Lemma coerce_types_idempotent_witness :
  exists d',
    coerce_types parse_decimal 0%nat (mkWorld [frame_raw] [])
    = (inr 1%nat, mkWorld ([frame_raw] ++ [d']) [])
    /\ coerce_types parse_decimal 1%nat (mkWorld ([frame_raw] ++ [d']) [])
       = (inr 2%nat, mkWorld ([frame_raw] ++ [d'; d']) []).
Proof.
  destruct (@coerce_types_idempotent parse_decimal (mkWorld [frame_raw] [])
              0%nat frame_raw) as [d' [R1 R2]].
  - reflexivity.
  - wf_solve.
  - intros s E. vm_compute in E. inversion E. reflexivity.
  - intros s E. vm_compute in E. inversion E. reflexivity.
  - exists d'. split; [exact R1 | exact R2].
Defined.

(** X5 at a table with an infinite province identifier. *)
Lemma coerce_types_raises_iff_witness :
  fst (coerce_types parse_decimal 0%nat
         (mkWorld [mkDF 1 [("idprovincia", [CNum (Inf false)])]] []))
  = inl non_finite.
Proof.
  apply (@coerce_types_raises_iff parse_decimal
           (mkWorld [mkDF 1 [("idprovincia", [CNum (Inf false)])]] []) 0%nat
           (mkDF 1 [("idprovincia", [CNum (Inf false)])])).
  - reflexivity.
  - wf_solve.
Defined.

(** X6 at the table whose cause code is the text "abc". *)
Lemma flag_intentional_raises_on_text_witness :
  flag_intentional 0%nat "idcausa" "intencionado" 400 499
    (mkWorld [frame_text_cause] [])
  = (inl text_vs_int, mkWorld ([frame_text_cause] ++ [frame_text_cause]) []).
Proof.
  apply (@flag_intentional_raises_on_text (mkWorld [frame_text_cause] []) 0%nat
           frame_text_cause "idcausa" "intencionado" 400 499 [CStr "abc"]).
  - reflexivity.
  - reflexivity.
  - reflexivity.
Defined.

(** X7 at cause codes 450, 500 and a missing one, with bounds 450 and 500:
    both ends are flagged. *)
Lemma flag_intentional_bounds_inclusive_witness :
  exists flags,
    flag_intentional 0%nat "idcausa" "intencionado" 450 500
      (mkWorld [frame_causes] [])
    = (inr 1%nat,
       mkWorld ([frame_causes] ++ [df_with frame_causes "intencionado" flags]) [])
    /\ nth_error flags 0 = Some (CBool true)
    /\ nth_error flags 1 = Some (CBool true)
    /\ nth_error flags 2 = Some (CBool false).
Proof.
  destruct (@flag_intentional_bounds_inclusive (mkWorld [frame_causes] []) 0%nat
              frame_causes "idcausa" "intencionado" 450 500
              [CNum (Int 450); CNum (Int 500); CNaN]) as [flags [R [I N]]].
  - reflexivity.
  - wf_solve.
  - reflexivity.
  - reflexivity.
  - exists flags. split; [exact R|]. split; [|split].
    + apply (I 0%nat 450 eq_refl).
    + apply (I 1%nat 500 eq_refl).
    + apply (N 2%nat CNaN eq_refl eq_refl).
Defined.

(** X8 at the raw sample table, which has no cause code. *)
Lemma prepare_wildfires_output_witness :
  exists p,
    result_frame (prepare_wildfires parse_decimal 0%nat None
                    (mkWorld [frame_raw] [])) = inr p
    /\ df_columns p
       = [ "idpeligro"; "idprovincia"; "numeromediospersonal";
           "perdidassuperficiales"; "intencionado"; "hectareas_quemadas" ]
    /\ df_col p "intencionado" = Some [CBool false; CBool false].
Proof.
  destruct (@prepare_wildfires_output parse_decimal (mkWorld [frame_raw] [])
              0%nat frame_raw) as [p [flags [area [R [_ [_ [C [F [_ [F0 _]]]]]]]]]].
  - reflexivity.
  - wf_solve.
  - intros s E. vm_compute in E. discriminate.
  - intros s E. vm_compute in E. inversion E. reflexivity.
  - intros s E. vm_compute in E. inversion E. reflexivity.
  - exists p. split; [exact R|]. split; [exact C|].
    rewrite F. f_equal. apply F0. reflexivity.
Defined.

(** X9 at the sample table of resources. *)
Lemma map_aggregation_same_as_direct_witness :
  result_frame (map_aggregation_cached 0%nat (mkWorld [frame_resources] []))
  = result_frame (group_by_province_for_map 0%nat "provincia"
                    (mkWorld [frame_resources] [])).
Proof.
  apply (@map_aggregation_same_as_direct (mkWorld [frame_resources] []) 0%nat
           frame_resources).
  - reflexivity.
  - wf_solve.
  - reflexivity.
Defined.

(** X10 at the sample table of resources: province A used 4 + 1 + 3 = 8
    resources, province B 2 + 1 + 0 = 3. *)
Lemma map_totals_sum_of_breakdown_witness :
  exists names : list string,
    StronglySorted string_lt names
    /\ (forall a, In a names <-> In (Some a) [Some "A"; Some "B"; Some "A"])
    /\ result_frame (group_by_province_for_map 0%nat "provincia"
                       (mkWorld [frame_resources] []))
       = inr (mkDF (length names)
                [ ("provincia", map CStr names);
                  ("total_medios",
                   ints (map (fun a =>
                                sum_where String.eqb
                                  [Some "A"; Some "B"; Some "A"] [1; 2; 3] a
                                + sum_where String.eqb
                                    [Some "A"; Some "B"; Some "A"] [0; 1; 1] a
                                + sum_where String.eqb
                                    [Some "A"; Some "B"; Some "A"] [2; 0; 1] a)
                             names));
                  ("numeromediospersonal",
                   ints (map (sum_where String.eqb
                                [Some "A"; Some "B"; Some "A"] [1; 2; 3]) names));
                  ("numeromediospesados",
                   ints (map (sum_where String.eqb
                                [Some "A"; Some "B"; Some "A"] [0; 1; 1]) names));
                  ("numeromediosaereos",
                   ints (map (sum_where String.eqb
                                [Some "A"; Some "B"; Some "A"] [2; 0; 1]) names)) ]).
Proof.
  apply (@map_totals_sum_of_breakdown (mkWorld [frame_resources] []) 0%nat
           frame_resources [Some "A"; Some "B"; Some "A"]
           [1; 2; 3] [0; 1; 1] [2; 0; 1]).
  - reflexivity.
  - wf_solve.
  - reflexivity.
  - reflexivity.
  - reflexivity.
  - reflexivity.
  - reflexivity.
  - unfold exact_sums. simpl. lia.
Defined.

(** X11 at the sample table of resources: 2019 comes before 2020. *)
Lemma aggregate_resources_by_year_rows_witness :
  exists years : list Z,
    StronglySorted Z.lt years
    /\ (forall y, In y years <-> In (Some y) [Some 2020; Some 2019; Some 2020])
    /\ result_frame (aggregate_resources_by_year 0%nat "anio" RESOURCE_COLUMNS
                       (mkWorld [frame_resources] []))
       = inr (mkDF (length years)
                [ ("anio", ints years);
                  ("numeromediospersonal",
                   ints (map (sum_where Z.eqb [Some 2020; Some 2019; Some 2020]
                                [1; 2; 3]) years));
                  ("numeromediospesados",
                   ints (map (sum_where Z.eqb [Some 2020; Some 2019; Some 2020]
                                [0; 1; 1]) years));
                  ("numeromediosaereos",
                   ints (map (sum_where Z.eqb [Some 2020; Some 2019; Some 2020]
                                [2; 0; 1]) years)) ]).
Proof.
  apply (@aggregate_resources_by_year_rows (mkWorld [frame_resources] []) 0%nat
           frame_resources [Some 2020; Some 2019; Some 2020]
           [1; 2; 3] [0; 1; 1] [2; 0; 1]).
  - reflexivity.
  - reflexivity.
  - reflexivity.
  - reflexivity.
  - reflexivity.
  - unfold exact_sums. simpl. lia.
Defined.

(** The rows of the two aggregates on the sample table of resources. *)
Example group_by_province_rows :
  result_frame (group_by_province_for_map 0%nat "provincia"
                  (mkWorld [frame_resources] []))
  = inr (mkDF 2
           [ ("provincia", [CStr "A"; CStr "B"]);
             ("total_medios", [CNum (Int 8); CNum (Int 3)]);
             ("numeromediospersonal", [CNum (Int 4); CNum (Int 2)]);
             ("numeromediospesados", [CNum (Int 1); CNum (Int 1)]);
             ("numeromediosaereos", [CNum (Int 3); CNum (Int 0)]) ]).
Proof. vm_compute. reflexivity. Qed.

Example aggregate_resources_rows :
  result_frame (aggregate_resources_by_year 0%nat "anio" RESOURCE_COLUMNS
                  (mkWorld [frame_resources] []))
  = inr (mkDF 2
           [ ("anio", [CNum (Int 2019); CNum (Int 2020)]);
             ("numeromediospersonal", [CNum (Int 2); CNum (Int 4)]);
             ("numeromediospesados", [CNum (Int 1); CNum (Int 1)]);
             ("numeromediosaereos", [CNum (Int 0); CNum (Int 3)]) ]).
Proof. vm_compute. reflexivity. Qed.

(** [int()] truncates the code 7.9 of a feature to 7. *)
Example build_provinces_map_truncates :
  fst (build_provinces_map decimal_literal 0%nat "cod_prov" "name"
         (mkWorld []
            [ mkGeo (Some [ mkFeature (Bag [ ("cod_prov", JNum (Flt (79 # 10)));
                                             ("name", JStr "Burgos") ])
                                      "polygon" ]) ]))
  = inr [(7, JStr "Burgos")].
Proof. vm_compute. reflexivity. Qed.

(** X12 at the sample table of resources, which has the fallback column
    only, and at a table without any area column. *)
Lemma aggregate_burned_area_alias_or_fallback_witness :
  result_frame (aggregate_burned_area_by_year 0%nat "anio" "hectareas_quemadas"
                  "perdidassuperficiales" (mkWorld [frame_resources] []))
  = inr (mkDF 2 [ ("anio", [CNum (Int 2019); CNum (Int 2020)]);
                  ("hectareas_quemadas", [CNum (Int 20); CNum (Int 15)]) ])
  /\ fst (aggregate_burned_area_by_year 0%nat "anio" "hectareas_quemadas"
            "perdidassuperficiales" (mkWorld [frame_years] []))
     = inl (KeyError "No se encontró columna de área quemada: "
                     ["hectareas_quemadas"; "perdidassuperficiales"]).
Proof.
  split.
  - apply (proj2 (@aggregate_burned_area_alias_or_fallback
                    (mkWorld [frame_resources] []) 0%nat frame_resources eq_refl)
             [CNum (Int 2020); CNum (Int 2019); CNum (Int 2020)]
             [CNum (Int 10); CNum (Int 20); CNum (Int 5)]);
      reflexivity.
  - apply (proj1 (@aggregate_burned_area_alias_or_fallback
                    (mkWorld [frame_years] []) 0%nat frame_years eq_refl)).
    reflexivity.
Defined.

(** X13 at the collection with Madrid under code "1". *)
Lemma build_provinces_map_behaviour_witness :
  snd (build_provinces_map decimal_literal 0%nat "cod_prov" "name"
         (mkWorld [] [geo_madrid])) = mkWorld [] [geo_madrid]
  /\ exists pm,
       fst (build_provinces_map decimal_literal 0%nat "cod_prov" "name"
              (mkWorld [] [geo_madrid])) = inr pm
       /\ assoc_get Z.eqb 1 pm = Some (JStr "Madrid").
Proof.
  destruct (@build_provinces_map_behaviour decimal_literal
              (mkWorld [] [geo_madrid]) 0%nat geo_madrid "cod_prov" "name"
              eq_refl) as [S [OK _]].
  split; [exact S|].
  destruct (OK eq_refl) as [pm [R [_ G]]].
  exists pm. split; [exact R|]. rewrite G. reflexivity.
Defined.

(** X14 at the table whose province identifier is 7.5. *)
Lemma map_province_names_raises_on_fraction_witness :
  map_province_names parse_decimal fillna_none_raises 0%nat [(1, JStr "Madrid")]
    "idprovincia" "provincia" (mkWorld [frame_half_code] [])
  = (inl unsafe_cast, mkWorld ([frame_half_code] ++ [frame_half_code]) []).
Proof.
  apply (@map_province_names_raises_on_fraction parse_decimal fillna_none_raises
           (mkWorld [frame_half_code] []) 0%nat frame_half_code
           [(1, JStr "Madrid")] "idprovincia" "provincia" [CNum (Flt (15 # 2))]).
  - reflexivity.
  - reflexivity.
  - reflexivity.
Defined.

(** X15 at the table with provinces 1 and 9 and a dictionary that knows
    province 1 only. *)
Lemma map_province_names_on_integer_ids_witness :
  exists names,
    map_province_names parse_decimal fillna_none_raises 0%nat [(1, JStr "Madrid")]
      "idprovincia" "provincia" (mkWorld [frame_provinces] [])
    = (inr 1%nat,
       mkWorld ([frame_provinces] ++ [df_with frame_provinces "provincia" names]) [])
    /\ nth_error names 0 = Some (CStr "Madrid")
    /\ nth_error names 1 = Some (CStr "y").
Proof.
  destruct (@map_province_names_on_integer_ids parse_decimal fillna_none_raises
              (mkWorld [frame_provinces] []) 0%nat frame_provinces
              [(1, JStr "Madrid")] "idprovincia" "provincia"
              [CNum (Int 1); CNum (Int 9)] [CStr "x"; CStr "y"])
    as [names [R [_ V]]].
  - reflexivity.
  - wf_solve.
  - reflexivity.
  - reflexivity.
  - discriminate.
  - reflexivity.
  - exists names. split; [exact R|]. split.
    + apply (V 0%nat 1 (CStr "x") eq_refl eq_refl).
    + apply (V 1%nat 9 (CStr "y") eq_refl eq_refl).
Defined.

(** X17 at the table of totals and the collection with features A and B. *)
Lemma enrich_deepcopy_only_aliasing_witness :
  exists g',
    snd (enrich_geojson_with_dataframe 0%nat 0%nat "name" "provincia" None true
           (mkWorld [frame_totals] [geo_AB]))
    = mkWorld [frame_totals] ([geo_AB] ++ [g'])
    /\ snd (enrich_geojson_with_dataframe 0%nat 0%nat "name" "provincia" None
              false (mkWorld [frame_totals] [geo_AB]))
       = mkWorld [frame_totals] [g'].
Proof.
  destruct (@enrich_deepcopy_only_aliasing (mkWorld [frame_totals] [geo_AB])
              0%nat 0%nat frame_totals geo_AB "name" "provincia" None
              eq_refl eq_refl) as [g' [R1 [R2 _]]].
  exists g'. split; [exact R1 | exact R2].
Defined.

(** X18 at the table of totals, asked for a key column it does not have. *)
Lemma enrich_missing_key_column_witness :
  fst (enrich_geojson_with_dataframe 0%nat 0%nat "name" "nombre" None false
         (mkWorld [frame_totals] [geo_AB]))
  = inl (KeyError "None of the keys are in the columns" ["nombre"])
  /\ nth_error
       (geos (snd (enrich_geojson_with_dataframe 0%nat 0%nat "name" "nombre" None
                     false (mkWorld [frame_totals] [geo_AB])))) 0
     = Some geo_AB.
Proof.
  apply (@enrich_missing_key_column (mkWorld [frame_totals] [geo_AB]) 0%nat 0%nat
           frame_totals geo_AB "name" "nombre" None false).
  - reflexivity.
  - reflexivity.
  - reflexivity.
Defined.

(** X19 at the table of totals and the collection with features A and B:
    the names of the features survive the enrichment. *)
Lemma enrich_writes_only_selected_witness :
  exists fs',
    nth_error
      (geos (snd (enrich_geojson_with_dataframe 0%nat 0%nat "name" "provincia"
                    None true (mkWorld [frame_totals] [geo_AB])))) 1
    = Some (mkGeo (Some fs'))
    /\ length fs' = 2%nat
    /\ exists f',
         nth_error fs' 0 = Some f'
         /\ geometry f' = "polygon"
         /\ assoc_get String.eqb "name" (feat_props f') = Some (JStr "A").
Proof.
  destruct (@enrich_writes_only_selected (mkWorld [frame_totals] [geo_AB])
              0%nat 0%nat frame_totals geo_AB "name" "provincia" None true
              [ mkFeature (Bag [("name", JStr "A")]) "polygon";
                mkFeature (Bag [("name", JStr "B")]) "polygon" ]
              eq_refl eq_refl eq_refl) as [fs' [R [L K]]].
  exists fs'. split; [exact R|]. split; [exact L|].
  destruct (K 0%nat (mkFeature (Bag [("name", JStr "A")]) "polygon") eq_refl)
    as [f' [N [G P]]].
  exists f'. split; [exact N|]. split; [exact G|].
  apply (P "name"). reflexivity.
Defined.

(** X22 at a column with a repeated year and a missing one. *)
Lemma years_of_strictly_ascending_witness :
  years_of decimal_literal [CNum (Int 2020); CNum (Int 2019); CNaN; CNum (Int 2020)]
  = inr [2019; 2020]
  /\ StronglySorted Z.lt [2019; 2020].
Proof.
  split; [reflexivity|].
  apply (@years_of_strictly_ascending decimal_literal
           [CNum (Int 2020); CNum (Int 2019); CNaN; CNum (Int 2020)] [2019; 2020]).
  reflexivity.
Defined.

(** X23 at the sample table of resources: the slider runs from 2019 to 2020. *)
Lemma Incendios_year_range_witness :
  exists ds w',
    Incendios_init parse_decimal decimal_literal fillna_none_raises 0%nat 0%nat
      (mkWorld [frame_resources] [geo_madrid]) = (inr ds, w')
    /\ StronglySorted Z.lt (inc_years ds).
Proof.
  assert (R : exists ds w',
            Incendios_init parse_decimal decimal_literal fillna_none_raises 0%nat 0%nat
              (mkWorld [frame_resources] [geo_madrid]) = (inr ds, w')).
  { eexists _, _. vm_compute. reflexivity. }
  destruct R as [ds [w' R]]. exists ds, w'. split; [exact R|].
  exact (proj1 (@Incendios_year_range parse_decimal decimal_literal fillna_none_raises 0%nat 0%nat
                  (mkWorld [frame_resources] [geo_madrid]) w' ds R)).
Defined.

(** X24 at the sample table of resources. *)
Lemma stacked_resources_plots_the_aggregate_witness :
  exists fig,
    stacked_resources_by_year 0%nat "anio" RESOURCE_COLUMNS None None
      (mkWorld [frame_resources] [])
    = (inr fig, mkWorld [frame_resources] [])
    /\ length (fig_data fig) = 3%nat.
Proof.
  destruct (@stacked_resources_plots_the_aggregate (mkWorld [frame_resources] [])
              0%nat frame_resources
              (mkDF 2
                 [ ("anio", [CNum (Int 2019); CNum (Int 2020)]);
                   ("numeromediospersonal", [CNum (Int 2); CNum (Int 4)]);
                   ("numeromediospesados", [CNum (Int 1); CNum (Int 1)]);
                   ("numeromediosaereos", [CNum (Int 0); CNum (Int 3)]) ])
              "anio" RESOURCE_COLUMNS None None)
    as [x [fig [R [_ [_ [L _]]]]]].
  - reflexivity.
  - unfold RESOURCE_COLUMNS.
    constructor; [simpl; intros [E | [E | []]]; discriminate|].
    constructor; [simpl; intros [E | []]; discriminate|].
    constructor; [simpl; intros []|]. constructor.
  - vm_compute. reflexivity.
  - exists fig. split; [exact R | exact L].
Defined.

(** X25 at the sample table of resources. *)
Lemma line_hectares_plots_the_aggregate_witness :
  snd (line_hectares_by_year 0%nat "anio" "hectareas_quemadas"
         "perdidassuperficiales" None (mkWorld [frame_resources] []))
  = mkWorld [frame_resources] [].
Proof.
  apply (proj1 (@line_hectares_plots_the_aggregate (mkWorld [frame_resources] [])
                  0%nat frame_resources "anio" "hectareas_quemadas"
                  "perdidassuperficiales" None eq_refl
                  ltac:(discriminate))).
Defined.

(** X26 at the table of provinces A to D with [n = 2]. *)
Lemma horizontal_top_provinces_reorders_top_witness :
  exists top bars fig t,
    result_frame (top_provinces_by_burned_area 0%nat 2 "provincia"
                    "hectareas_quemadas" "perdidassuperficiales" false
                    (mkWorld [fires_ABCD] []))
    = inr (top_frame top)
    /\ horizontal_top_provinces 0%nat 2 "provincia" "hectareas_quemadas"
         "perdidassuperficiales" None (mkWorld [fires_ABCD] [])
       = (inr fig, mkWorld [fires_ABCD] [])
    /\ fig_data fig = [t]
    /\ tr_y t = map fst bars /\ tr_x t = map snd bars
    /\ Permutation bars top.
Proof.
  destruct (@horizontal_top_provinces_reorders_top (mkWorld [fires_ABCD] []) 0%nat
              fires_ABCD 2
              [CStr "A"; CStr "B"; CStr "C"; CStr "A"; CStr "D"]
              [CNum (Int 60); CNum (Int 50); CNum (Int 75); CNum (Int 40);
               CNum (Int 10)] None)
    as [top [bars [fig [t [R1 [R2 [D [_ [_ [Y [X [P _]]]]]]]]]]]].
  - reflexivity.
  - reflexivity.
  - reflexivity.
  - reflexivity.
  - lia.
  - exists top, bars, fig, t.
    split; [exact R1|]. split; [exact R2|]. split; [exact D|].
    split; [exact Y|]. split; [exact X | exact P].
Defined.

(** X27 at the sample table of resources and the collection with features
    A and B. *)
Lemma dashboard_map_enrichment_succeeds_witness :
  exists grouped w,
    group_by_province_for_map 0%nat "provincia"
      (mkWorld [frame_resources] [geo_AB]) = (inr grouped, w)
    /\ fst (enrich_geojson_cached grouped 0%nat w) = inr (length (geos w)).
Proof.
  assert (R : exists grouped w,
            group_by_province_for_map 0%nat "provincia"
              (mkWorld [frame_resources] [geo_AB]) = (inr grouped, w)
            /\ nth_error (geos w) 0 = Some geo_AB).
  { eexists _, _. split; [vm_compute; reflexivity | reflexivity]. }
  destruct R as [grouped [w [R G]]]. exists grouped, w. split; [exact R|].
  exact (@dashboard_map_enrichment_succeeds (mkWorld [frame_resources] [geo_AB])
           w 0%nat grouped 0%nat geo_AB R G).
Defined.
